(** * nexus-order-manager: order state machine, submission path, execution
      worker and transactional-outbox relay

    A shallow embedding of the Go sources
    - [internal/domain/order.go]
    - [internal/infrastructure/persistence/postgres.go]
    - [internal/infrastructure/messaging/kafka_pool.go]
    - [internal/application/orchestrator.go]
    - [internal/infrastructure/http/server.go]
    - [internal/config/config.go]
    - [cmd/order-manager/main.go]
    and the properties of the specification stated over it, followed by
    further properties of the same code. *)

From Stdlib Require Import String List Bool ZArith NArith Lia.
From Stdlib Require Import Floats.SpecFloat.
From Stdlib Require Import Sorting.Sorted Sorting.Permutation.
From Stdlib Require Import Ascii DecimalString DecimalPos.
Import ListNotations.

Local Open Scope string_scope.
Local Open Scope Z_scope.

(* ================================================================== *)
(** * Package [domain] (internal/domain/order.go)                      *)
(* ================================================================== *)

(** [type OrderStatus string]: any string inhabits the type, the four
    constants are only the values the program itself writes. *)
Definition OrderStatus := string.

Definition StatusPending   : OrderStatus := "PENDING".
Definition StatusExecuting : OrderStatus := "EXECUTING".
Definition StatusCompleted : OrderStatus := "COMPLETED".
Definition StatusFailed    : OrderStatus := "FAILED".

Definition OrderSide := string.
Definition SideBuy  : OrderSide := "BUY".
Definition SideSell : OrderSide := "SELL".

Definition OrderType := string.
Definition TypeMarket : OrderType := "MARKET".
Definition TypeLimit  : OrderType := "LIMIT".

(** [float64] values are IEEE-754 binary64 numbers; comparisons are the
    IEEE ones ([SFltb]), so a NaN is not greater than zero. *)
Definition float64 := spec_float.
Definition f64_zero : float64 := S754_zero false.

(** Go's [a > b] on floats. *)
Definition f64_gt (a b : float64) : bool := SFltb b a.

(** [time.Time] as an instant on a discrete time line; [0] is the zero
    value of the type. *)
Definition Time := Z.
Definition zeroTime : Time := 0.

(** [Type] is reserved in Rocq, the field is called [Type_]. *)
Record Order := mkOrder {
  ID        : string;
  Symbol    : string;
  Side      : OrderSide;
  Type_     : OrderType;
  Quantity  : float64;
  Price     : float64;
  Status    : OrderStatus;
  CreatedAt : Time;
  UpdatedAt : Time
}.

(** The fields [ID] and [CreatedAt] of [OutboxEvent] are prefixed with
    [Event] to keep them apart from those of [Order]. *)
Record OutboxEvent := mkOutboxEvent {
  EventID        : N;              (* uint64, primaryKey;autoIncrement *)
  Aggregate      : string;
  AggregateID    : string;
  EventType      : string;
  Payload        : string;
  Processed      : bool;
  EventCreatedAt : Time;
  ProcessedAt    : option Time     (* *time.Time, nil = None *)
}.

(** Field updates of the form [order.Status = s]. *)
Definition set_Status (o : Order) (s : OrderStatus) : Order :=
  mkOrder (ID o) (Symbol o) (Side o) (Type_ o) (Quantity o) (Price o)
          s (CreatedAt o) (UpdatedAt o).

Definition set_UpdatedAt (o : Order) (t : Time) : Order :=
  mkOrder (ID o) (Symbol o) (Side o) (Type_ o) (Quantity o) (Price o)
          (Status o) (CreatedAt o) t.

Definition set_CreatedAt (o : Order) (t : Time) : Order :=
  mkOrder (ID o) (Symbol o) (Side o) (Type_ o) (Quantity o) (Price o)
          (Status o) t (UpdatedAt o).

Definition set_Type (o : Order) (ty : OrderType) : Order :=
  mkOrder (ID o) (Symbol o) (Side o) ty (Quantity o) (Price o)
          (Status o) (CreatedAt o) (UpdatedAt o).

Definition set_Price (o : Order) (p : float64) : Order :=
  mkOrder (ID o) (Symbol o) (Side o) (Type_ o) (Quantity o) p
          (Status o) (CreatedAt o) (UpdatedAt o).

(** [NewOrder]; [now] is the value returned by its call of [time.Now()]. *)
Definition NewOrder (now : Time) (id symbol : string) (side : OrderSide)
    (orderType : OrderType) (quantity price : float64) : Order :=
  {| ID := id; Symbol := symbol; Side := side; Type_ := orderType;
     Quantity := quantity; Price := price; Status := StatusPending;
     CreatedAt := now; UpdatedAt := now |}.

(** Go's [s != ""]. *)
Definition nonempty (s : string) : bool := negb (String.eqb s "").

(** [func (o *Order) IsValid() bool] *)
Definition IsValid (o : Order) : bool :=
  nonempty (ID o) && nonempty (Symbol o) && f64_gt (Quantity o) f64_zero.

(** The map literal of [CanTransitionTo], in source order. *)
Definition transitions : list (OrderStatus * list OrderStatus) :=
  [ (StatusPending,   [StatusExecuting; StatusFailed]);
    (StatusExecuting, [StatusCompleted; StatusFailed]);
    (StatusCompleted, []);
    (StatusFailed,    []) ].

(** Indexing a Go map: the zero value (a nil slice) for an absent key. *)
Fixpoint map_index (m : list (OrderStatus * list OrderStatus))
    (k : OrderStatus) : list OrderStatus :=
  match m with
  | [] => []
  | (k', v) :: m' => if String.eqb k' k then v else map_index m' k
  end.

(** The [for _, allowed := range ...] loop with its early [return true]. *)
Fixpoint range_allowed (allowed : list OrderStatus) (newStatus : OrderStatus)
    : bool :=
  match allowed with
  | [] => false
  | a :: rest => if String.eqb a newStatus then true
                 else range_allowed rest newStatus
  end.

(** [func (o *Order) CanTransitionTo(newStatus OrderStatus) bool] *)
Definition CanTransitionTo (o : Order) (newStatus : OrderStatus) : bool :=
  range_allowed (map_index transitions (Status o)) newStatus.

(* ================================================================== *)
(** * The world the program runs in                                    *)
(* ================================================================== *)

(** The two tables of the PostgreSQL database, rows in storage order, and
    the sequence behind [outbox_events.id]. Column types ([decimal(20,8)],
    [size:64], timestamp precision) are not modelled: a row is stored as
    the struct holds it. *)
Record DB := mkDB {
  orders        : list Order;
  outbox_events : list OutboxEvent;
  outbox_seq    : N
}.

(** Calls on the collaborators, recorded with their outcome ([ok = true]
    when the call returned a nil error). [DbSaveOrder t row] records that
    the row [row] was written to [orders] at time [t]. *)
Inductive Call :=
| CallExecuteTrade (o : Order) (ok : bool)
| CallPublishOrderEvent (o : Order) (ok : bool)
| CallPublishGenericEvent (topic key : string) (e : OutboxEvent) (ok : bool)
| DbSaveOrder (t : Time) (row : Order).

Record World := mkWorld {
  db     : DB;
  clock  : Time;          (* the next value of [time.Now()] *)
  trace  : list Call;     (* oldest call first *)
  errlog : list string    (* messages of [logger.Error], oldest first *)
}.

(** Statements sent to the store. *)
Inductive DbOp :=
| OpCreateOrder (o : Order)
| OpGetOrder (id : string)
| OpSaveOrder (o : Order)
| OpCreateOutboxEvent (e : OutboxEvent)
| OpGetUnprocessed (limit : Z)
| OpMarkProcessed (id : N).

(** What the collaborators answer during one request, one worker job or
    one relay cycle: whether the store executes a statement (connection
    loss, constraint of a column type, ...), whether the exchange accepts
    a trade, whether the broker accepts a message. *)
Record Env := mkEnv {
  db_ok            : DbOp -> bool;
  exchange_ok      : Order -> bool;
  publish_order_ok : Order -> bool;
  publish_event_ok : OutboxEvent -> bool
}.

(** Go's [error]: [None] is [nil]. *)
Definition error := option string.

Definition is_nil (e : error) : bool :=
  match e with None => true | Some _ => false end.

(** [fmt.Errorf(msg + ": %w", err)] *)
Definition Errorf (msg : string) (err : error) : error :=
  match err with
  | Some inner => Some (msg ++ ": " ++ inner)
  | None => Some (msg ++ ": %!w(<nil>)")
  end.

Definition error_text (err : error) : string :=
  match err with Some s => s | None => "<nil>" end.

(** [fmt.Errorf(msg + ": %w (original: %v)", err, original)] *)
Definition Errorf_original (msg : string) (err original : error) : error :=
  Some (msg ++ ": " ++ error_text err
            ++ " (original: " ++ error_text original ++ ")").

(** State passing over [World]. *)
Definition M (A : Type) : Type := World -> A * World.

Definition ret {A} (a : A) : M A := fun w => (a, w).

Definition bind {A B} (m : M A) (k : A -> M B) : M B :=
  fun w => let (a, w') := m w in k a w'.

Declare Scope go_scope.
Delimit Scope go_scope with go.
Notation "x <- m ;; k" := (bind m (fun x => k))
  (at level 61, m at next level, right associativity) : go_scope.
Notation "m ;;; k" := (bind m (fun _ => k))
  (at level 61, right associativity) : go_scope.
Local Open Scope go_scope.

Definition get_db : M DB := fun w => (db w, w).

Definition put_db (d : DB) : M unit :=
  fun w => (tt, mkWorld d (clock w) (trace w) (errlog w)).

(** [time.Now()]: time never stands still between two readings. *)
Definition time_Now : M Time :=
  fun w => (clock w, mkWorld (db w) (clock w + 1) (trace w) (errlog w)).

Definition record (c : Call) : M unit :=
  fun w => (tt, mkWorld (db w) (clock w) (trace w ++ [c]) (errlog w)).

(** [logger.Error(msg, zap.Error(err))] *)
Definition logger_Error (msg : string) (err : error) : M unit :=
  fun w => (tt, mkWorld (db w) (clock w) (trace w)
                        (errlog w ++ [match Errorf msg err with
                                      | Some s => s | None => msg end])).

(* ================================================================== *)
(** * Package [persistence] (postgres.go) over gorm                    *)
(* ================================================================== *)

Definition ErrStorage : error := Some "storage error".
Definition ErrDuplicatedKey : error := Some "duplicated key not allowed".
Definition ErrRecordNotFound : error := Some "record not found".

Definition has_order (id : string) (rows : list Order) : bool :=
  existsb (fun r => String.eqb (ID r) id) rows.

Definition has_event (id : N) (rows : list OutboxEvent) : bool :=
  existsb (fun r => N.eqb (EventID r) id) rows.

(** gorm tracks the fields named [CreatedAt] and [UpdatedAt]: on [Create]
    a zero value of either is set to the current time. The program relies
    on it: [SubmitOrder] leaves [CreatedAt] of the event at its zero value
    and the relay orders its fetch by that column. *)
Definition autoCreateTime (now t : Time) : Time :=
  if Z.eqb t zeroTime then now else t.

(** [db.Create(order)]: an INSERT; [id] is the primary key. The struct
    behind the pointer is returned with the fields gorm has filled in. *)
Definition gorm_Create_Order (env : Env) (o : Order) : M (Order * error) :=
  now <- time_Now ;;
  let o' := set_UpdatedAt (set_CreatedAt o (autoCreateTime now (CreatedAt o)))
                          (autoCreateTime now (UpdatedAt o)) in
  d <- get_db ;;
  if negb (db_ok env (OpCreateOrder o)) then ret (o', ErrStorage)
  else if has_order (ID o') (orders d) then ret (o', ErrDuplicatedKey)
  else
    put_db (mkDB (orders d ++ [o']) (outbox_events d) (outbox_seq d)) ;;;
    ret (o', None).

(** [func (r *PostgresRepository) CreateOrder] *)
Definition CreateOrder (env : Env) (order : Order) : M (Order * error) :=
  gorm_Create_Order env order.

(** [func (r *PostgresRepository) GetOrder], [db.First(&order, "id = ?", id)]:
    [inl order] for [(&order, nil)], [inr err] for [(nil, err)]. *)
Definition GetOrder (env : Env) (id : string) : M (Order + error) :=
  d <- get_db ;;
  if negb (db_ok env (OpGetOrder id)) then ret (inr ErrStorage)
  else match find (fun r => String.eqb (ID r) id) (orders d) with
       | Some o => ret (inl o)
       | None => ret (inr ErrRecordNotFound)
       end.

(** UPDATE orders SET ... WHERE id = [ID o]. *)
Definition update_rows (o : Order) (rows : list Order) : list Order :=
  map (fun r => if String.eqb (ID r) (ID o) then o else r) rows.

(** [db.Save(order)]: gorm sets the tracked [UpdatedAt] to the current
    time, in the struct and in the statement, whatever the caller left in
    the field. A zero primary key makes [Save] an INSERT; otherwise it is
    an UPDATE of all fields, followed by an INSERT when no row matched. *)
Definition gorm_Save_Order (env : Env) (o : Order) : M (Order * error) :=
  if nonempty (ID o) then
    now <- time_Now ;;
    let o' := set_UpdatedAt o now in
    d <- get_db ;;
    if negb (db_ok env (OpSaveOrder o)) then ret (o', ErrStorage)
    else
      put_db (mkDB (if has_order (ID o') (orders d)
                    then update_rows o' (orders d)
                    else orders d ++ [o'])
                   (outbox_events d) (outbox_seq d)) ;;;
      record (DbSaveOrder now o') ;;;
      ret (o', None)
  else gorm_Create_Order env o.

(** [func (r *PostgresRepository) UpdateOrder] *)
Definition UpdateOrder (env : Env) (order : Order) : M (Order * error) :=
  gorm_Save_Order env order.

Definition set_EventID (e : OutboxEvent) (id : N) : OutboxEvent :=
  mkOutboxEvent id (Aggregate e) (AggregateID e) (EventType e) (Payload e)
                (Processed e) (EventCreatedAt e) (ProcessedAt e).

Definition set_EventCreatedAt (e : OutboxEvent) (t : Time) : OutboxEvent :=
  mkOutboxEvent (EventID e) (Aggregate e) (AggregateID e) (EventType e)
                (Payload e) (Processed e) t (ProcessedAt e).

(** [db.Create(event)]: a zero [ID] is drawn from the sequence
    ([autoIncrement]), a zero [CreatedAt] is set to the current time. *)
Definition gorm_Create_OutboxEvent (env : Env) (e : OutboxEvent) : M error :=
  now <- time_Now ;;
  d <- get_db ;;
  if negb (db_ok env (OpCreateOutboxEvent e)) then ret ErrStorage
  else
    let fresh := N.eqb (EventID e) 0 in
    let seq := if fresh then N.succ (outbox_seq d) else outbox_seq d in
    let id := if fresh then seq else EventID e in
    let e' := set_EventCreatedAt (set_EventID e id)
                                 (autoCreateTime now (EventCreatedAt e)) in
    if has_event id (outbox_events d)
    then put_db (mkDB (orders d) (outbox_events d) seq) ;;; ret ErrDuplicatedKey
    else put_db (mkDB (orders d) (outbox_events d ++ [e']) seq) ;;; ret None.

(** [func (r *PostgresRepository) CreateOutboxEvent] *)
Definition CreateOutboxEvent (env : Env) (event : OutboxEvent) : M error :=
  gorm_Create_OutboxEvent env event.

(** ORDER BY created_at ASC, by insertion; rows with equal [created_at]
    keep their storage order. *)
Fixpoint insert_by_created_at (e : OutboxEvent) (l : list OutboxEvent)
    : list OutboxEvent :=
  match l with
  | [] => [e]
  | x :: l' => if Z.leb (EventCreatedAt e) (EventCreatedAt x)
               then e :: x :: l'
               else x :: insert_by_created_at e l'
  end.

Definition order_by_created_at_asc (l : list OutboxEvent) : list OutboxEvent :=
  fold_right insert_by_created_at [] l.

(** [.Limit(limit)]: a negative limit lifts the bound. *)
Definition sql_limit {A} (limit : Z) (rows : list A) : list A :=
  if Z.ltb limit 0 then rows else firstn (Z.to_nat limit) rows.

Definition unprocessed (e : OutboxEvent) : bool := negb (Processed e).

(** [func (r *PostgresRepository) GetUnprocessedOutboxEvents]:
    [Where("processed = ?", false).Order("created_at ASC").Limit(limit)] *)
Definition GetUnprocessedOutboxEvents (env : Env) (limit : Z)
    : M (list OutboxEvent * error) :=
  d <- get_db ;;
  if negb (db_ok env (OpGetUnprocessed limit)) then ret ([], ErrStorage)
  else ret (sql_limit limit
              (order_by_created_at_asc (filter unprocessed (outbox_events d))),
            None).

Definition mark_processed (now : Time) (e : OutboxEvent) : OutboxEvent :=
  mkOutboxEvent (EventID e) (Aggregate e) (AggregateID e) (EventType e)
                (Payload e) true (EventCreatedAt e) (Some now).

(** UPDATE outbox_events SET processed = true, processed_at = [now]
    WHERE id = [id]. *)
Definition mark_rows (id : N) (now : Time) (rows : list OutboxEvent)
    : list OutboxEvent :=
  map (fun r => if N.eqb (EventID r) id then mark_processed now r else r) rows.

(** [func (r *PostgresRepository) MarkOutboxEventProcessed] *)
Definition MarkOutboxEventProcessed (env : Env) (id : N) : M error :=
  now <- time_Now ;;
  d <- get_db ;;
  if negb (db_ok env (OpMarkProcessed id)) then ret ErrStorage
  else
    put_db (mkDB (orders d) (mark_rows id now (outbox_events d))
                 (outbox_seq d)) ;;;
    ret None.

(* ================================================================== *)
(** * Package [messaging] (kafka_pool.go) and the exchange interface   *)
(* ================================================================== *)

(** [func (kp *KafkaPool) PublishOrderEvent]: marshal, stamp the message
    with [time.Now()], [WriteMessages]. *)
Definition PublishOrderEvent (env : Env) (event : Order) : M error :=
  _ <- time_Now ;;
  let ok := publish_order_ok env event in
  record (CallPublishOrderEvent event ok) ;;;
  ret (if ok then None else Some "failed to publish order event").

(** [func (kp *KafkaPool) PublishGenericEvent] *)
Definition PublishGenericEvent (env : Env) (topic key : string)
    (value : OutboxEvent) : M error :=
  _ <- time_Now ;;
  let ok := publish_event_ok env value in
  record (CallPublishGenericEvent topic key value ok) ;;;
  ret (if ok then None else Some "failed to publish event").

(** [exchange.BinanceClient.ExecuteTrade], an interface call. *)
Definition ExecuteTrade (env : Env) (order : Order) : M error :=
  let ok := exchange_ok env order in
  record (CallExecuteTrade order ok) ;;;
  ret (if ok then None else Some "binance API error").

(* ================================================================== *)
(** * Package [application] (orchestrator.go)                          *)
(* ================================================================== *)

(** A call either returns or panics. *)
Inductive outcome (A : Type) :=
| Returned (a : A)
| Panicked (msg : string).
Arguments Returned {A} a.
Arguments Panicked {A} msg.

Section Application.

(** [json.Marshal] on an order: [None] when it returns an error (a NaN or
    an infinity among the floats). *)
Variable json_Marshal : Order -> option string.

(** [func (to *TradingOrchestrator) SubmitOrder]. The order is returned
    as the pointer's target is left by the call. *)
Definition SubmitOrder (env : Env) (order : Order)
    : M (outcome (Order * error)) :=
  (* Create order in database *)
  r <- CreateOrder env order ;;
  let (order, err) := r in
  if negb (is_nil err)
  then ret (Returned (order, Errorf "failed to create order" err))
  else
    (* Create outbox event *)
    match json_Marshal order with
    | None => ret (Panicked "failed to marshal")          (* mustMarshal *)
    | Some payload =>
      let event := {| EventID := 0%N;
                      Aggregate := "Order";
                      AggregateID := ID order;
                      EventType := "OrderSubmitted";
                      Payload := payload;
                      Processed := false;
                      EventCreatedAt := zeroTime;
                      ProcessedAt := None |} in
      err <- CreateOutboxEvent env event ;;
      if negb (is_nil err)
      then ret (Returned (order, Errorf "failed to create outbox event" err))
      else ret (Returned (order, None))
    end.

(** [func (to *TradingOrchestrator) ProcessOrder] *)
Definition ProcessOrder (env : Env) (orderID : string) : M error :=
  r <- GetOrder env orderID ;;
  match r with
  | inr err => ret (Errorf "failed to get order" err)
  | inl order =>
    if negb (CanTransitionTo order StatusExecuting)
    then ret (Some ("order cannot transition to EXECUTING from "
                    ++ Status order))
    else
      (* Update status to EXECUTING *)
      let order := set_Status order StatusExecuting in
      r <- UpdateOrder env order ;;
      let (order, err) := r in
      if negb (is_nil err)
      then ret (Errorf "failed to update order status" err)
      else
        (* Execute trade on exchange *)
        err <- ExecuteTrade env order ;;
        if negb (is_nil err) then
          let order := set_Status order StatusFailed in
          now <- time_Now ;;
          let order := set_UpdatedAt order now in
          r <- UpdateOrder env order ;;
          let (order, updateErr) := r in
          if negb (is_nil updateErr)
          then ret (Errorf_original "trade failed and update failed"
                                    updateErr err)
          else ret (Errorf "trade execution failed" err)
        else
          (* Update status to COMPLETED *)
          let order := set_Status order StatusCompleted in
          now <- time_Now ;;
          let order := set_UpdatedAt order now in
          r <- UpdateOrder env order ;;
          let (order, err) := r in
          if negb (is_nil err)
          then ret (Errorf "failed to update order status" err)
          else
            (* Publish completion event *)
            err <- PublishOrderEvent env order ;;
            (if negb (is_nil err)
             then logger_Error "Failed to publish order completion event" err
             else ret tt) ;;;
            ret None
  end.

(** One iteration of a worker of [StartWorkerPool]:
    [case order := <-orderChan]. *)
Definition worker_job (env : Env) (order : Order) : M unit :=
  err <- ProcessOrder env (ID order) ;;
  if negb (is_nil err) then logger_Error "Failed to process order" err
  else ret tt.

(** A worker receiving the given orders, then [<-to.ctx.Done()]. *)
Fixpoint worker (jobs : list (Env * Order)) : M unit :=
  match jobs with
  | [] => ret tt
  | (env, order) :: rest => worker_job env order ;;; worker rest
  end.

(** The body of [for _, event := range events] in [StartOutboxRelay]. *)
Definition relay_event (env : Env) (event : OutboxEvent) : M unit :=
  err <- PublishGenericEvent env "nexus.events" (AggregateID event) event ;;
  if negb (is_nil err)
  then logger_Error "Failed to publish event" err          (* continue *)
  else
    err <- MarkOutboxEventProcessed env (EventID event) ;;
    if negb (is_nil err)
    then logger_Error "Failed to mark event as processed" err
    else ret tt.

Fixpoint relay_range (env : Env) (events : list OutboxEvent) : M unit :=
  match events with
  | [] => ret tt
  | event :: rest => relay_event env event ;;; relay_range env rest
  end.

(** One relay cycle, [case <-ticker.C]. *)
Definition relay_cycle (env : Env) : M unit :=
  r <- GetUnprocessedOutboxEvents env 100 ;;
  let (events, err) := r in
  if negb (is_nil err)
  then logger_Error "Failed to get unprocessed events" err   (* continue *)
  else relay_range env events.

(** [StartOutboxRelay]: one cycle per tick, until [<-to.ctx.Done()]. *)
Fixpoint StartOutboxRelay (ticks : list Env) : M unit :=
  match ticks with
  | [] => ret tt
  | env :: rest => relay_cycle env ;;; StartOutboxRelay rest
  end.

(* ================================================================== *)
(** * Package [http] (server.go)                                       *)
(* ================================================================== *)

(** The anonymous request struct of [createOrder]. *)
Record CreateOrderRequest := mkCreateOrderRequest {
  req_ID       : string;
  req_Symbol   : string;
  req_Side     : string;
  req_Type     : string;
  req_Quantity : float64;
  req_Price    : float64
}.

Inductive ResponseBody :=
| BodyError (msg : string)        (* map[string]string{"error": msg} *)
| BodyMessage (msg : string)      (* echo's own {"message": msg} *)
| BodyOrder (o : Order).

Record Response := mkResponse {
  StatusCode : Z;
  Body       : ResponseBody
}.

Definition StatusAccepted            : Z := 202.
Definition StatusBadRequest          : Z := 400.
Definition StatusInternalServerError : Z := 500.

(** [func (s *HTTPServer) createOrder]; [bound] is what [c.Bind(&req)]
    made of the request, [None] when it returned an error. A panic of the
    handler is answered by [middleware.Recover]. *)
Definition createOrder (env : Env) (bound : option CreateOrderRequest)
    : M Response :=
  match bound with
  | None => ret (mkResponse StatusBadRequest (BodyError "Invalid request body"))
  | Some req =>
    now <- time_Now ;;
    let order := NewOrder now (req_ID req) (req_Symbol req) (req_Side req)
                          (req_Type req) (req_Quantity req) (req_Price req) in
    if negb (IsValid order)
    then ret (mkResponse StatusBadRequest (BodyError "Invalid order data"))
    else
      r <- SubmitOrder env order ;;
      match r with
      | Panicked _ =>
        ret (mkResponse StatusInternalServerError
                        (BodyMessage "Internal Server Error"))
      | Returned (order, err) =>
        if negb (is_nil err) then
          logger_Error "Failed to submit order" err ;;;
          ret (mkResponse StatusInternalServerError
                          (BodyError "Failed to submit order"))
        else ret (mkResponse StatusAccepted (BodyOrder order))
      end
  end.

(* ================================================================== *)
(** * The running system                                               *)
(* ================================================================== *)

(** The store, the collaborators and the relay goroutine's position:
    [relay_batch] holds the rows of the current cycle that the [range]
    loop has not visited yet; it is empty while the relay waits for its
    ticker. *)
Record System := mkSystem {
  world       : World;
  relay_batch : list OutboxEvent
}.

(** What can happen next: a request on POST /api/v1/orders, a worker
    taking an order off the queue, the relay's ticker firing, the relay
    visiting the next row of its batch. Each comes with the answers of the
    collaborators. A request and a worker job are one step each; the
    relay's cycle is one step per fetch and per row, so that requests and
    jobs fall between any two of its rows. *)
Inductive Action :=
| ActCreateOrder (env : Env) (bound : option CreateOrderRequest)
| ActProcessOrder (env : Env) (order : Order)
| ActRelayFetch (env : Env)
| ActRelayEvent (env : Env).

Definition exec (a : Action) (s : System) : System :=
  match a with
  | ActCreateOrder env bound =>
      mkSystem (snd (createOrder env bound (world s))) (relay_batch s)
  | ActProcessOrder env order =>
      mkSystem (snd (worker_job env order (world s))) (relay_batch s)
  | ActRelayFetch env =>
      match relay_batch s with
      | _ :: _ => s                              (* the cycle is not over *)
      | [] =>
        let (r, w) := GetUnprocessedOutboxEvents env 100 (world s) in
        let (events, err) := r in
        if negb (is_nil err)
        then mkSystem
               (snd (logger_Error "Failed to get unprocessed events" err w)) []
        else mkSystem w events
      end
  | ActRelayEvent env =>
      match relay_batch s with
      | [] => s
      | event :: rest => mkSystem (snd (relay_event env event (world s))) rest
      end
  end.

Definition run (acts : list Action) (s : System) : System :=
  fold_left (fun s a => exec a s) acts s.

(** The empty database at process start. *)
Definition initial_world : World :=
  mkWorld (mkDB [] [] 0%N) 1 [] [].

Definition initial : System := mkSystem initial_world [].

Definition reachable (s : System) : Prop :=
  exists acts, s = run acts initial.

End Application.

(* ================================================================== *)
(** * Sample data                                                      *)
(* ================================================================== *)

(** 0.001 as a binary64 number. *)
Definition f64_0_001 : float64 := S754_finite false 4611686018427388 (-62).

(** A stand-in for [json.Marshal]: it fails exactly where the real one
    does on an order. *)
Definition finite_f64 (x : float64) : bool :=
  match x with
  | S754_nan | S754_infinity _ => false
  | _ => true
  end.

Definition sample_Marshal (o : Order) : option string :=
  if finite_f64 (Quantity o) && finite_f64 (Price o)
  then Some ("order " ++ ID o ++ " " ++ Symbol o ++ " " ++ Status o)
  else None.

(** All collaborators answer. *)
Definition env_ok : Env :=
  mkEnv (fun _ => true) (fun _ => true) (fun _ => true) (fun _ => true).

(** The store fails the INSERT into [outbox_events] only. *)
Definition env_outbox_insert_fails : Env :=
  mkEnv (fun op => match op with OpCreateOutboxEvent _ => false | _ => true end)
        (fun _ => true) (fun _ => true) (fun _ => true).

(** The exchange rejects every trade. *)
Definition env_exchange_down : Env :=
  mkEnv (fun _ => true) (fun _ => false) (fun _ => true) (fun _ => true).

(** The scenario order of the specification:
    [{id:"O1", symbol:"BTCUSDT", side:BUY, type:MARKET, quantity:0.001}]. *)
Definition req_O1 : CreateOrderRequest :=
  mkCreateOrderRequest "O1" "BTCUSDT" SideBuy TypeMarket f64_0_001 f64_zero.

Definition order_O1 : Order :=
  NewOrder 1 "O1" "BTCUSDT" SideBuy TypeMarket f64_0_001 f64_zero.

(** A LIMIT order without a price. *)
Definition req_limit_no_price : CreateOrderRequest :=
  mkCreateOrderRequest "L1" "BTCUSDT" SideBuy TypeLimit f64_0_001 f64_zero.

(** A request without an id. *)
Definition req_no_id : CreateOrderRequest :=
  mkCreateOrderRequest "" "BTCUSDT" SideBuy TypeMarket f64_0_001 f64_zero.

(** An order row whose status column holds none of the four constants. *)
Definition order_blank_status : Order :=
  set_Status order_O1 "".

(** The store after the request [req_O1] was accepted. *)
Definition world_O1_pending : World :=
  snd (createOrder sample_Marshal env_ok (Some req_O1) initial_world).

(** Rows of [outbox_events] for the relay. *)
Definition sample_event (id : N) (aggregate_id : string) (t : Time)
    : OutboxEvent :=
  mkOutboxEvent id "Order" aggregate_id "OrderSubmitted"
                ("order " ++ aggregate_id) false t None.

Definition ev_t1 : OutboxEvent := sample_event 2 "O2" 10.
Definition ev_t2 : OutboxEvent := sample_event 3 "O3" 20.
Definition ev_t3 : OutboxEvent := sample_event 1 "O1" 30.
Definition ev_done : OutboxEvent := mark_processed 6 (sample_event 4 "O0" 5).

(** Three unprocessed rows stored youngest first, around a processed one. *)
Definition world_three_rows : World :=
  mkWorld (mkDB [] [ev_t3; ev_done; ev_t1; ev_t2] 4) 40 [] [].

(** The broker refuses the event with the given id and accepts the rest. *)
Definition env_publish_fails (id : N) : Env :=
  mkEnv (fun _ => true) (fun _ => true) (fun _ => true)
        (fun e => negb (N.eqb (EventID e) id)).

(* ================================================================== *)
(** * Vocabulary of the properties                                     *)
(* ================================================================== *)

Local Open Scope list_scope.

(** Rows compared by [created_at]. *)
Definition created_le (a b : OutboxEvent) : Prop :=
  EventCreatedAt a <= EventCreatedAt b.

Definition created_lt (a b : OutboxEvent) : Prop :=
  EventCreatedAt a < EventCreatedAt b.

(** The rows one cycle fetches from a table. *)
Definition relay_fetch (limit : Z) (rows : list OutboxEvent)
    : list OutboxEvent :=
  sql_limit limit (order_by_created_at_asc (filter unprocessed rows)).

(** The call of [PublishGenericEvent] the relay makes for a row. *)
Definition publish_call (env : Env) (e : OutboxEvent) : Call :=
  CallPublishGenericEvent "nexus.events" (AggregateID e) e
                          (publish_event_ok env e).

(** The row was handed to the publisher and the call returned nil. *)
Definition delivered (tr : list Call) (e : OutboxEvent) : Prop :=
  In (CallPublishGenericEvent "nexus.events" (AggregateID e) e true) tr.

(** What holds of the relay in every state of the system. *)
Definition relay_inv (s : System) : Prop :=
  let rows := outbox_events (db (world s)) in
  NoDup (map EventID rows) /\
  NoDup (map EventID (relay_batch s)) /\
  (forall e, In e (relay_batch s) -> In e rows) /\
  (forall r, In r rows -> Processed r = true ->
             exists e t, delivered (trace (world s)) e /\
                         r = mark_processed t e).

(** The world after a successful UPDATE of an order row. *)
Definition saved (o : Order) (w : World) : World :=
  mkWorld (mkDB (update_rows (set_UpdatedAt o (clock w)) (orders (db w)))
                (outbox_events (db w)) (outbox_seq (db w)))
          (clock w + 1)
          (trace w ++ [DbSaveOrder (clock w) (set_UpdatedAt o (clock w))])
          (errlog w).

(** Proof steps shared by the lemmas below: unfolding of the
    state-passing combinators, case analysis on every test of the code,
    and the new part of a trace. *)
Ltac run_go :=
  unfold bind, ret, get_db, put_db, time_Now, record, logger_Error; cbn.

Ltac split_ifs :=
  repeat match goal with
         | |- context [if ?b then _ else _] => destruct b eqn:?; cbn
         | |- context [match ?x with Some _ => _ | None => _ end] =>
             destruct x eqn:?; cbn
         end.

Ltac new_trace :=
  rewrite <- ?app_assoc;
  first [ eexists; split; [reflexivity|]
        | exists []; split; [rewrite app_nil_r; reflexivity|] ];
  let t := fresh "t" in
  let row := fresh "row" in
  let Hin := fresh "Hin" in
  intros t row Hin; cbn in Hin;
  repeat (destruct Hin as [Hin|Hin]; try discriminate);
  try contradiction;
  inversion Hin; subst; cbn; lia.

(* ================================================================== *)
(** * More of the program                                              *)
(* ================================================================== *)

(** ** Package [config] (config.go) *)

(** [string(rune(r))] for a code point below 128: one byte. The helper
    [itoa] applies it to code points between 39 and 57 only. *)
Definition string_of_rune (r : Z) : string :=
  String (Ascii.ascii_of_N (Z.to_N r)) EmptyString.

(** [func itoa(i int) string]; Go's [/] and [%] truncate towards zero. *)
Definition itoa (i : Z) : string :=
  (string_of_rune (48 + Z.rem (Z.quot i 1000) 10)
   ++ string_of_rune (48 + Z.rem (Z.quot i 100) 10)
   ++ string_of_rune (48 + Z.rem (Z.quot i 10) 10)
   ++ string_of_rune (48 + Z.rem i 10))%string.

Record DatabaseConfig := mkDatabaseConfig {
  Host         : string;
  Port         : Z;
  Username     : string;
  Password     : string;
  Name         : string;
  MaxOpenConns : Z;
  MaxIdleConns : Z;
  SSLMode      : string
}.

(** [func (d *DatabaseConfig) DSN() string] *)
Definition DSN (d : DatabaseConfig) : string :=
  ("host=" ++ Host d
   ++ " port=" ++ itoa (Port d)
   ++ " user=" ++ Username d
   ++ " password=" ++ Password d
   ++ " dbname=" ++ Name d
   ++ " sslmode=" ++ SSLMode d)%string.

Record OutboxConfig := mkOutboxConfig {
  PollIntervalMs : Z;
  BatchSize      : Z
}.

(** Arithmetic of [int64]: the result modulo 2^64, read as signed. *)
Definition wrap_int64 (z : Z) : Z :=
  (z + 9223372036854775808) mod 18446744073709551616 - 9223372036854775808.

(** [time.Millisecond], in nanoseconds. *)
Definition Millisecond : Z := 1000000.

(** [func (o *OutboxConfig) PollInterval() time.Duration], in
    nanoseconds. *)
Definition PollInterval (o : OutboxConfig) : Z :=
  wrap_int64 (PollIntervalMs o * Millisecond).

(** [strings.HasPrefix] and [strings.HasSuffix]. *)
Definition HasPrefix (s prefix : string) : bool := String.prefix prefix s.

Definition HasSuffix (s suffix : string) : bool :=
  (String.length suffix <=? String.length s)%nat
  && String.eqb (substring (String.length s - String.length suffix)
                           (String.length suffix) s) suffix.

Section Environ.

(** [os.Getenv]. *)
Variable os_Getenv : string -> string.

(** [func expandEnvVar(value string) string]; the slice
    [value[2 : len(value)-1]] starts at byte 2 and has
    [len(value) - 3] bytes. *)
Definition expandEnvVar (value : string) : string :=
  if HasPrefix value "${" && HasSuffix value "}"
  then os_Getenv (substring 2 (String.length value - 1 - 2) value)
  else value.

End Environ.

(** ** Package [persistence]: [ListOrders] *)

(** ORDER BY created_at DESC, by insertion; rows with equal [created_at]
    keep their storage order. *)
Fixpoint insert_by_created_at_desc (o : Order) (l : list Order) : list Order :=
  match l with
  | [] => [o]
  | x :: l' => if Z.leb (CreatedAt x) (CreatedAt o)
               then o :: x :: l'
               else x :: insert_by_created_at_desc o l'
  end.

Definition order_by_created_at_desc (l : list Order) : list Order :=
  fold_right insert_by_created_at_desc [] l.

(** [func (r *PostgresRepository) ListOrders]: the WHERE clause is added
    for a non-empty status, the LIMIT clause for a positive limit. [ok]
    tells whether the store executes the query. *)
Definition ListOrders (ok : bool) (status : OrderStatus) (limit : Z)
    : M (list Order * error) :=
  d <- get_db ;;
  let rows := orders d in
  let rows := if nonempty status
              then filter (fun r => String.eqb (Status r) status) rows
              else rows in
  let rows := order_by_created_at_desc rows in
  let rows := if Z.ltb 0 limit then firstn (Z.to_nat limit) rows else rows in
  if ok then ret (rows, None) else ret ([], ErrStorage).

(** ** Package [http]: [getOrder] and [listOrders] *)

Definition StatusOK       : Z := 200.
Definition StatusNotFound : Z := 404.

(** [func (s *HTTPServer) getOrder]; [orderID] is [c.Param("id")]. *)
Definition getOrder (env : Env) (orderID : string) : M Response :=
  r <- GetOrder env orderID ;;
  match r with
  | inr _ => ret (mkResponse StatusNotFound (BodyError "Order not found"))
  | inl order => ret (mkResponse StatusOK (BodyOrder order))
  end.

Inductive ListBody :=
| ListError (msg : string)
| ListOfOrders (l : list Order).

Record ListResponse := mkListResponse {
  ListStatusCode : Z;
  ListResult     : ListBody
}.

(** [func (s *HTTPServer) listOrders]; [status] is
    [c.QueryParam("status")], the limit is the constant 50. *)
Definition listOrders (ok : bool) (status : string) : M ListResponse :=
  r <- ListOrders ok status 50 ;;
  let (rows, err) := r in
  if negb (is_nil err) then
    logger_Error "Failed to list orders" err ;;;
    ret (mkListResponse StatusInternalServerError
                        (ListError "Failed to list orders"))
  else ret (mkListResponse StatusOK (ListOfOrders rows)).

(** ** [cmd/order-manager/main.go]: the handler that feeds the workers *)

(** The goroutine of a request has answered, or waits at
    [orderChan <- order] because the channel is full. *)
Inductive handler_result :=
| Responded (r : Response)
| BlockedOnSend (order : Order).

(** [make(chan *domain.Order, 100)] *)
Definition orderChan_capacity : nat := 100.

Section Main.

Variable json_Marshal : Order -> option string.

(** The handler of POST /api/v1/orders of the first [main]: the steps of
    [createOrder], then the order is sent to the worker pool. [queue] is
    the content of [orderChan], oldest first. *)
Definition postOrders (env : Env) (bound : option CreateOrderRequest)
    (queue : list Order) : M (handler_result * list Order) :=
  match bound with
  | None =>
    ret (Responded (mkResponse StatusBadRequest
                               (BodyError "Invalid request body")), queue)
  | Some req =>
    now <- time_Now ;;
    let order := NewOrder now (req_ID req) (req_Symbol req) (req_Side req)
                          (req_Type req) (req_Quantity req) (req_Price req) in
    if negb (IsValid order)
    then ret (Responded (mkResponse StatusBadRequest
                                    (BodyError "Invalid order data")), queue)
    else
      r <- SubmitOrder json_Marshal env order ;;
      match r with
      | Panicked _ =>
        ret (Responded (mkResponse StatusInternalServerError
                                   (BodyMessage "Internal Server Error")),
             queue)
      | Returned (order, err) =>
        if negb (is_nil err) then
          logger_Error "Failed to submit order" err ;;;
          ret (Responded (mkResponse StatusInternalServerError
                                     (BodyError "Failed to submit order")),
               queue)
        else
          (* Send to worker pool for processing *)
          if (length queue <? orderChan_capacity)%nat
          then ret (Responded (mkResponse StatusAccepted (BodyOrder order)),
                    queue ++ [order])
          else ret (BlockedOnSend order, queue)
      end
  end.

End Main.

(** [orchestrator.StartOutboxRelay(cfg.Outbox.PollInterval())] in
    [main]: of the outbox settings the relay is given the poll interval,
    the period of its ticker, and nothing else. [ticks] are the firings
    of that ticker. *)
Definition main_StartOutboxRelay (cfg : OutboxConfig) (ticks : list Env)
    : M unit :=
  let interval := PollInterval cfg in
  StartOutboxRelay ticks.

(** [outbox: {poll_interval_ms: 500, batch_size: 2}] *)
Definition config_batch_of_two : OutboxConfig := mkOutboxConfig 500 2.

(** ** Vocabulary of the further properties *)

(** The calls of the exchange for the order [id], among the calls of a
    trace. *)
Definition exchange_calls (id : string) (tr : list Call) : list Call :=
  filter (fun c => match c with
                   | CallExecuteTrade o _ => String.eqb (ID o) id
                   | _ => false
                   end) tr.

(** The four statuses the program writes. *)
Definition known_status (s : OrderStatus) : Prop :=
  s = StatusPending \/ s = StatusExecuting \/
  s = StatusCompleted \/ s = StatusFailed.

(** [o'] is [o] with another status and another [UpdatedAt]. *)
Definition same_order_but_status (o o' : Order) : Prop :=
  ID o' = ID o /\ Symbol o' = Symbol o /\ Side o' = Side o /\
  Type_ o' = Type_ o /\ Quantity o' = Quantity o /\ Price o' = Price o /\
  CreatedAt o' = CreatedAt o.

(** A chain of statuses in which every step is allowed by
    [CanTransitionTo]. *)
Fixpoint allowed_chain (o : Order) (statuses : list OrderStatus) : Prop :=
  match statuses with
  | [] => True
  | s :: rest => CanTransitionTo o s = true /\ allowed_chain (set_Status o s) rest
  end.

(** The decimal digit [d] in front of the digits [u]. *)
Definition decimal_digit (d : Z) (u : Decimal.uint) : Decimal.uint :=
  match d with
  | 0 => Decimal.D0 u | 1 => Decimal.D1 u | 2 => Decimal.D2 u
  | 3 => Decimal.D3 u | 4 => Decimal.D4 u | 5 => Decimal.D5 u
  | 6 => Decimal.D6 u | 7 => Decimal.D7 u | 8 => Decimal.D8 u
  | _ => Decimal.D9 u
  end.

(** Case analysis on a decimal digit. *)
Ltac each_digit d H :=
  assert (d = 0 \/ d = 1 \/ d = 2 \/ d = 3 \/ d = 4 \/ d = 5 \/ d = 6 \/
          d = 7 \/ d = 8 \/ d = 9) as H by lia;
  repeat (destruct H as [H|H]; [subst d; reflexivity|]); subst d; reflexivity.

(** The store answers until the exchange has been called and refuses
    what follows. *)
Definition env_store_lost_after_trade : Env :=
  mkEnv (fun op => match op with
                   | OpSaveOrder o => String.eqb (Status o) StatusExecuting
                   | _ => true
                   end)
        (fun _ => true) (fun _ => true) (fun _ => true).

(** The broker refuses the completion events. *)
Definition env_broker_down : Env :=
  mkEnv (fun _ => true) (fun _ => true) (fun _ => false) (fun _ => false).

(** The order has a row and it is not PENDING any more. *)
Definition settled (id : string) (w : World) : Prop :=
  exists o, find (fun r => String.eqb (ID r) id) (orders (db w)) = Some o /\
            Status o <> StatusPending.

(** The order as [Create] leaves it: zero timestamps are set. *)
Definition created (now : Time) (o : Order) : Order :=
  set_UpdatedAt (set_CreatedAt o (autoCreateTime now (CreatedAt o)))
                (autoCreateTime now (UpdatedAt o)).

(** The row [SubmitOrder] adds to [outbox_events]. *)
Definition submitted_event (id : N) (o : Order) (payload : string)
    (t : Time) : OutboxEvent :=
  mkOutboxEvent id "Order" (ID o) "OrderSubmitted" payload false t None.

(** An outbox row as the program writes them, against the order ids
    [ids], the sequence value [seq] and the time [now]. *)
Definition event_ok (ids : list string) (seq : N) (now : Time)
    (e : OutboxEvent) : Prop :=
  Aggregate e = "Order"%string /\ EventType e = "OrderSubmitted"%string /\
  In (AggregateID e) ids /\
  (0 < EventID e <= seq)%N /\
  EventCreatedAt e < now.

(** An order row as the program writes them. *)
Definition order_ok (o : Order) : Prop :=
  IsValid o = true /\ known_status (Status o).

(** What holds of the two tables in every state of the system: ids are
    unique, rows are well formed, and each event belongs to a stored
    order of its own. *)
Definition store_inv (w : World) : Prop :=
  NoDup (map ID (orders (db w))) /\
  Forall order_ok (orders (db w)) /\
  Forall (event_ok (map ID (orders (db w))) (outbox_seq (db w)) (clock w))
         (outbox_events (db w)) /\
  NoDup (map AggregateID (outbox_events (db w))).

(** A second request, and the system after both were accepted. *)
Definition req_O2 : CreateOrderRequest :=
  mkCreateOrderRequest "O2" "ETHUSDT" SideSell TypeMarket f64_0_001 f64_zero.

Definition system_two_orders : System :=
  run sample_Marshal [ActCreateOrder env_ok (Some req_O1);
                      ActCreateOrder env_ok (Some req_O2)] initial.

(** The relay's visit of the row goes through: the publish and the
    UPDATE both succeed. *)
Definition relayed (env : Env) (e : OutboxEvent) : bool :=
  publish_event_ok env e && db_ok env (OpMarkProcessed (EventID e)).

(** The visit of a row of [events] with the id of [r] goes through. *)
Definition relayed_in (env : Env) (events : list OutboxEvent)
    (r : OutboxEvent) : bool :=
  existsb (fun e => N.eqb (EventID e) (EventID r) && relayed env e) events.

(** A row before and after a relay cycle that began at [t0]. *)
Definition marked_or_same (t0 : Time) (r r' : OutboxEvent) : Prop :=
  r' = r \/
  (Processed r = false /\ exists t, t0 < t /\ r' = mark_processed t r).


(** Rows compared by [created_at], newest first. *)
Definition newer_first (a b : Order) : Prop := CreatedAt b <= CreatedAt a.

(** The rows the WHERE clause of [ListOrders] keeps. *)
Definition with_status (status : OrderStatus) (rows : list Order)
    : list Order :=
  if nonempty status
  then filter (fun r => String.eqb (Status r) status) rows
  else rows.

(* ================================================================== *)
(** * The order state machine and validation                           *)
(* ================================================================== *)

Lemma CanTransitionTo_iff : forall o target,
    CanTransitionTo o target = true <->
    (Status o = StatusPending /\ target = StatusExecuting) \/
    (Status o = StatusPending /\ target = StatusFailed) \/
    (Status o = StatusExecuting /\ target = StatusCompleted) \/
    (Status o = StatusExecuting /\ target = StatusFailed).
Proof.
  intros o target. unfold CanTransitionTo, transitions. cbn [map_index].
  destruct (String.eqb_spec StatusPending (Status o)) as [Hp|Hp].
  - cbn [range_allowed].
    destruct (String.eqb_spec StatusExecuting target) as [He|He];
      [split; auto|].
    destruct (String.eqb_spec StatusFailed target) as [Hf|Hf];
      [split; auto|].
    split; [discriminate|].
    intros [[_ H]|[[_ H]|[[H _]|[H _]]]]; try congruence;
      rewrite <- Hp in H; discriminate.
  - destruct (String.eqb_spec StatusExecuting (Status o)) as [Hx|Hx].
    + cbn [range_allowed].
      destruct (String.eqb_spec StatusCompleted target) as [Hc|Hc];
        [split; auto|].
      destruct (String.eqb_spec StatusFailed target) as [Hf|Hf];
        [split; auto 6|].
      split; [discriminate|].
      intros [[H _]|[[H _]|[[_ H]|[_ H]]]]; congruence.
    + assert (Hnil : (if String.eqb StatusCompleted (Status o) then []
                      else if String.eqb StatusFailed (Status o) then []
                      else @nil OrderStatus) = []).
      { destruct (String.eqb StatusCompleted (Status o)),
                 (String.eqb StatusFailed (Status o)); reflexivity. }
      rewrite Hnil. cbn [range_allowed].
      split; [discriminate|].
      intros [[H _]|[[H _]|[[H _]|[H _]]]]; congruence.
Qed.

Lemma CanTransitionTo_false_iff : forall o target,
    CanTransitionTo o target = false <->
    ~ ((Status o = StatusPending /\ target = StatusExecuting) \/
       (Status o = StatusPending /\ target = StatusFailed) \/
       (Status o = StatusExecuting /\ target = StatusCompleted) \/
       (Status o = StatusExecuting /\ target = StatusFailed)).
Proof.
  intros o target. rewrite <- CanTransitionTo_iff.
  destruct (CanTransitionTo o target); split; congruence.
Qed.

(** Terminal statuses have no outgoing edge. *)
Lemma CanTransitionTo_terminal : forall o target,
    Status o = StatusCompleted \/ Status o = StatusFailed ->
    CanTransitionTo o target = false.
Proof.
  intros o target H. apply CanTransitionTo_false_iff.
  intros [[E _]|[[E _]|[[E _]|[E _]]]]; destruct H as [H|H];
    rewrite H in E; discriminate.
Qed.

(** C2. [CanTransitionTo] answers [true] exactly on the four edges
    PENDING->EXECUTING, PENDING->FAILED, EXECUTING->COMPLETED and
    EXECUTING->FAILED; in particular it answers [false] on every
    self-transition and on every pair whose current status is COMPLETED or
    FAILED. *)
Theorem CanTransitionTo_four_edges :
  (forall o target,
      CanTransitionTo o target = true <->
      (Status o = StatusPending /\ target = StatusExecuting) \/
      (Status o = StatusPending /\ target = StatusFailed) \/
      (Status o = StatusExecuting /\ target = StatusCompleted) \/
      (Status o = StatusExecuting /\ target = StatusFailed)) /\
  (forall o, CanTransitionTo o (Status o) = false) /\
  (forall o target,
      CanTransitionTo (set_Status o StatusCompleted) target = false /\
      CanTransitionTo (set_Status o StatusFailed) target = false).
Proof.
  split; [exact CanTransitionTo_iff|]. split.
  - intros o. apply CanTransitionTo_false_iff.
    intros [[E1 E2]|[[E1 E2]|[[E1 E2]|[E1 E2]]]];
      rewrite E1 in E2; discriminate.
  - intros o target.
    split; apply CanTransitionTo_terminal; cbn; auto.
Qed.

(** C10. [CanTransitionTo] is a total function on arbitrary status
    strings, and from a current status that is none of the four constants
    (the empty string, an unrecognised value) it allows no transition at
    all, whatever the target. *)
Theorem CanTransitionTo_unknown_status : forall o target,
    Status o <> StatusPending ->
    Status o <> StatusExecuting ->
    Status o <> StatusCompleted ->
    Status o <> StatusFailed ->
    CanTransitionTo o target = false.
Proof.
  intros o target Hp Hx _ _. apply CanTransitionTo_false_iff.
  intros [[E _]|[[E _]|[[E _]|[E _]]]]; contradiction.
Qed.

Lemma CanTransitionTo_unknown_status_witness :
  Status order_blank_status = "" /\
  CanTransitionTo order_blank_status StatusExecuting = false.
Proof.
  split; [reflexivity|].
  apply (CanTransitionTo_unknown_status order_blank_status StatusExecuting);
    cbn; discriminate.
Defined.

(** [q <= 0] excludes [q > 0]. *)
Lemma f64_le_zero_not_gt : forall q,
    SFleb q f64_zero = true -> f64_gt q f64_zero = false.
Proof.
  intros q. unfold f64_gt, SFleb, SFltb, f64_zero.
  destruct q as [s|s| |s m e]; cbn; try destruct s; cbn; congruence.
Qed.

Lemma IsValid_iff : forall o,
    IsValid o = true <->
    ID o <> "" /\ Symbol o <> "" /\ f64_gt (Quantity o) f64_zero = true.
Proof.
  intros o. unfold IsValid, nonempty.
  rewrite !andb_true_iff, !negb_true_iff.
  destruct (String.eqb_spec (ID o) ""), (String.eqb_spec (Symbol o) "");
    intuition congruence.
Qed.

(** C4, as the code has it. An order is well-formed exactly when its id
    and its symbol are non-empty and its quantity is positive. Validation
    reads neither the type nor the price: changing them never changes the
    verdict of [IsValid], so a LIMIT order is well-formed under the same
    three conditions as a MARKET order, also when its price is zero or
    negative. *)
Theorem IsValid_ignores_type_and_price :
  (forall o,
      IsValid o = true <->
      ID o <> "" /\ Symbol o <> "" /\ f64_gt (Quantity o) f64_zero = true) /\
  (forall o ty p, IsValid (set_Price (set_Type o ty) p) = IsValid o).
Proof. split; [exact IsValid_iff | reflexivity]. Qed.

(* ================================================================== *)
(** * The submission path                                              *)
(* ================================================================== *)

Section Submission.

Variable json_Marshal : Order -> option string.

Lemma IsValid_NewOrder : forall now id symbol side ty q p,
    IsValid (NewOrder now id symbol side ty q p)
    = nonempty id && nonempty symbol && f64_gt q f64_zero.
Proof. reflexivity. Qed.

(** C3. A request whose id is empty, whose symbol is empty or whose
    quantity is not positive is answered with 400 Bad Request, and the
    handler returns before the orchestrator is called: the [orders] and
    [outbox_events] tables (and the id sequence) are what they were. *)
Theorem createOrder_rejects_malformed : forall env req w,
    req_ID req = "" \/ req_Symbol req = "" \/
    SFleb (req_Quantity req) f64_zero = true ->
    fst (createOrder json_Marshal env (Some req) w)
      = mkResponse StatusBadRequest (BodyError "Invalid order data") /\
    db (snd (createOrder json_Marshal env (Some req) w)) = db w /\
    trace (snd (createOrder json_Marshal env (Some req) w)) = trace w.
Proof.
  intros env req w H.
  assert (Hinv : IsValid (NewOrder (clock w) (req_ID req) (req_Symbol req)
                            (req_Side req) (req_Type req) (req_Quantity req)
                            (req_Price req)) = false).
  { rewrite IsValid_NewOrder. destruct H as [H|[H|H]].
    - rewrite H. reflexivity.
    - rewrite H. apply andb_false_intro1, andb_false_intro2. reflexivity.
    - rewrite (f64_le_zero_not_gt _ H). apply andb_false_r. }
  unfold createOrder. run_go. rewrite Hinv. cbn. auto.
Qed.

End Submission.

Lemma createOrder_rejects_malformed_witness :
  req_ID req_no_id = "" /\
  fst (createOrder sample_Marshal env_ok (Some req_no_id) initial_world)
    = mkResponse StatusBadRequest (BodyError "Invalid order data") /\
  db (snd (createOrder sample_Marshal env_ok (Some req_no_id) initial_world))
    = db initial_world.
Proof.
  split; [reflexivity|].
  destruct (createOrder_rejects_malformed sample_Marshal env_ok req_no_id
              initial_world (or_introl eq_refl)) as [Hc [Hd _]].
  split; assumption.
Defined.

(** C1, evaluated on the code. The store accepts the INSERT of the order
    and fails the INSERT of the outbox event: [SubmitOrder] returns an
    error, the handler answers 500, and the order row, status PENDING, is
    in [orders] with no row in [outbox_events]. *)
Theorem SubmitOrder_outbox_failure_leaves_order_row :
  fst (SubmitOrder sample_Marshal env_outbox_insert_fails order_O1
                   initial_world)
    = Returned (order_O1,
                Some "failed to create outbox event: storage error") /\
  orders (db (snd (SubmitOrder sample_Marshal env_outbox_insert_fails
                               order_O1 initial_world))) = [order_O1] /\
  Status order_O1 = StatusPending /\
  outbox_events (db (snd (SubmitOrder sample_Marshal env_outbox_insert_fails
                                      order_O1 initial_world))) = [] /\
  StatusCode (fst (createOrder sample_Marshal env_outbox_insert_fails
                               (Some req_O1) initial_world))
    = StatusInternalServerError /\
  orders (db (snd (createOrder sample_Marshal env_outbox_insert_fails
                               (Some req_O1) initial_world)))
    = [order_O1].
Proof. vm_compute. repeat split. Qed.

(** C4 fails as stated: a LIMIT order with price zero is well-formed for
    [IsValid], is accepted with 202 and is stored. *)
Lemma limit_order_without_price_accepted :
  let order := NewOrder 1 "L1" "BTCUSDT" SideBuy TypeLimit f64_0_001 f64_zero in
  Type_ order = TypeLimit /\
  f64_gt (Price order) f64_zero = false /\
  IsValid order = true /\
  fst (createOrder sample_Marshal env_ok (Some req_limit_no_price)
                   initial_world)
    = mkResponse StatusAccepted (BodyOrder order) /\
  orders (db (snd (createOrder sample_Marshal env_ok
                               (Some req_limit_no_price) initial_world)))
    = [order].
Proof. vm_compute. repeat split. Qed.

(* ================================================================== *)
(** * The outbox relay                                                 *)
(* ================================================================== *)

(** ** ORDER BY created_at ASC LIMIT n *)

Lemma insert_by_created_at_perm : forall e l,
    Permutation (insert_by_created_at e l) (e :: l).
Proof.
  intros e l. induction l as [|x l IH]; cbn.
  - apply Permutation_refl.
  - destruct (Z.leb (EventCreatedAt e) (EventCreatedAt x)).
    + apply Permutation_refl.
    + eapply perm_trans; [apply perm_skip, IH | apply perm_swap].
Qed.

Lemma order_by_created_at_asc_perm : forall l,
    Permutation (order_by_created_at_asc l) l.
Proof.
  induction l as [|x l IH]; cbn.
  - apply perm_nil.
  - eapply perm_trans; [apply insert_by_created_at_perm|].
    apply perm_skip, IH.
Qed.

Lemma insert_by_created_at_sorted : forall e l,
    StronglySorted created_le l ->
    StronglySorted created_le (insert_by_created_at e l).
Proof.
  intros e l Hs. induction Hs as [|x l Hs IH Hx]; cbn.
  - constructor; constructor.
  - destruct (Z.leb_spec (EventCreatedAt e) (EventCreatedAt x)) as [Hle|Hgt].
    + constructor; [constructor; assumption|].
      constructor; [exact Hle|].
      eapply Forall_impl; [|exact Hx].
      intros a Ha. unfold created_le in *. lia.
    + constructor; [exact IH|].
      eapply Permutation_Forall;
        [apply Permutation_sym, insert_by_created_at_perm|].
      constructor; [unfold created_le; lia | exact Hx].
Qed.

Lemma order_by_created_at_asc_sorted : forall l,
    StronglySorted created_le (order_by_created_at_asc l).
Proof.
  induction l as [|x l IH]; cbn.
  - constructor.
  - apply insert_by_created_at_sorted, IH.
Qed.

Lemma firstn_In : forall (A : Type) n (l : list A) x,
    In x (firstn n l) -> In x l.
Proof.
  intros A n. induction n as [|n IH]; intros [|y l] x; cbn; try tauto.
  intros [H|H]; [left; exact H | right; apply IH, H].
Qed.

Lemma firstn_StronglySorted : forall (A : Type) (R : A -> A -> Prop) n l,
    StronglySorted R l -> StronglySorted R (firstn n l).
Proof.
  intros A R n. induction n as [|n IH]; intros l Hs; cbn.
  - constructor.
  - destruct Hs as [|x l Hs Hx]; constructor.
    + apply IH, Hs.
    + rewrite Forall_forall in *. intros y Hy. apply Hx.
      eapply firstn_In, Hy.
Qed.

Lemma firstn_NoDup : forall (A : Type) n (l : list A),
    NoDup l -> NoDup (firstn n l).
Proof.
  intros A n. induction n as [|n IH]; intros l Hn; cbn.
  - constructor.
  - destruct Hn as [|x l Hx Hn]; constructor.
    + intros Hin. apply Hx. eapply firstn_In, Hin.
    + apply IH, Hn.
Qed.

Lemma sql_limit_In : forall (A : Type) limit (l : list A) x,
    In x (sql_limit limit l) -> In x l.
Proof.
  intros A limit l x. unfold sql_limit.
  destruct (Z.ltb limit 0); [tauto | apply firstn_In].
Qed.

Lemma sql_limit_length : forall (A : Type) limit (l : list A),
    0 <= limit -> (length (sql_limit limit l) <= Z.to_nat limit)%nat.
Proof.
  intros A limit l H. unfold sql_limit.
  destruct (Z.ltb_spec limit 0); [lia | apply firstn_le_length].
Qed.

Lemma sql_limit_all : forall (A : Type) limit (l : list A),
    (length l <= Z.to_nat limit)%nat -> sql_limit limit l = l.
Proof.
  intros A limit l H. unfold sql_limit.
  destruct (Z.ltb limit 0); [reflexivity | apply firstn_all2, H].
Qed.

(** A list sorted by [created_at] that is a permutation of a strictly
    increasing list is that list. *)
Lemma sorted_perm_unique : forall l' l,
    StronglySorted created_lt l' ->
    StronglySorted created_le l ->
    Permutation l l' ->
    l = l'.
Proof.
  induction l' as [|x l' IH]; intros l Hlt Hle Hp.
  - apply Permutation_sym, Permutation_nil in Hp. exact Hp.
  - destruct l as [|y l].
    + apply Permutation_nil in Hp. discriminate.
    + apply StronglySorted_inv in Hlt. destruct Hlt as [Hlt Hx].
      apply StronglySorted_inv in Hle. destruct Hle as [Hle Hy].
      rewrite Forall_forall in Hx, Hy.
      assert (Hyx : y = x).
      { assert (Hin : In y (x :: l'))
          by (eapply Permutation_in; [exact Hp | left; reflexivity]).
        destruct Hin as [Hin|Hin]; [symmetry; exact Hin|].
        assert (Hin' : In x (y :: l))
          by (eapply Permutation_in;
              [apply Permutation_sym, Hp | left; reflexivity]).
        destruct Hin' as [Hin'|Hin']; [exact Hin'|].
        specialize (Hx _ Hin). specialize (Hy _ Hin').
        unfold created_lt, created_le in *. lia. }
      subst y. f_equal. apply IH; try assumption.
      eapply Permutation_cons_inv, Hp.
Qed.

Lemma relay_fetch_In : forall limit rows e,
    In e (relay_fetch limit rows) -> In e rows /\ Processed e = false.
Proof.
  intros limit rows e H. apply sql_limit_In in H.
  eapply Permutation_in in H; [|apply order_by_created_at_asc_perm].
  apply filter_In in H. destruct H as [Hin Hu]. split; [exact Hin|].
  unfold unprocessed in Hu. apply negb_true_iff in Hu. exact Hu.
Qed.

Lemma relay_fetch_sorted : forall limit rows,
    StronglySorted created_le (relay_fetch limit rows).
Proof.
  intros limit rows. unfold relay_fetch, sql_limit.
  destruct (Z.ltb limit 0).
  - apply order_by_created_at_asc_sorted.
  - apply firstn_StronglySorted, order_by_created_at_asc_sorted.
Qed.

Lemma filter_map_NoDup : forall (A B : Type) (f : A -> B) p (l : list A),
    NoDup (map f l) -> NoDup (map f (filter p l)).
Proof.
  intros A B f p l. induction l as [|x l IH]; cbn; intros Hn.
  - constructor.
  - apply NoDup_cons_iff in Hn. destruct Hn as [Hx Hn].
    destruct (p x); cbn; [|apply IH, Hn].
    constructor; [|apply IH, Hn].
    intros Hin. apply Hx. apply in_map_iff in Hin.
    destruct Hin as [y [Hy Hin]]. apply filter_In in Hin.
    apply in_map_iff. exists y. tauto.
Qed.

Lemma relay_fetch_NoDup : forall limit rows,
    NoDup (map EventID rows) ->
    NoDup (map EventID (relay_fetch limit rows)).
Proof.
  intros limit rows Hn. unfold relay_fetch.
  assert (Hs : NoDup (map EventID (order_by_created_at_asc
                                     (filter unprocessed rows)))).
  { eapply Permutation_NoDup.
    - apply Permutation_map, Permutation_sym, order_by_created_at_asc_perm.
    - apply filter_map_NoDup, Hn. }
  unfold sql_limit. destruct (Z.ltb limit 0); [exact Hs|].
  rewrite <- firstn_map. apply firstn_NoDup, Hs.
Qed.

(** ** One cycle *)

Lemma relay_event_trace : forall env e w,
    trace (snd (relay_event env e w)) = trace w ++ [publish_call env e].
Proof.
  intros env e w. unfold relay_event, PublishGenericEvent,
    MarkOutboxEventProcessed, publish_call. run_go.
  destruct (publish_event_ok env e); cbn; [|reflexivity].
  destruct (db_ok env (OpMarkProcessed (EventID e))); reflexivity.
Qed.

Lemma relay_event_outbox : forall env e w,
    outbox_events (db (snd (relay_event env e w)))
    = if publish_event_ok env e && db_ok env (OpMarkProcessed (EventID e))
      then mark_rows (EventID e) (clock w + 1) (outbox_events (db w))
      else outbox_events (db w).
Proof.
  intros env e w. unfold relay_event, PublishGenericEvent,
    MarkOutboxEventProcessed. run_go.
  destruct (publish_event_ok env e); cbn; [|reflexivity].
  destruct (db_ok env (OpMarkProcessed (EventID e))); reflexivity.
Qed.

Lemma relay_event_orders : forall env e w,
    orders (db (snd (relay_event env e w))) = orders (db w).
Proof.
  intros env e w. unfold relay_event, PublishGenericEvent,
    MarkOutboxEventProcessed. run_go.
  destruct (publish_event_ok env e); cbn; [|reflexivity].
  destruct (db_ok env (OpMarkProcessed (EventID e))); reflexivity.
Qed.

Lemma mark_rows_other : forall id now rows r,
    In r rows -> EventID r <> id -> In r (mark_rows id now rows).
Proof.
  intros id now rows r Hin Hne. unfold mark_rows. apply in_map_iff.
  exists r. split; [|exact Hin].
  destruct (N.eqb_spec (EventID r) id); [contradiction | reflexivity].
Qed.

Lemma mark_rows_hit : forall id now rows r,
    In r rows -> EventID r = id -> In (mark_processed now r) (mark_rows id now rows).
Proof.
  intros id now rows r Hin He. unfold mark_rows. apply in_map_iff.
  exists r. split; [|exact Hin].
  rewrite He, N.eqb_refl. reflexivity.
Qed.

Lemma mark_rows_ids : forall id now rows,
    map EventID (mark_rows id now rows) = map EventID rows.
Proof.
  intros id now rows. unfold mark_rows. rewrite map_map.
  apply map_ext. intros r. destruct (N.eqb (EventID r) id); reflexivity.
Qed.

(** A row is left as it is by the visit of another row, and by the visit
    of a row whose publication or whose marking fails. *)
Lemma relay_event_keeps : forall env e w r,
    In r (outbox_events (db w)) ->
    EventID e <> EventID r \/ publish_event_ok env e = false \/
    db_ok env (OpMarkProcessed (EventID e)) = false ->
    In r (outbox_events (db (snd (relay_event env e w)))).
Proof.
  intros env e w r Hin H. rewrite relay_event_outbox.
  destruct (publish_event_ok env e) eqn:Hp; cbn; [|exact Hin].
  destruct (db_ok env (OpMarkProcessed (EventID e))) eqn:Hm; [|exact Hin].
  destruct H as [H|[H|H]]; try discriminate.
  apply mark_rows_other; [exact Hin | congruence].
Qed.

Lemma relay_range_trace : forall env events w,
    trace (snd (relay_range env events w))
    = trace w ++ map (publish_call env) events.
Proof.
  intros env events. induction events as [|e rest IH]; intros w; cbn.
  - symmetry. apply app_nil_r.
  - unfold bind. destruct (relay_event env e w) as [u w1] eqn:He.
    rewrite IH. change w1 with (snd (u, w1)). rewrite <- He.
    rewrite relay_event_trace, <- app_assoc. reflexivity.
Qed.

Lemma relay_range_orders : forall env events w,
    orders (db (snd (relay_range env events w))) = orders (db w).
Proof.
  intros env events. induction events as [|e rest IH]; intros w; cbn.
  - reflexivity.
  - unfold bind. destruct (relay_event env e w) as [u w1] eqn:He.
    rewrite IH. change w1 with (snd (u, w1)). rewrite <- He.
    apply relay_event_orders.
Qed.

Lemma relay_range_keeps : forall env events w r,
    In r (outbox_events (db w)) ->
    (forall e, In e events -> EventID e = EventID r ->
               publish_event_ok env e = false \/
               db_ok env (OpMarkProcessed (EventID e)) = false) ->
    In r (outbox_events (db (snd (relay_range env events w)))).
Proof.
  intros env events. induction events as [|e rest IH]; intros w r Hin H; cbn.
  - exact Hin.
  - unfold bind. destruct (relay_event env e w) as [u w1] eqn:He.
    apply IH.
    + change w1 with (snd (u, w1)). rewrite <- He.
      apply relay_event_keeps; [exact Hin|].
      destruct (N.eq_dec (EventID e) (EventID r)) as [Heq|Hne].
      * right. apply H; [left; reflexivity | exact Heq].
      * left. exact Hne.
    + intros e' Hin' Heq. apply H; [right; exact Hin' | exact Heq].
Qed.

Lemma relay_range_marks : forall env events w e,
    NoDup (map EventID events) ->
    In e events ->
    In e (outbox_events (db w)) ->
    publish_event_ok env e = true ->
    db_ok env (OpMarkProcessed (EventID e)) = true ->
    exists t, In (mark_processed t e)
                 (outbox_events (db (snd (relay_range env events w)))).
Proof.
  intros env events. induction events as [|h rest IH];
    intros w e Hnd Hev Hin Hp Hm; [contradiction|].
  cbn in Hnd. apply NoDup_cons_iff in Hnd. destruct Hnd as [Hh Hnd].
  cbn. unfold bind. destruct (relay_event env h w) as [u w1] eqn:He.
  assert (Hw1 : w1 = snd (relay_event env h w)) by (rewrite He; reflexivity).
  destruct Hev as [Hev|Hev].
  - subst h. exists (clock w + 1). apply relay_range_keeps.
    + rewrite Hw1, relay_event_outbox, Hp, Hm. cbn.
      apply mark_rows_hit; [exact Hin | reflexivity].
    + intros e' Hin' Heq. exfalso. apply Hh. cbn in Heq.
      rewrite <- Heq. apply in_map, Hin'.
  - apply IH; try assumption.
    rewrite Hw1. apply relay_event_keeps; [exact Hin|].
    left. intros Heq. apply Hh. rewrite Heq. apply in_map, Hev.
Qed.

Lemma GetUnprocessedOutboxEvents_spec : forall env limit w,
    GetUnprocessedOutboxEvents env limit w
    = (if db_ok env (OpGetUnprocessed limit)
       then (relay_fetch limit (outbox_events (db w)), None)
       else ([], ErrStorage), w).
Proof.
  intros env limit w. unfold GetUnprocessedOutboxEvents. run_go.
  destruct (db_ok env (OpGetUnprocessed limit)); reflexivity.
Qed.

Lemma relay_cycle_fetched : forall env w,
    db_ok env (OpGetUnprocessed 100) = true ->
    relay_cycle env w
    = relay_range env (relay_fetch 100 (outbox_events (db w))) w.
Proof.
  intros env w H. unfold relay_cycle, bind.
  rewrite GetUnprocessedOutboxEvents_spec, H. reflexivity.
Qed.

Lemma relay_cycle_fetch_failed : forall env w,
    db_ok env (OpGetUnprocessed 100) = false ->
    trace (snd (relay_cycle env w)) = trace w /\
    db (snd (relay_cycle env w)) = db w.
Proof.
  intros env w H. unfold relay_cycle, bind.
  rewrite GetUnprocessedOutboxEvents_spec, H. cbn. auto.
Qed.

(** The fetch and the cycle. Whatever batch size the fetch is given, it
    returns rows of the table with [processed = false], at most that
    many, in ascending [created_at]. A relay cycle fetches with batch
    size 100 and hands to the publisher exactly the rows it fetched, in
    fetch order. When the
    unprocessed rows of the table are three rows created at t1 < t2 < t3,
    in whatever storage order and among whatever processed rows, the
    publications are those of t1, t2, t3 in this order. *)
Theorem relay_cycle_publishes_oldest_first : forall env w,
    (forall limit,
        0 <= limit ->
        let rows := fst (fst (GetUnprocessedOutboxEvents env limit w)) in
        (length rows <= Z.to_nat limit)%nat /\
        (forall e, In e rows ->
                   In e (outbox_events (db w)) /\ Processed e = false) /\
        StronglySorted created_le rows) /\
    (let batch := fst (fst (GetUnprocessedOutboxEvents env 100 w)) in
     trace (snd (relay_cycle env w))
       = trace w ++ map (publish_call env) batch /\
     (length batch <= 100)%nat /\
     forall e1 e2 e3,
       db_ok env (OpGetUnprocessed 100) = true ->
       Permutation (filter unprocessed (outbox_events (db w))) [e1; e2; e3] ->
       EventCreatedAt e1 < EventCreatedAt e2 ->
       EventCreatedAt e2 < EventCreatedAt e3 ->
       batch = [e1; e2; e3]).
Proof.
  intros env w. split.
  - intros limit Hlimit. rewrite GetUnprocessedOutboxEvents_spec.
    destruct (db_ok env (OpGetUnprocessed limit)); cbn [fst snd].
    + split; [apply sql_limit_length, Hlimit|].
      split; [intros e; apply relay_fetch_In | apply relay_fetch_sorted].
    + split; [cbn; lia|]. split; [contradiction | constructor].
  - rewrite GetUnprocessedOutboxEvents_spec.
    destruct (db_ok env (OpGetUnprocessed 100)) eqn:Hok; cbn [fst snd].
    + rewrite (relay_cycle_fetched env w Hok), relay_range_trace.
      split; [reflexivity|]. split.
      { apply (sql_limit_length _ 100). lia. }
      intros e1 e2 e3 _ Hperm H12 H23.
      apply sorted_perm_unique.
      * repeat constructor; unfold created_lt; lia.
      * apply relay_fetch_sorted.
      * unfold relay_fetch. rewrite sql_limit_all.
        -- eapply perm_trans;
             [apply order_by_created_at_asc_perm | exact Hperm].
        -- rewrite (Permutation_length (order_by_created_at_asc_perm _)),
             (Permutation_length Hperm). cbn. lia.
    + destruct (relay_cycle_fetch_failed env w Hok) as [Ht _].
      rewrite Ht, app_nil_r.
      split; [reflexivity|]. split; [cbn; lia|].
      intros; discriminate.
Qed.

(** C6. In a cycle whose fetch succeeded, over a table whose ids are
    unique, all rows of the batch are handed to the publisher whatever
    happens to the others; a row whose publication fails is still in the
    table as it was, with [processed = false]; a row whose publication and
    marking succeed is marked. For a batch of three rows where the
    publication of the second fails and the first and third go through,
    rows 1 and 3 are marked and row 2 is untouched. *)
Theorem relay_cycle_failure_isolation : forall env w,
    NoDup (map EventID (outbox_events (db w))) ->
    db_ok env (OpGetUnprocessed 100) = true ->
    let batch := fst (fst (GetUnprocessedOutboxEvents env 100 w)) in
    let w' := snd (relay_cycle env w) in
    trace w' = trace w ++ map (publish_call env) batch /\
    (forall e, In e batch -> publish_event_ok env e = false ->
               In e (outbox_events (db w')) /\ Processed e = false) /\
    (forall e, In e batch -> publish_event_ok env e = true ->
               db_ok env (OpMarkProcessed (EventID e)) = true ->
               exists t, In (mark_processed t e) (outbox_events (db w'))) /\
    (forall e1 e2 e3,
        batch = [e1; e2; e3] ->
        publish_event_ok env e1 = true ->
        publish_event_ok env e2 = false ->
        publish_event_ok env e3 = true ->
        db_ok env (OpMarkProcessed (EventID e1)) = true ->
        db_ok env (OpMarkProcessed (EventID e3)) = true ->
        exists t1 t3,
          In (mark_processed t1 e1) (outbox_events (db w')) /\
          In e2 (outbox_events (db w')) /\ Processed e2 = false /\
          In (mark_processed t3 e3) (outbox_events (db w'))).
Proof.
  intros env w Hnd Hok. rewrite GetUnprocessedOutboxEvents_spec, Hok.
  cbn [fst snd].
  rewrite (relay_cycle_fetched env w Hok).
  set (batch := relay_fetch 100 (outbox_events (db w))).
  assert (Hids : NoDup (map EventID batch)) by apply relay_fetch_NoDup, Hnd.
  assert (Hfail : forall e, In e batch -> publish_event_ok env e = false ->
            In e (outbox_events (db (snd (relay_range env batch w)))) /\
            Processed e = false).
  { intros e Hin Hp. destruct (relay_fetch_In _ _ _ Hin) as [Hrow Hun].
    split; [|exact Hun].
    apply relay_range_keeps; [exact Hrow|].
    intros e' Hin' Heq. left.
    destruct (relay_fetch_In _ _ _ Hin') as [Hrow' _].
    assert (e' = e); [|subst; exact Hp].
    clear - Hnd Hrow Hrow' Heq.
    induction (outbox_events (db w)) as [|x l IH]; [contradiction|].
    cbn in Hnd. apply NoDup_cons_iff in Hnd. destruct Hnd as [Hx Hnd].
    destruct Hrow as [Hrow|Hrow], Hrow' as [Hrow'|Hrow'].
    - congruence.
    - subst x. exfalso. apply Hx. rewrite <- Heq. apply in_map, Hrow'.
    - subst x. exfalso. apply Hx. rewrite Heq. apply in_map, Hrow.
    - apply IH; assumption. }
  assert (Hgood : forall e, In e batch -> publish_event_ok env e = true ->
            db_ok env (OpMarkProcessed (EventID e)) = true ->
            exists t, In (mark_processed t e)
                         (outbox_events (db (snd (relay_range env batch w))))).
  { intros e Hin Hp Hm. destruct (relay_fetch_In _ _ _ Hin) as [Hrow _].
    apply relay_range_marks; assumption. }
  split; [apply relay_range_trace|].
  split; [exact Hfail|]. split; [exact Hgood|].
  intros e1 e2 e3 Hb Hp1 Hp2 Hp3 Hm1 Hm3.
  destruct (Hgood e1) as [t1 H1]; try assumption;
    [rewrite Hb; cbn; auto|].
  destruct (Hgood e3) as [t3 H3]; try assumption;
    [rewrite Hb; cbn; auto|].
  destruct (Hfail e2) as [H2 H2']; try assumption;
    [rewrite Hb; cbn; auto|].
  exists t1, t3. auto.
Qed.

(** ** The relay among the other activities *)

Lemma unique_by_id : forall (rows : list OutboxEvent) a b,
    NoDup (map EventID rows) ->
    In a rows -> In b rows -> EventID a = EventID b -> a = b.
Proof.
  intros rows a b. induction rows as [|x l IH]; intros Hnd Ha Hb Heq;
    [contradiction|].
  cbn in Hnd. apply NoDup_cons_iff in Hnd. destruct Hnd as [Hx Hnd].
  destruct Ha as [Ha|Ha], Hb as [Hb|Hb].
  - congruence.
  - subst x. exfalso. apply Hx. rewrite Heq. apply in_map, Hb.
  - subst x. exfalso. apply Hx. rewrite <- Heq. apply in_map, Ha.
  - apply IH; assumption.
Qed.

Lemma has_event_false : forall id rows,
    has_event id rows = false -> ~ In id (map EventID rows).
Proof.
  intros id rows H Hin. apply in_map_iff in Hin.
  destruct Hin as [r [Hr Hin]].
  assert (Ht : has_event id rows = true).
  { unfold has_event. apply existsb_exists. exists r.
    split; [exact Hin | apply N.eqb_eq, Hr]. }
  congruence.
Qed.

(** A worker job writes to [orders] only. *)
Lemma worker_job_frame : forall env order w,
    outbox_events (db (snd (worker_job env order w))) = outbox_events (db w) /\
    exists new, trace (snd (worker_job env order w)) = trace w ++ new.
Proof.
  intros env order w.
  unfold worker_job, ProcessOrder, GetOrder, UpdateOrder, gorm_Save_Order,
    gorm_Create_Order, ExecuteTrade, PublishOrderEvent. run_go.
  split_ifs; (split; [reflexivity|]);
    rewrite <- ?app_assoc; try (eexists; reflexivity);
    try (exists []; rewrite app_nil_r; reflexivity).
Qed.

Section RelayInvariant.

Variable json_Marshal : Order -> option string.

(** A request adds at most one row to [outbox_events], unprocessed and
    under a fresh id, and calls no collaborator but the store. *)
Lemma createOrder_frame : forall env bound w,
    trace (snd (createOrder json_Marshal env bound w)) = trace w /\
    (outbox_events (db (snd (createOrder json_Marshal env bound w)))
     = outbox_events (db w) \/
     exists e,
       outbox_events (db (snd (createOrder json_Marshal env bound w)))
       = outbox_events (db w) ++ [e] /\
       Processed e = false /\
       ~ In (EventID e) (map EventID (outbox_events (db w)))).
Proof.
  intros env bound w.
  unfold createOrder, SubmitOrder, CreateOrder, CreateOutboxEvent,
    gorm_Create_Order, gorm_Create_OutboxEvent. run_go.
  destruct bound as [req|]; cbn; [|auto].
  split_ifs; (split; [reflexivity|]); try (left; reflexivity).
  right. eexists. split; [reflexivity|]. split; [reflexivity|].
  cbn. apply has_event_false. assumption.
Qed.

Lemma relay_inv_initial : relay_inv initial.
Proof.
  unfold relay_inv; cbn. repeat split; try constructor; contradiction.
Qed.

Lemma delivered_app : forall tr new e,
    delivered tr e -> delivered (tr ++ new) e.
Proof. intros tr new e H. unfold delivered. apply in_or_app. left. exact H. Qed.

Lemma relay_inv_exec : forall a s,
    relay_inv s -> relay_inv (exec json_Marshal a s).
Proof.
  intros a s [Hnd [Hbnd [Hsub Hproc]]].
  destruct a as [env bound|env order|env|env]; cbn [exec].
  - (* a request *)
    destruct (createOrder_frame env bound (world s)) as [Htr Hrows].
    unfold relay_inv; cbn [world relay_batch]. rewrite Htr.
    destruct Hrows as [Hrows|[e [Hrows [Hun Hfresh]]]]; rewrite Hrows.
    + auto.
    + split.
      { rewrite map_app. cbn. apply NoDup_app_remove_l with (l := []).
        cbn. apply Permutation_NoDup with (l := EventID e :: map EventID
                                  (outbox_events (db (world s)))).
        - apply Permutation_cons_append.
        - constructor; assumption. }
      split; [exact Hbnd|]. split.
      { intros e' Hin. apply in_or_app. left. apply Hsub, Hin. }
      intros r Hin Hp. apply in_app_or in Hin. destruct Hin as [Hin|Hin].
      * apply Hproc; assumption.
      * destruct Hin as [Hin|[]]. subst r. congruence.
  - (* a worker job *)
    destruct (worker_job_frame env order (world s)) as [Hrows [new Htr]].
    unfold relay_inv; cbn [world relay_batch]. rewrite Hrows, Htr.
    split; [exact Hnd|]. split; [exact Hbnd|]. split; [exact Hsub|].
    intros r Hin Hp. destruct (Hproc r Hin Hp) as [e [t [Hd Hr]]].
    exists e, t. split; [apply delivered_app, Hd | exact Hr].
  - (* the ticker fires *)
    destruct (relay_batch s) as [|e0 rest] eqn:Hb.
    + rewrite GetUnprocessedOutboxEvents_spec.
      destruct (db_ok env (OpGetUnprocessed 100)); cbn -[relay_fetch].
      * unfold relay_inv; cbn [world relay_batch].
        split; [exact Hnd|].
        split; [apply relay_fetch_NoDup, Hnd|].
        split; [intros e He; apply (relay_fetch_In _ _ _ He) | exact Hproc].
      * unfold relay_inv; cbn.
        split; [exact Hnd|]. split; [constructor|].
        split; [contradiction | exact Hproc].
    + unfold relay_inv. rewrite Hb. auto.
  - (* the relay visits the next row of its batch *)
    destruct (relay_batch s) as [|e rest] eqn:Hb.
    + unfold relay_inv. rewrite Hb. auto.
    + cbn in Hbnd. apply NoDup_cons_iff in Hbnd. destruct Hbnd as [He Hrest].
      assert (Hein : In e (outbox_events (db (world s))))
        by (apply Hsub; left; reflexivity).
      unfold relay_inv; cbn [world relay_batch].
      rewrite relay_event_trace.
      split.
      { rewrite relay_event_outbox.
        destruct (publish_event_ok env e
                  && db_ok env (OpMarkProcessed (EventID e)));
          [rewrite mark_rows_ids|]; exact Hnd. }
      split; [exact Hrest|]. split.
      { intros e' Hin. apply relay_event_keeps.
        - apply Hsub. right. exact Hin.
        - left. intros Heq. apply He. rewrite Heq. apply in_map, Hin. }
      intros r Hin Hp. rewrite relay_event_outbox in Hin.
      destruct (publish_event_ok env e) eqn:Hpub; cbn in Hin.
      * destruct (db_ok env (OpMarkProcessed (EventID e))) eqn:Hm.
        -- unfold mark_rows in Hin. apply in_map_iff in Hin.
           destruct Hin as [r0 [Hr0 Hin0]].
           destruct (N.eqb_spec (EventID r0) (EventID e)) as [Heq|Hne].
           ++ assert (r0 = e)
                by (apply (unique_by_id (outbox_events (db (world s))));
                    assumption).
              subst r0. exists e, (clock (world s) + 1).
              split; [|symmetry; exact Hr0].
              unfold delivered, publish_call. rewrite Hpub.
              apply in_or_app. right. left. reflexivity.
           ++ subst r0. destruct (Hproc r Hin0 Hp) as [e1 [t [Hd Hr]]].
              exists e1, t. split; [apply delivered_app, Hd | exact Hr].
        -- destruct (Hproc r Hin Hp) as [e1 [t [Hd Hr]]].
           exists e1, t. split; [apply delivered_app, Hd | exact Hr].
      * destruct (Hproc r Hin Hp) as [e1 [t [Hd Hr]]].
        exists e1, t. split; [apply delivered_app, Hd | exact Hr].
Qed.

Lemma relay_inv_run : forall acts s,
    relay_inv s -> relay_inv (run json_Marshal acts s).
Proof.
  induction acts as [|a acts IH]; intros s Hs; cbn.
  - exact Hs.
  - apply IH, relay_inv_exec, Hs.
Qed.

Lemma relay_inv_reachable : forall s,
    reachable json_Marshal s -> relay_inv s.
Proof.
  intros s [acts Hs]. subst s. apply relay_inv_run, relay_inv_initial.
Qed.

Lemma run_cons : forall a acts s,
    run json_Marshal (a :: acts) s = run json_Marshal acts (exec json_Marshal a s).
Proof. reflexivity. Qed.

(** The function [relay_cycle] is the ticker firing followed by one visit
    per fetched row. *)
Lemma relay_range_as_steps : forall env events w,
    run json_Marshal (repeat (ActRelayEvent env) (length events))
        (mkSystem w events)
    = mkSystem (snd (relay_range env events w)) [].
Proof.
  intros env events. induction events as [|e rest IH]; intros w.
  - reflexivity.
  - cbn [length repeat relay_range]. rewrite run_cons.
    cbn [exec relay_batch world]. rewrite IH. unfold bind.
    destruct (relay_event env e w) as [u w1]. reflexivity.
Qed.

Lemma relay_cycle_as_steps : forall env w,
    run json_Marshal
        (ActRelayFetch env
         :: repeat (ActRelayEvent env)
                   (length (fst (fst (GetUnprocessedOutboxEvents env 100 w)))))
        (mkSystem w [])
    = mkSystem (snd (relay_cycle env w)) [].
Proof.
  intros env w. rewrite run_cons. cbn [exec relay_batch world].
  unfold relay_cycle, bind. rewrite GetUnprocessedOutboxEvents_spec.
  destruct (db_ok env (OpGetUnprocessed 100)); cbn [fst snd negb is_nil].
  - apply relay_range_as_steps.
  - reflexivity.
Qed.

Lemma run_app : forall acts1 acts2 s,
    run json_Marshal (acts1 ++ acts2) s
    = run json_Marshal acts2 (run json_Marshal acts1 s).
Proof. intros acts1 acts2 s. unfold run. apply fold_left_app. Qed.

(** The relay goroutine over any number of ticks, and a worker over any
    queue of orders, move the system by steps of [exec] only: the states
    they pass through are states of [run]. *)
Lemma StartOutboxRelay_as_steps : forall ticks w,
    exists acts,
      run json_Marshal acts (mkSystem w [])
      = mkSystem (snd (StartOutboxRelay ticks w)) [].
Proof.
  induction ticks as [|env rest IH]; intros w.
  - exists []. reflexivity.
  - cbn [StartOutboxRelay]. unfold bind.
    destruct (relay_cycle env w) as [u w1] eqn:Hc.
    destruct (IH w1) as [acts Hacts].
    exists ((ActRelayFetch env
             :: repeat (ActRelayEvent env)
                  (length (fst (fst (GetUnprocessedOutboxEvents env 100 w)))))
            ++ acts).
    rewrite run_app, relay_cycle_as_steps, Hc. exact Hacts.
Qed.

Lemma worker_as_steps : forall jobs s,
    run json_Marshal (map (fun j => ActProcessOrder (fst j) (snd j)) jobs) s
    = mkSystem (snd (worker jobs (world s))) (relay_batch s).
Proof.
  induction jobs as [|[env order] rest IH]; intros s.
  - destruct s. reflexivity.
  - cbn [map fst snd worker]. rewrite run_cons, IH.
    cbn [exec world relay_batch]. unfold bind.
    destruct (worker_job env order (world s)) as [u w1]. reflexivity.
Qed.

Lemma reachable_run : forall acts s,
    reachable json_Marshal s -> reachable json_Marshal (run json_Marshal acts s).
Proof.
  intros acts s [acts0 Hs]. exists (acts0 ++ acts).
  rewrite run_app, <- Hs. reflexivity.
Qed.

(** C7. In every state the system reaches from the empty database, by
    requests, worker jobs, relay fetches and relay row visits in any
    order and with any answers of the collaborators, a row of
    [outbox_events] with [processed = true] is the marked copy of a row
    that was handed to the publisher in a call that returned success; and
    a row for which every publication has failed so far has
    [processed = false]. *)
Theorem processed_only_after_delivery : forall s,
    reachable json_Marshal s ->
    forall r, In r (outbox_events (db (world s))) ->
    (Processed r = true ->
     exists e t,
       In (CallPublishGenericEvent "nexus.events" (AggregateID e) e true)
          (trace (world s)) /\
       r = mark_processed t e) /\
    ((forall topic key e ok,
         In (CallPublishGenericEvent topic key e ok) (trace (world s)) ->
         EventID e = EventID r -> ok = false) ->
     Processed r = false).
Proof.
  intros s Hs r Hin.
  destruct (relay_inv_reachable s Hs) as [_ [_ [_ Hproc]]].
  split; [apply Hproc, Hin|].
  intros Hfail. destruct (Processed r) eqn:Hp; [|reflexivity].
  destruct (Hproc r Hin Hp) as [e [t [Hd Hr]]].
  apply (Hfail _ _ _ _ Hd). rewrite Hr. reflexivity.
Qed.

End RelayInvariant.

(* ================================================================== *)
(** * The execution path                                               *)
(* ================================================================== *)

Lemma find_has_order : forall id rows o,
    find (fun r => String.eqb (ID r) id) rows = Some o ->
    ID o = id /\ has_order id rows = true.
Proof.
  intros id rows o H. apply find_some in H. destruct H as [Hin He].
  apply String.eqb_eq in He. split; [exact He|].
  unfold has_order. apply existsb_exists. exists o. split; [exact Hin|].
  apply String.eqb_eq, He.
Qed.

Lemma find_update_rows : forall o' rows,
    has_order (ID o') rows = true ->
    find (fun r => String.eqb (ID r) (ID o')) (update_rows o' rows) = Some o'.
Proof.
  intros o' rows. induction rows as [|x l IH]; cbn; [discriminate|].
  destruct (String.eqb (ID x) (ID o')) eqn:Hx; cbn.
  - rewrite String.eqb_refl. reflexivity.
  - rewrite Hx. exact IH.
Qed.

Lemma has_order_update_rows : forall o' rows,
    has_order (ID o') (update_rows o' rows) = has_order (ID o') rows.
Proof.
  intros o' rows. induction rows as [|x l IH]; cbn; [reflexivity|].
  destruct (String.eqb (ID x) (ID o')) eqn:Hx; cbn.
  - rewrite String.eqb_refl. reflexivity.
  - rewrite Hx. exact IH.
Qed.

Lemma GetOrder_found : forall env id w o,
    db_ok env (OpGetOrder id) = true ->
    find (fun r => String.eqb (ID r) id) (orders (db w)) = Some o ->
    GetOrder env id w = (inl o, w).
Proof.
  intros env id w o Hdb Hfind. unfold GetOrder, bind, get_db, ret.
  rewrite Hdb, Hfind. reflexivity.
Qed.

Lemma UpdateOrder_ok : forall env o w,
    nonempty (ID o) = true ->
    db_ok env (OpSaveOrder o) = true ->
    has_order (ID o) (orders (db w)) = true ->
    UpdateOrder env o w = ((set_UpdatedAt o (clock w), None), saved o w).
Proof.
  intros env o w Hne Hdb Hhas.
  unfold UpdateOrder, gorm_Save_Order, bind, time_Now, get_db, put_db,
    record, ret.
  rewrite Hne, Hdb. cbn [negb ID set_UpdatedAt db orders]. rewrite Hhas.
  reflexivity.
Qed.

Lemma ExecuteTrade_eq : forall env o w,
    ExecuteTrade env o w
    = (if exchange_ok env o then None else Some "binance API error"%string,
       mkWorld (db w) (clock w)
               (trace w ++ [CallExecuteTrade o (exchange_ok env o)])
               (errlog w)).
Proof. reflexivity. Qed.

Lemma ProcessOrder_not_allowed : forall env orderID w,
    (forall o, find (fun r => String.eqb (ID r) orderID) (orders (db w))
               = Some o -> CanTransitionTo o StatusExecuting = false) ->
    fst (ProcessOrder env orderID w) <> None /\
    snd (ProcessOrder env orderID w) = w.
Proof.
  intros env orderID w H. unfold ProcessOrder, GetOrder, bind, get_db, ret.
  destruct (db_ok env (OpGetOrder orderID)); cbn [negb];
    [|split; [discriminate | reflexivity]].
  destruct (find _ (orders (db w))) as [o|] eqn:Hfind;
    [|split; [discriminate | reflexivity]].
  rewrite (H o eq_refl). cbn [negb]. split; [discriminate | reflexivity].
Qed.

Section Pending.

Variables (env : Env) (w : World) (orderID : string) (o : Order).

Hypothesis Hfind :
  find (fun r => String.eqb (ID r) orderID) (orders (db w)) = Some o.
Hypothesis Hid : orderID <> ""%string.
Hypothesis Hpending : Status o = StatusPending.
Hypothesis Hstore : forall op, db_ok env op = true.

Let executing : Order :=
  set_UpdatedAt (set_Status o StatusExecuting) (clock w).

Let final (s : OrderStatus) : Order :=
  set_UpdatedAt (set_Status o s) (clock w + 2).

(** A job on a stored PENDING order, the store answering: what
    [ProcessOrder] returns, calls and writes, by the answer of the
    exchange. *)
Lemma ProcessOrder_pending :
    let ok := exchange_ok env executing in
    let last := final (if ok then StatusCompleted else StatusFailed) in
    fst (ProcessOrder env orderID w)
      = (if ok then None
         else Some "trade execution failed: binance API error"%string) /\
    trace (snd (ProcessOrder env orderID w))
      = trace w ++ [DbSaveOrder (clock w) executing;
                    CallExecuteTrade executing ok;
                    DbSaveOrder (clock w + 2) last]
                ++ (if ok
                    then [CallPublishOrderEvent last (publish_order_ok env last)]
                    else []) /\
    orders (db (snd (ProcessOrder env orderID w)))
      = update_rows last (update_rows executing (orders (db w))) /\
    (ok = false -> errlog (snd (ProcessOrder env orderID w)) = errlog w).
Proof.
  destruct (find_has_order _ _ _ Hfind) as [Hido Hhas].
  assert (Hne : nonempty (ID o) = true).
  { unfold nonempty. rewrite Hido. apply negb_true_iff, String.eqb_neq, Hid. }
  assert (Hcan : CanTransitionTo o StatusExecuting = true).
  { apply CanTransitionTo_iff. auto. }
  assert (Hhas2 : forall s t,
             has_order (ID (set_UpdatedAt (set_Status executing s) t))
                       (orders (db (saved (set_Status o StatusExecuting) w)))
             = true).
  { intros s t. cbn [ID set_UpdatedAt set_Status db orders saved].
    change (ID o) with (ID executing).
    rewrite has_order_update_rows.
    cbn [ID executing set_UpdatedAt set_Status]. rewrite Hido. exact Hhas. }
  cbv zeta. unfold ProcessOrder, bind.
  rewrite (GetOrder_found env orderID w o (Hstore _) Hfind), Hcan.
  cbn [negb].
  rewrite UpdateOrder_ok;
    [| exact Hne | apply Hstore | rewrite <- Hido in Hhas; exact Hhas].
  cbn [negb is_nil]. rewrite ExecuteTrade_eq. fold executing.
  destruct (exchange_ok env executing); cbn [negb is_nil]; unfold time_Now;
    (rewrite UpdateOrder_ok; [| exact Hne | apply Hstore | apply Hhas2]);
    unfold PublishOrderEvent, bind, time_Now, record, ret, logger_Error,
      final, executing;
    cbn; replace (clock w + 1 + 1) with (clock w + 2) by lia;
    try destruct (publish_order_ok env _);
    cbn; rewrite <- ?app_assoc; (repeat split; try reflexivity; discriminate).
Qed.

Lemma find_last_write : forall s,
    find (fun r => String.eqb (ID r) orderID)
         (update_rows (final s) (update_rows executing (orders (db w))))
    = Some (final s).
Proof.
  intros s. destruct (find_has_order _ _ _ Hfind) as [Hido Hhas].
  rewrite <- Hido. change (ID o) with (ID (final s)).
  apply find_update_rows.
  change (ID (final s)) with (ID executing).
  rewrite has_order_update_rows.
  cbn [ID executing set_UpdatedAt set_Status]. rewrite Hido. exact Hhas.
Qed.

End Pending.

Lemma ProcessOrder_writes_stamped : forall env orderID w,
    exists new,
      trace (snd (ProcessOrder env orderID w)) = trace w ++ new /\
      forall t row, In (DbSaveOrder t row) new ->
                    UpdatedAt row = t /\ clock w <= t.
Proof.
  intros env orderID w.
  unfold ProcessOrder, GetOrder, UpdateOrder, gorm_Save_Order,
    gorm_Create_Order, ExecuteTrade, PublishOrderEvent. run_go.
  split_ifs; new_trace.
Qed.

(** C8. A worker job on a stored PENDING order, with the store answering
    and the exchange call failing: the order is written as EXECUTING, the
    exchange is called once, the order is written as FAILED (an edge of
    the state machine), the job returns the exchange's failure as its
    error and the worker logs it. The stored order is then FAILED, no
    status can follow it, and any later job on it returns an error and
    changes nothing, in particular does not call the exchange. *)
Theorem ProcessOrder_exchange_failure : forall env w orderID o,
    find (fun r => String.eqb (ID r) orderID) (orders (db w)) = Some o ->
    orderID <> ""%string ->
    Status o = StatusPending ->
    (forall op, db_ok env op = true) ->
    let executing := set_UpdatedAt (set_Status o StatusExecuting) (clock w) in
    let failed := set_UpdatedAt (set_Status o StatusFailed) (clock w + 2) in
    let w' := snd (ProcessOrder env orderID w) in
    exchange_ok env executing = false ->
    fst (ProcessOrder env orderID w)
      = Some "trade execution failed: binance API error"%string /\
    errlog (snd (worker_job env o w))
      = errlog w ++ ["Failed to process order: trade execution failed: binance API error"%string] /\
    trace w' = trace w ++ [DbSaveOrder (clock w) executing;
                           CallExecuteTrade executing false;
                           DbSaveOrder (clock w + 2) failed] /\
    CanTransitionTo executing StatusFailed = true /\
    find (fun r => String.eqb (ID r) orderID) (orders (db w')) = Some failed /\
    Status failed = StatusFailed /\
    (forall target, CanTransitionTo failed target = false) /\
    (forall env', fst (ProcessOrder env' orderID w') <> None /\
                  snd (ProcessOrder env' orderID w') = w').
Proof.
  intros env w orderID o Hfind Hid Hpending Hstore executing failed w' Hex.
  destruct (ProcessOrder_pending env w orderID o Hfind Hid Hpending Hstore)
    as [Hret [Htr [Hrows Hlog]]].
  fold executing in Hret, Htr, Hrows, Hlog.
  rewrite Hex in Hret, Htr, Hrows, Hlog. fold failed in Htr, Hrows.
  assert (Hstored : find (fun r => String.eqb (ID r) orderID)
                         (orders (db w')) = Some failed).
  { unfold w'. rewrite Hrows. apply find_last_write, Hfind. }
  split; [exact Hret|]. split.
  { destruct (find_has_order _ _ _ Hfind) as [Hido _].
    unfold worker_job, bind. rewrite Hido.
    destruct (ProcessOrder env orderID w) as [err w1] eqn:Hp.
    cbn [fst snd] in Hret, Hlog. subst err. cbn. rewrite (Hlog eq_refl).
    reflexivity. }
  split; [rewrite app_nil_r in Htr; exact Htr|].
  split; [reflexivity|]. split; [exact Hstored|]. split; [reflexivity|].
  split.
  - intros target. apply CanTransitionTo_terminal. right. reflexivity.
  - intros env'. apply ProcessOrder_not_allowed.
    intros o' Ho'. rewrite Hstored in Ho'. injection Ho' as <-.
    apply CanTransitionTo_terminal. right. reflexivity.
Qed.

Lemma ProcessOrder_exchange_failure_witness :
  Status order_O1 = StatusPending /\
  fst (ProcessOrder env_exchange_down "O1" world_O1_pending)
    = Some "trade execution failed: binance API error"%string /\
  find (fun r => String.eqb (ID r) "O1")
       (orders (db (snd (ProcessOrder env_exchange_down "O1"
                                      world_O1_pending))))
    = Some (set_UpdatedAt (set_Status order_O1 StatusFailed) 6).
Proof.
  split; [reflexivity|].
  destruct (ProcessOrder_exchange_failure env_exchange_down world_O1_pending
              "O1"%string order_O1)
    as [Hret [_ [_ [_ [Hstored _]]]]];
    try reflexivity; [discriminate|].
  split; [exact Hret | exact Hstored].
Defined.

(** C9. Every order row that a worker job writes carries the time of the
    write in [UpdatedAt]. On a stored PENDING order, with the store
    answering, the job writes the row twice, as EXECUTING and then as
    COMPLETED or FAILED, each time with [UpdatedAt] at the time of the
    write, and the row it leaves has the time of the last write. Before
    the COMPLETED and FAILED writes [ProcessOrder] assigns the field
    itself; before the EXECUTING write it does not, and the value comes
    from gorm's [Save], which stamps the tracked field on every update. *)
Theorem ProcessOrder_refreshes_UpdatedAt : forall env w orderID,
    let w' := snd (ProcessOrder env orderID w) in
    (exists new,
        trace w' = trace w ++ new /\
        forall t row, In (DbSaveOrder t row) new ->
                      UpdatedAt row = t /\ clock w <= t) /\
    (forall o,
        find (fun r => String.eqb (ID r) orderID) (orders (db w)) = Some o ->
        orderID <> ""%string ->
        Status o = StatusPending ->
        (forall op, db_ok env op = true) ->
        let executing :=
          set_UpdatedAt (set_Status o StatusExecuting) (clock w) in
        let last :=
          set_UpdatedAt (set_Status o (if exchange_ok env executing
                                       then StatusCompleted
                                       else StatusFailed)) (clock w + 2) in
        In (DbSaveOrder (clock w) executing) (trace w') /\
        In (DbSaveOrder (clock w + 2) last) (trace w') /\
        UpdatedAt executing = clock w /\
        UpdatedAt last = clock w + 2 /\
        find (fun r => String.eqb (ID r) orderID) (orders (db w'))
          = Some last).
Proof.
  intros env w orderID w'. split; [apply ProcessOrder_writes_stamped|].
  intros o Hfind Hid Hpending Hstore executing last.
  destruct (ProcessOrder_pending env w orderID o Hfind Hid Hpending Hstore)
    as [_ [Htr [Hrows _]]].
  fold executing in Htr, Hrows.
  unfold w'. rewrite Htr, Hrows.
  split; [apply in_or_app; right; apply in_or_app; left; cbn; auto|].
  split; [apply in_or_app; right; apply in_or_app; left; cbn; auto|].
  split; [reflexivity|]. split; [reflexivity|].
  apply find_last_write, Hfind.
Qed.

Lemma ProcessOrder_refreshes_UpdatedAt_witness :
  UpdatedAt order_O1 = 1 /\ clock world_O1_pending = 4 /\
  In (DbSaveOrder 4 (set_UpdatedAt (set_Status order_O1 StatusExecuting) 4))
     (trace (snd (ProcessOrder env_ok "O1" world_O1_pending))) /\
  In (DbSaveOrder 6 (set_UpdatedAt (set_Status order_O1 StatusCompleted) 6))
     (trace (snd (ProcessOrder env_ok "O1" world_O1_pending))) /\
  find (fun r => String.eqb (ID r) "O1")
       (orders (db (snd (ProcessOrder env_ok "O1" world_O1_pending))))
    = Some (set_UpdatedAt (set_Status order_O1 StatusCompleted) 6).
Proof.
  split; [reflexivity|]. split; [reflexivity|].
  destruct (ProcessOrder_refreshes_UpdatedAt env_ok world_O1_pending
              "O1"%string) as [_ H].
  destruct (H order_O1) as [H1 [H2 [_ [_ H3]]]];
    try reflexivity; [discriminate|].
  split; [exact H1|]. split; [exact H2 | exact H3].
Defined.

(** ** Scenarios for the relay *)

Lemma relay_cycle_publishes_oldest_first_witness :
  outbox_events (db world_three_rows) = [ev_t3; ev_done; ev_t1; ev_t2] /\
  trace (snd (relay_cycle env_ok world_three_rows))
    = map (publish_call env_ok) [ev_t1; ev_t2; ev_t3].
Proof.
  split; [reflexivity|].
  destruct (relay_cycle_publishes_oldest_first env_ok world_three_rows)
    as [_ [Htr [_ H3]]].
  assert (Hbatch : fst (fst (GetUnprocessedOutboxEvents env_ok 100
                                                      world_three_rows))
                   = [ev_t1; ev_t2; ev_t3]).
  { apply H3.
    - reflexivity.
    - apply perm_trans with (l' := [ev_t1; ev_t3; ev_t2]).
      + apply perm_swap.
      + apply perm_skip, perm_swap.
    - cbn. lia.
    - cbn. lia. }
  rewrite Htr, Hbatch. reflexivity.
Defined.

(** C5. The relay does not read the configured batch size: [main] starts
    it from the outbox settings with the poll interval only, and every
    cycle fetches with the constant 100. With [batch_size: 2] and three
    unprocessed rows in the table, one cycle fetches and publishes all
    three of them, oldest first: more rows than the configured batch
    size. Whatever the setting is, the relay does the same. *)
Theorem relay_cycle_ignores_batch_size :
  let w' := snd (main_StartOutboxRelay config_batch_of_two [env_ok]
                                       world_three_rows) in
  BatchSize config_batch_of_two = 2 /\
  filter unprocessed (outbox_events (db world_three_rows))
  = [ev_t3; ev_t1; ev_t2] /\
  trace w' = map (publish_call env_ok) [ev_t1; ev_t2; ev_t3] /\
  Z.of_nat (length (trace w')) > BatchSize config_batch_of_two /\
  forall cfg n ticks w,
    main_StartOutboxRelay (mkOutboxConfig (PollIntervalMs cfg) n) ticks w
    = main_StartOutboxRelay cfg ticks w.
Proof.
  cbv zeta. split; [reflexivity|]. split; [reflexivity|].
  assert (Htr : trace (snd (main_StartOutboxRelay config_batch_of_two
                              [env_ok] world_three_rows))
                = map (publish_call env_ok) [ev_t1; ev_t2; ev_t3])
    by (vm_compute; reflexivity).
  split; [exact Htr|]. split; [rewrite Htr; cbn; lia|].
  intros cfg n ticks w. reflexivity.
Qed.

Lemma relay_cycle_failure_isolation_witness :
  publish_event_ok (env_publish_fails 3) ev_t2 = false /\
  (exists t1 t3,
      In (mark_processed t1 ev_t1)
         (outbox_events (db (snd (relay_cycle (env_publish_fails 3)
                                              world_three_rows)))) /\
      In ev_t2
         (outbox_events (db (snd (relay_cycle (env_publish_fails 3)
                                              world_three_rows)))) /\
      Processed ev_t2 = false /\
      In (mark_processed t3 ev_t3)
         (outbox_events (db (snd (relay_cycle (env_publish_fails 3)
                                              world_three_rows))))) /\
  relay_fetch 100
    (outbox_events (db (snd (relay_cycle (env_publish_fails 3)
                                         world_three_rows))))
    = [ev_t2].
Proof.
  split; [reflexivity|]. split; [|reflexivity].
  assert (Hnd : NoDup (map EventID (outbox_events (db world_three_rows)))).
  { cbn. repeat constructor; cbn; intuition discriminate. }
  destruct (relay_cycle_failure_isolation (env_publish_fails 3)
              world_three_rows Hnd eq_refl) as [_ [_ [_ H3]]].
  apply (H3 ev_t1 ev_t2 ev_t3); reflexivity.
Defined.

Lemma processed_only_after_delivery_witness :
  let s := run sample_Marshal
               [ActCreateOrder env_ok (Some req_O1);
                ActRelayFetch env_ok; ActRelayEvent env_ok] initial in
  exists r,
    outbox_events (db (world s)) = [r] /\ Processed r = true /\
    exists e t,
      In (CallPublishGenericEvent "nexus.events" (AggregateID e) e true)
         (trace (world s)) /\
      r = mark_processed t e.
Proof.
  cbv zeta.
  set (s := run sample_Marshal
                [ActCreateOrder env_ok (Some req_O1);
                 ActRelayFetch env_ok; ActRelayEvent env_ok] initial).
  assert (Hs : reachable sample_Marshal s) by (eexists; reflexivity).
  exists (mark_processed 5
            (mkOutboxEvent 1 "Order" "O1" "OrderSubmitted"
                           "order O1 BTCUSDT PENDING" false 3 None)).
  split; [reflexivity|]. split; [reflexivity|].
  apply (processed_only_after_delivery sample_Marshal s Hs).
  - left. reflexivity.
  - reflexivity.
Defined.

(* ================================================================== *)
(** * Further properties: the life of an order                         *)
(* ================================================================== *)

(** X1. Along any chain of transitions that [CanTransitionTo] allows, an
    order changes status at most twice and never comes back to a status
    it has left; a chain of two steps starts at PENDING, passes through
    EXECUTING and ends at COMPLETED or FAILED. *)
Theorem allowed_chain_at_most_two : forall o statuses,
    allowed_chain o statuses ->
    (length statuses <= 2)%nat /\
    NoDup (Status o :: statuses) /\
    (forall s1 s2, statuses = [s1; s2] ->
                   Status o = StatusPending /\ s1 = StatusExecuting /\
                   (s2 = StatusCompleted \/ s2 = StatusFailed)).
Proof.
  intros o statuses H.
  destruct statuses as [|s1 [|s2 [|s3 rest]]]; cbn [allowed_chain] in H.
  - split; [cbn; lia|]. split; [repeat constructor; cbn; tauto|].
    intros; discriminate.
  - destruct H as [H1 _]. apply CanTransitionTo_iff in H1.
    split; [cbn; lia|]. split; [|intros; discriminate].
    repeat constructor; cbn; try tauto.
    intros [E|[]].
    destruct H1 as [[A B]|[[A B]|[[A B]|[A B]]]];
      rewrite A, B in E; discriminate.
  - destruct H as [H1 [H2 _]].
    apply CanTransitionTo_iff in H1. apply CanTransitionTo_iff in H2.
    cbn [Status set_Status] in H2.
    assert (Hshape : Status o = StatusPending /\ s1 = StatusExecuting /\
                     (s2 = StatusCompleted \/ s2 = StatusFailed)).
    { destruct H1 as [[A B]|[[A B]|[[A B]|[A B]]]];
        destruct H2 as [[C D]|[[C D]|[[C D]|[C D]]]];
        subst s1; try discriminate; auto. }
    split; [cbn; lia|]. split.
    + destruct Hshape as [A [B C]]. rewrite A, B.
      destruct C as [C|C]; rewrite C;
        repeat constructor; cbn; intuition discriminate.
    + intros t1 t2 E. injection E as <- <-. exact Hshape.
  - exfalso. destruct H as [H1 [H2 [H3 _]]].
    apply CanTransitionTo_iff in H1. apply CanTransitionTo_iff in H2.
    apply CanTransitionTo_iff in H3. cbn [Status set_Status] in H2, H3.
    destruct H2 as [[C D]|[[C D]|[[C D]|[C D]]]];
      destruct H3 as [[E F]|[[E F]|[[E F]|[E F]]]];
      subst s2; try discriminate;
      destruct H1 as [[A B]|[[A B]|[[A B]|[A B]]]];
      subst s1; discriminate.
Qed.

Lemma allowed_chain_at_most_two_witness :
  allowed_chain order_O1 [StatusExecuting; StatusCompleted] /\
  NoDup (Status order_O1 :: [StatusExecuting; StatusCompleted]).
Proof.
  assert (H : allowed_chain order_O1 [StatusExecuting; StatusCompleted]).
  { cbn. auto. }
  split; [exact H|].
  exact (proj1 (proj2 (allowed_chain_at_most_two order_O1 _ H))).
Defined.

(* ================================================================== *)
(** * Further properties: the configuration                            *)
(* ================================================================== *)

Lemma string_of_rune_digit : forall d s,
    0 <= d <= 9 ->
    NilEmpty.uint_of_string (string_of_rune (48 + d) ++ s)%string
    = match NilEmpty.uint_of_string s with
      | Some u => Some (decimal_digit d u)
      | None => None
      end.
Proof.
  intros d s Hd. unfold string_of_rune. cbn [append NilEmpty.uint_of_string].
  destruct (NilEmpty.uint_of_string s) as [u|].
  - let H := fresh in each_digit d H.
  - let H := fresh in each_digit d H.
Qed.

Lemma revapp_decimal_digit : forall d u v,
    0 <= d <= 9 ->
    Decimal.revapp (decimal_digit d u) v = Decimal.revapp u (decimal_digit d v).
Proof. intros d u v Hd. let H := fresh in each_digit d H. Qed.

Lemma of_lu_decimal_digit : forall d u,
    0 <= d <= 9 ->
    Z.of_N (Unsigned.of_lu (decimal_digit d u))
    = d + 10 * Z.of_N (Unsigned.of_lu u).
Proof.
  intros d u Hd.
  assert (H : Unsigned.of_lu (decimal_digit d u)
              = (Z.to_N d + 10 * Unsigned.of_lu u)%N).
  { let H := fresh in each_digit d H. }
  rewrite H. lia.
Qed.

Lemma itoa_decimal : forall i,
    0 <= i <= 9999 ->
    option_map Z.of_uint (NilEmpty.uint_of_string (itoa i)) = Some i.
Proof.
  intros i Hi. unfold itoa.
  rewrite !Z.quot_div_nonneg, !Z.rem_mod_nonneg by
      (try apply Z.div_pos; lia).
  assert (Ha : 0 <= i / 1000 mod 10 <= 9)
    by (pose proof (Z.mod_pos_bound (i / 1000) 10); lia).
  assert (Hb : 0 <= i / 100 mod 10 <= 9)
    by (pose proof (Z.mod_pos_bound (i / 100) 10); lia).
  assert (Hc : 0 <= i / 10 mod 10 <= 9)
    by (pose proof (Z.mod_pos_bound (i / 10) 10); lia).
  assert (Hd : 0 <= i mod 10 <= 9)
    by (pose proof (Z.mod_pos_bound i 10); lia).
  replace (string_of_rune (48 + i mod 10))
    with (string_of_rune (48 + i mod 10) ++ "")%string
    by (unfold string_of_rune; reflexivity).
  rewrite !string_of_rune_digit by assumption.
  cbn [NilEmpty.uint_of_string option_map]. f_equal.
  unfold Z.of_uint. rewrite Unsigned.of_uint_alt. unfold Decimal.rev.
  rewrite !revapp_decimal_digit by assumption. cbn [Decimal.revapp].
  rewrite !of_lu_decimal_digit by assumption. cbn [Unsigned.of_lu].
  Z.div_mod_to_equations. lia.
Qed.

Lemma itoa_mod : forall i, 0 <= i -> itoa i = itoa (i mod 10000).
Proof.
  intros i Hi. unfold itoa.
  assert (Hm : 0 <= i mod 10000 < 10000) by (apply Z.mod_pos_bound; lia).
  rewrite !Z.quot_div_nonneg, !Z.rem_mod_nonneg by
      (try apply Z.div_pos; lia).
  replace ((i mod 10000) / 1000 mod 10) with (i / 1000 mod 10)
    by (Z.div_mod_to_equations; lia).
  replace ((i mod 10000) / 100 mod 10) with (i / 100 mod 10)
    by (Z.div_mod_to_equations; lia).
  replace ((i mod 10000) / 10 mod 10) with (i / 10 mod 10)
    by (Z.div_mod_to_equations; lia).
  replace ((i mod 10000) mod 10) with (i mod 10)
    by (Z.div_mod_to_equations; lia).
  reflexivity.
Qed.

(** X2. [itoa] always yields four bytes. For 0 <= i <= 9999 they are the
    decimal digits of [i], padded with zeros: read back as a decimal
    number they give [i]. Above 9999 the leading digits are dropped, so
    [DSN] writes a port such as 15432 as 5432. *)
Theorem itoa_four_digits :
  (forall i, String.length (itoa i) = 4%nat) /\
  (forall i, 0 <= i <= 9999 ->
             option_map Z.of_uint (NilEmpty.uint_of_string (itoa i))
             = Some i) /\
  (forall i, 0 <= i -> itoa i = itoa (i mod 10000)) /\
  (forall d port,
      0 <= Port d ->
      port = Port d mod 10000 ->
      DSN d = DSN (mkDatabaseConfig (Host d) port (Username d) (Password d)
                                    (Name d) (MaxOpenConns d)
                                    (MaxIdleConns d) (SSLMode d))).
Proof.
  split; [reflexivity|]. split; [|split; [exact itoa_mod|]].
  - exact itoa_decimal.
  - intros d port Hp Hport. unfold DSN. cbn [Host Port Username Password Name SSLMode].
    rewrite Hport, <- itoa_mod by exact Hp. reflexivity.
Qed.

Lemma substring_all : forall s t,
    substring 0 (String.length s) (s ++ t)%string = s.
Proof.
  induction s as [|a s IH]; intros t; cbn.
  - destruct t; reflexivity.
  - rewrite IH. reflexivity.
Qed.

Lemma length_append : forall s t,
    String.length (s ++ t)%string = (String.length s + String.length t)%nat.
Proof. induction s as [|a s IH]; intros t; cbn; [|rewrite IH]; reflexivity. Qed.

Lemma substring_skip : forall s t n,
    substring (String.length s) n (s ++ t)%string = substring 0 n t.
Proof. induction s as [|a s IH]; intros t n; cbn; [reflexivity | apply IH]. Qed.

Lemma HasSuffix_append : forall s t, HasSuffix (s ++ t)%string t = true.
Proof.
  intros s t. unfold HasSuffix. rewrite length_append.
  apply andb_true_intro. split; [apply Nat.leb_le; lia|].
  replace (String.length s + String.length t - String.length t)%nat
    with (String.length s) by lia.
  rewrite substring_skip.
  replace t with (t ++ "")%string at 2.
  - rewrite substring_all. apply String.eqb_refl.
  - clear. induction t as [|a t IH]; cbn; [|rewrite IH]; reflexivity.
Qed.

(** A string that ends with the byte [}] is some string followed by it. *)
Lemma HasSuffix_brace : forall s,
    HasSuffix s "}" = true -> exists name, s = (name ++ "}")%string.
Proof.
  induction s as [|a s IH]; intros H.
  - discriminate.
  - destruct s as [|b s'].
    + unfold HasSuffix in H. cbn in H.
      destruct (Ascii.eqb_spec a "}"%char) as [E|E]; [|discriminate].
      subst a. exists ""%string. reflexivity.
    + destruct IH as [name Hname].
      * unfold HasSuffix in *. cbn [String.length] in *.
        apply andb_true_iff in H. destruct H as [_ H].
        apply andb_true_intro. split; [reflexivity|].
        replace (S (S (String.length s')) - 1)%nat
          with (S (String.length s' - 0))%nat in H by lia.
        replace (S (String.length s') - 1)%nat
          with (String.length s' - 0)%nat by lia.
        exact H.
      * exists (String a name). cbn. rewrite <- Hname. reflexivity.
Qed.

(** X3. [expandEnvVar] replaces a value that is, as a whole, [${name}]
    by the environment variable [name], for any [name]; every other value
    is returned as it is, also one that contains such a reference among
    other text. *)
Theorem expandEnvVar_whole_reference : forall getenv,
    (forall name,
        expandEnvVar getenv ("${" ++ name ++ "}")%string = getenv name) /\
    (forall value,
        (forall name, value <> ("${" ++ name ++ "}")%string) ->
        expandEnvVar getenv value = value).
Proof.
  intros getenv. split.
  - intros name. unfold expandEnvVar.
    assert (Hs : HasSuffix ("${" ++ name ++ "}")%string "}" = true).
    { apply (HasSuffix_append ("${" ++ name)%string "}"%string). }
    change ("${" ++ name ++ "}")%string
      with (String "$" (String "{" (name ++ "}")))%string in *.
    rewrite Hs.
    assert (Hp : HasPrefix (String "$" (String "{" (name ++ "}"))) "${"
                 = true).
    { unfold HasPrefix. apply prefix_correct. cbn.
      destruct (name ++ "}")%string; reflexivity. }
    rewrite Hp. cbn [andb String.length].
    rewrite length_append. cbn [String.length].
    replace (S (S (String.length name + 1)) - 1 - 2)%nat
      with (String.length name) by lia.
    cbn [substring]. rewrite substring_all. reflexivity.
  - intros value Hno. unfold expandEnvVar.
    destruct (HasPrefix value "${") eqn:Hp; [|reflexivity].
    destruct (HasSuffix value "}") eqn:Hs; [|reflexivity].
    exfalso. unfold HasPrefix in Hp.
    destruct value as [|a [|b rest]]; cbn [String.prefix] in Hp;
      try discriminate.
    + destruct (ascii_dec "$" a); discriminate.
    + destruct (ascii_dec "$" a) as [Ea|]; [|discriminate].
      destruct (ascii_dec "{" b) as [Eb|]; [|discriminate].
      subst a b.
      destruct rest as [|c rest'].
      * discriminate.
      * assert (Hs' : HasSuffix (String c rest') "}" = true).
        { unfold HasSuffix in *. cbn [String.length] in *.
          apply andb_true_iff in Hs. destruct Hs as [_ Hs].
          apply andb_true_intro. split; [reflexivity|].
          replace (S (S (S (String.length rest'))) - 1)%nat
            with (S (S (String.length rest' - 0)))%nat in Hs by lia.
          replace (S (String.length rest') - 1)%nat
            with (String.length rest' - 0)%nat by lia.
          exact Hs. }
        destruct (HasSuffix_brace _ Hs') as [name Hname].
        apply (Hno name). rewrite <- Hname. reflexivity.
Qed.

Lemma expandEnvVar_whole_reference_witness :
  expandEnvVar (fun _ => "from the environment"%string) "secure_password"
  = "secure_password"%string.
Proof.
  apply (proj2 (expandEnvVar_whole_reference
                  (fun _ => "from the environment"%string))).
  intros name H. discriminate.
Defined.

(** X4. For a [poll_interval_ms] between -9223372036854 and
    9223372036854 the conversion to nanoseconds does not overflow:
    [PollInterval] is that many milliseconds, positive exactly when the
    setting is. *)
Theorem PollInterval_exact : forall o,
    -9223372036854 <= PollIntervalMs o <= 9223372036854 ->
    PollInterval o = PollIntervalMs o * 1000000 /\
    (0 < PollInterval o <-> 0 < PollIntervalMs o).
Proof.
  intros o H. unfold PollInterval, wrap_int64, Millisecond.
  rewrite Z.mod_small by lia. split; lia.
Qed.

Lemma PollInterval_exact_witness :
  PollInterval (mkOutboxConfig 500 100) = 500000000.
Proof.
  apply (proj1 (PollInterval_exact (mkOutboxConfig 500 100)
                  ltac:(cbn; lia))).
Defined.

(* ================================================================== *)
(** * Further properties: the worker                                   *)
(* ================================================================== *)

Lemma UpdateOrder_refused : forall env o w,
    nonempty (ID o) = true ->
    db_ok env (OpSaveOrder o) = false ->
    UpdateOrder env o w
    = ((set_UpdatedAt o (clock w), ErrStorage),
       mkWorld (db w) (clock w + 1) (trace w) (errlog w)).
Proof.
  intros env o w Hne Hdb.
  unfold UpdateOrder, gorm_Save_Order, bind, time_Now, get_db, ret.
  rewrite Hne, Hdb. reflexivity.
Qed.

Lemma UpdateOrder_empty_id : forall env o w,
    nonempty (ID o) = false ->
    has_order (ID o) (orders (db w)) = true ->
    is_nil (snd (fst (UpdateOrder env o w))) = false /\
    db (snd (UpdateOrder env o w)) = db w /\
    trace (snd (UpdateOrder env o w)) = trace w.
Proof.
  intros env o w Hne Hhas.
  unfold UpdateOrder, gorm_Save_Order, gorm_Create_Order, bind, time_Now,
    get_db, put_db, ret.
  rewrite Hne. cbn [db ID set_UpdatedAt set_CreatedAt orders].
  destruct (db_ok env (OpCreateOrder o)); cbn [negb]; [|auto].
  rewrite Hhas. auto.
Qed.

Lemma update_rows_twice : forall a b rows,
    ID a = ID b ->
    update_rows b (update_rows a rows) = update_rows b rows.
Proof.
  intros a b rows Hab. unfold update_rows. rewrite map_map.
  apply map_ext. intros r. rewrite Hab.
  destruct (String.eqb (ID r) (ID b)) eqn:E; [|rewrite E; reflexivity].
  rewrite <- Hab, String.eqb_refl. reflexivity.
Qed.

(** All the ways a job can go. Either it returns an error having written
    nothing and called no one; or the order was stored as PENDING under
    a non-empty id and was written as EXECUTING, the exchange was called,
    and the last write either failed (the job returns an error) or
    stored COMPLETED or FAILED by the answer of the exchange. *)
Lemma ProcessOrder_cases : forall env orderID w,
    let r := ProcessOrder env orderID w in
    (fst r <> None /\ orders (db (snd r)) = orders (db w) /\
     trace (snd r) = trace w) \/
    exists o,
      find (fun x => String.eqb (ID x) orderID) (orders (db w)) = Some o /\
      Status o = StatusPending /\ orderID <> ""%string /\
      let executing := set_UpdatedAt (set_Status o StatusExecuting) (clock w) in
      let ok := exchange_ok env executing in
      let last := set_UpdatedAt
                    (set_Status o (if ok then StatusCompleted
                                   else StatusFailed)) (clock w + 2) in
      (fst r <> None /\
       orders (db (snd r)) = update_rows executing (orders (db w)) /\
       trace (snd r) = trace w ++ [DbSaveOrder (clock w) executing;
                                   CallExecuteTrade executing ok]) \/
      (fst r = (if ok then None
                else Some "trade execution failed: binance API error"%string) /\
       orders (db (snd r)) = update_rows last (orders (db w)) /\
       trace (snd r) = trace w ++ [DbSaveOrder (clock w) executing;
                                   CallExecuteTrade executing ok;
                                   DbSaveOrder (clock w + 2) last]
                               ++ (if ok
                                   then [CallPublishOrderEvent last
                                           (publish_order_ok env last)]
                                   else [])).
Proof.
  intros env orderID w. cbv zeta.
  unfold ProcessOrder, GetOrder, bind, get_db, ret. cbv beta iota.
  destruct (db_ok env (OpGetOrder orderID)); cbn [negb]; cbv beta iota.
  2:{ left. cbn. split; [discriminate | split; reflexivity]. }
  destruct (find (fun x => String.eqb (ID x) orderID) (orders (db w)))
    as [o|] eqn:Hfind.
  2:{ left. cbn. split; [discriminate | split; reflexivity]. }
  cbv beta iota.
  destruct (CanTransitionTo o StatusExecuting) eqn:Hcan; cbn [negb];
    cbv beta iota;
    [|left; cbn [fst snd]; split; [discriminate | split; reflexivity]].
  destruct (find_has_order _ _ _ Hfind) as [Hido Hhas].
  assert (Hpending : Status o = StatusPending).
  { apply CanTransitionTo_iff in Hcan.
    destruct Hcan as [[A _]|[[A _]|[[_ B]|[_ B]]]]; try exact A; discriminate. }
  destruct (nonempty (ID o)) eqn:Hne.
  2:{ left.
      destruct (UpdateOrder_empty_id env (set_Status o StatusExecuting) w)
        as [He [Hd Ht]]; [exact Hne | cbn [ID set_Status]; rewrite Hido; exact Hhas|].
      destruct (UpdateOrder env (set_Status o StatusExecuting) w)
        as [[o1 e1] w1]. cbn [fst snd] in *.
      rewrite He. cbn [negb]. cbn [fst snd]. rewrite Hd, Ht.
      destruct e1; [|discriminate]. cbn. split; [discriminate | split; reflexivity]. }
  assert (Hid : orderID <> ""%string).
  { intros E. rewrite E in Hido. rewrite Hido in Hne. discriminate. }
  destruct (db_ok env (OpSaveOrder (set_Status o StatusExecuting))) eqn:Hs1.
  2:{ left. rewrite UpdateOrder_refused by assumption.
      cbn. split; [discriminate | split; reflexivity]. }
  right. exists o. split; [reflexivity|]. split; [exact Hpending|].
  split; [exact Hid|].
  rewrite UpdateOrder_ok;
    [| exact Hne | exact Hs1 | cbn [ID set_Status]; rewrite Hido; exact Hhas].
  cbn [negb is_nil]. rewrite ExecuteTrade_eq.
  set (executing := set_UpdatedAt (set_Status o StatusExecuting) (clock w)).
  assert (Hhas2 : forall s t,
             has_order (ID (set_UpdatedAt (set_Status executing s) t))
                       (orders (db (saved (set_Status o StatusExecuting) w)))
             = true).
  { intros s t. cbn [ID set_UpdatedAt set_Status db orders saved].
    change (ID o) with (ID executing).
    rewrite has_order_update_rows.
    cbn [ID executing set_UpdatedAt set_Status]. rewrite Hido. exact Hhas. }
  destruct (exchange_ok env executing); cbn [negb is_nil]; unfold time_Now.
  - (* the exchange accepted the trade *)
    match goal with
    | |- context [UpdateOrder env ?x ?y] =>
        destruct (db_ok env (OpSaveOrder x)) eqn:Hs2
    end.
    + right.
      rewrite UpdateOrder_ok; [| exact Hne | exact Hs2 | apply Hhas2].
      unfold PublishOrderEvent, bind, time_Now, record, ret, logger_Error,
        executing.
      cbn. replace (clock w + 1 + 1) with (clock w + 2) by lia.
      rewrite <- (update_rows_twice
                    (set_UpdatedAt (set_Status o StatusExecuting) (clock w))
                    (set_UpdatedAt (set_Status o StatusCompleted) (clock w + 2)))
        by reflexivity.
      destruct (publish_order_ok env _);
        cbn; rewrite <- ?app_assoc; repeat split; reflexivity.
    + left. rewrite UpdateOrder_refused by assumption.
      cbn. rewrite <- app_assoc. split; [discriminate | split; reflexivity].
  - (* the exchange refused it *)
    match goal with
    | |- context [UpdateOrder env ?x ?y] =>
        destruct (db_ok env (OpSaveOrder x)) eqn:Hs2
    end.
    + right.
      rewrite UpdateOrder_ok; [| exact Hne | exact Hs2 | apply Hhas2].
      unfold executing.
      cbn. replace (clock w + 1 + 1) with (clock w + 2) by lia.
      rewrite <- (update_rows_twice
                    (set_UpdatedAt (set_Status o StatusExecuting) (clock w))
                    (set_UpdatedAt (set_Status o StatusFailed) (clock w + 2)))
        by reflexivity.
      rewrite <- ?app_assoc. repeat split; reflexivity.
    + left. rewrite UpdateOrder_refused by assumption.
      cbn. rewrite <- app_assoc. split; [discriminate | split; reflexivity].
Qed.

Lemma find_update_rows_other : forall x id rows,
    ID x <> id ->
    find (fun r => String.eqb (ID r) id) (update_rows x rows)
    = find (fun r => String.eqb (ID r) id) rows.
Proof.
  intros x id rows Hne. induction rows as [|r rows IH]; cbn; [reflexivity|].
  destruct (String.eqb_spec (ID r) (ID x)) as [E|E].
  - assert (Hx : String.eqb (ID x) id = false) by (apply String.eqb_neq, Hne).
    rewrite Hx.
    assert (Hr : String.eqb (ID r) id = false)
      by (apply String.eqb_neq; congruence).
    rewrite Hr. exact IH.
  - destruct (String.eqb (ID r) id); [reflexivity | exact IH].
Qed.

Lemma ProcessOrder_outbox : forall env orderID w,
    outbox_events (db (snd (ProcessOrder env orderID w)))
    = outbox_events (db w) /\
    outbox_seq (db (snd (ProcessOrder env orderID w))) = outbox_seq (db w).
Proof.
  intros env orderID w.
  unfold ProcessOrder, GetOrder, UpdateOrder, gorm_Save_Order,
    gorm_Create_Order, ExecuteTrade, PublishOrderEvent. run_go.
  split_ifs; split; reflexivity.
Qed.

(** X5. A job on an order id that has no row, or whose row is not
    PENDING, returns an error and leaves the store, the trace of calls
    and the log as they were: nothing is written and neither the exchange
    nor the broker is called. *)
Theorem ProcessOrder_only_pending : forall env orderID w,
    (forall o, find (fun r => String.eqb (ID r) orderID) (orders (db w))
               = Some o -> Status o <> StatusPending) ->
    fst (ProcessOrder env orderID w) <> None /\
    snd (ProcessOrder env orderID w) = w.
Proof.
  intros env orderID w H. apply ProcessOrder_not_allowed.
  intros o Ho. apply CanTransitionTo_false_iff.
  intros [[A _]|[[A _]|[[_ B]|[_ B]]]];
    try discriminate; exact (H o Ho A).
Qed.

Lemma ProcessOrder_only_pending_witness :
  let w := snd (ProcessOrder env_ok "O1" world_O1_pending) in
  fst (ProcessOrder env_ok "O1" w) <> None /\
  snd (ProcessOrder env_ok "O1" w) = w.
Proof.
  cbv zeta. apply ProcessOrder_only_pending.
  intros o Ho. vm_compute in Ho. injection Ho as <-. discriminate.
Defined.

(** X6. A job returns nil only when the exchange accepted the trade and
    the order is stored as COMPLETED: it was PENDING, was written as
    EXECUTING before the exchange was called, and the row found under its
    id afterwards has status COMPLETED. *)
Theorem ProcessOrder_nil_means_completed : forall env orderID w,
    fst (ProcessOrder env orderID w) = None ->
    exists o,
      find (fun r => String.eqb (ID r) orderID) (orders (db w)) = Some o /\
      Status o = StatusPending /\
      let executing := set_UpdatedAt (set_Status o StatusExecuting) (clock w) in
      let completed :=
        set_UpdatedAt (set_Status o StatusCompleted) (clock w + 2) in
      In (DbSaveOrder (clock w) executing)
         (trace (snd (ProcessOrder env orderID w))) /\
      In (CallExecuteTrade executing true)
         (trace (snd (ProcessOrder env orderID w))) /\
      find (fun r => String.eqb (ID r) orderID)
           (orders (db (snd (ProcessOrder env orderID w)))) = Some completed.
Proof.
  intros env orderID w Hnil.
  destruct (ProcessOrder_cases env orderID w) as [[He _]|[o [Hfind [Hp [Hid H]]]]];
    [contradiction|].
  exists o. split; [exact Hfind|]. split; [exact Hp|]. cbv zeta in *.
  destruct H as [[He _]|[Hr [Hrows Htr]]]; [contradiction|].
  destruct (exchange_ok env (set_UpdatedAt (set_Status o StatusExecuting)
                                           (clock w))) eqn:Hok.
  2:{ rewrite Hnil in Hr. discriminate. }
  rewrite Htr, Hrows.
  split; [apply in_or_app; right; cbn; auto|].
  split; [apply in_or_app; right; cbn; auto|].
  destruct (find_has_order _ _ _ Hfind) as [Hido Hhas].
  rewrite <- Hido.
  change (ID o) with (ID (set_UpdatedAt (set_Status o StatusCompleted)
                                        (clock w + 2))).
  apply find_update_rows. cbn [ID set_UpdatedAt set_Status].
  rewrite Hido. exact Hhas.
Qed.

Lemma ProcessOrder_nil_means_completed_witness :
  fst (ProcessOrder env_ok "O1" world_O1_pending) = None /\
  exists o,
    find (fun r => String.eqb (ID r) "O1") (orders (db world_O1_pending))
      = Some o /\
    find (fun r => String.eqb (ID r) "O1")
         (orders (db (snd (ProcessOrder env_ok "O1" world_O1_pending))))
      = Some (set_UpdatedAt (set_Status o StatusCompleted)
                            (clock world_O1_pending + 2)).
Proof.
  assert (H : fst (ProcessOrder env_ok "O1" world_O1_pending) = None)
    by reflexivity.
  split; [exact H|].
  destruct (ProcessOrder_nil_means_completed env_ok "O1"%string
              world_O1_pending H) as [o [Hf [_ [_ [_ Hc]]]]].
  exists o. split; [exact Hf | exact Hc].
Defined.

(** The rows a job touches. *)
Lemma ProcessOrder_rows : forall env orderID w,
    let w' := snd (ProcessOrder env orderID w) in
    outbox_events (db w') = outbox_events (db w) /\
    outbox_seq (db w') = outbox_seq (db w) /\
    (orders (db w') = orders (db w) \/
     exists o o',
       find (fun r => String.eqb (ID r) orderID) (orders (db w)) = Some o /\
       Status o = StatusPending /\
       same_order_but_status o o' /\
       (Status o' = StatusExecuting \/ Status o' = StatusCompleted \/
        Status o' = StatusFailed) /\
       clock w <= UpdatedAt o' /\
       orders (db w') = update_rows o' (orders (db w)) /\
       (forall r, In r (orders (db w)) -> ID r <> orderID ->
                  In r (orders (db w')))).
Proof.
  intros env orderID w. cbv zeta.
  destruct (ProcessOrder_outbox env orderID w) as [Ho Hs].
  split; [exact Ho|]. split; [exact Hs|].
  assert (Hother : forall o' : Order, ID o' = orderID ->
             forall r, In r (orders (db w)) -> ID r <> orderID ->
                       In r (update_rows o' (orders (db w)))).
  { intros o' Hid r Hin Hne. unfold update_rows. apply in_map_iff.
    exists r. split; [|exact Hin].
    destruct (String.eqb_spec (ID r) (ID o')); [congruence | reflexivity]. }
  destruct (ProcessOrder_cases env orderID w)
    as [[_ [Hrows _]]|[o [Hfind [Hp [Hid H]]]]]; [left; exact Hrows|].
  right. cbv zeta in H.
  destruct (find_has_order _ _ _ Hfind) as [Hido _].
  destruct H as [[_ [Hrows _]]|[_ [Hrows _]]].
  - exists o, (set_UpdatedAt (set_Status o StatusExecuting) (clock w)).
    rewrite Hrows. unfold same_order_but_status. cbn.
    repeat split; auto; try lia; try (apply Hother; exact Hido).
  - exists o, (set_UpdatedAt
                 (set_Status o (if exchange_ok env
                                     (set_UpdatedAt
                                        (set_Status o StatusExecuting)
                                        (clock w))
                                then StatusCompleted else StatusFailed))
                 (clock w + 2)).
    rewrite Hrows. unfold same_order_but_status. cbn.
    repeat split; auto; try lia; try (apply Hother; exact Hido).
    destruct (exchange_ok env _); auto.
Qed.

(** X7. Whatever the collaborators answer, a job never writes to
    [outbox_events], and in [orders] it changes at most the rows of its
    order id, which was PENDING: they get a status among EXECUTING,
    COMPLETED and FAILED and a new [UpdatedAt]; id, symbol, side, type,
    quantity, price and [CreatedAt] stay as they were, and so does every
    row of another id. *)
Theorem ProcessOrder_changes_only_status : forall env orderID w,
    let w' := snd (ProcessOrder env orderID w) in
    outbox_events (db w') = outbox_events (db w) /\
    outbox_seq (db w') = outbox_seq (db w) /\
    (orders (db w') = orders (db w) \/
     exists o o',
       find (fun r => String.eqb (ID r) orderID) (orders (db w)) = Some o /\
       Status o = StatusPending /\
       same_order_but_status o o' /\
       (Status o' = StatusExecuting \/ Status o' = StatusCompleted \/
        Status o' = StatusFailed) /\
       clock w <= UpdatedAt o' /\
       orders (db w') = update_rows o' (orders (db w)) /\
       (forall r, In r (orders (db w)) -> ID r <> orderID ->
                  In r (orders (db w')))).
Proof. exact ProcessOrder_rows. Qed.

Lemma ProcessOrder_changes_only_status_witness :
  orders (db (snd (ProcessOrder env_exchange_down "O1" world_O1_pending)))
  = [set_UpdatedAt (set_Status order_O1 StatusFailed) 6] /\
  outbox_events (db (snd (ProcessOrder env_exchange_down "O1"
                                       world_O1_pending)))
  = outbox_events (db world_O1_pending).
Proof.
  split; [reflexivity|].
  exact (proj1 (ProcessOrder_changes_only_status env_exchange_down
                  "O1"%string world_O1_pending)).
Defined.

(** X8. When the store refuses the write that follows the exchange call,
    the job returns an error and the order stays stored as EXECUTING,
    whether the trade was accepted or not; no later job moves it: each
    returns an error and changes nothing. *)
Theorem ProcessOrder_stuck_executing : forall env w orderID o,
    find (fun r => String.eqb (ID r) orderID) (orders (db w)) = Some o ->
    orderID <> ""%string ->
    Status o = StatusPending ->
    db_ok env (OpGetOrder orderID) = true ->
    db_ok env (OpSaveOrder (set_Status o StatusExecuting)) = true ->
    let executing := set_UpdatedAt (set_Status o StatusExecuting) (clock w) in
    let ok := exchange_ok env executing in
    db_ok env (OpSaveOrder
                 (set_UpdatedAt
                    (set_Status executing (if ok then StatusCompleted
                                           else StatusFailed))
                    (clock w + 1))) = false ->
    let w' := snd (ProcessOrder env orderID w) in
    fst (ProcessOrder env orderID w) <> None /\
    trace w' = trace w ++ [DbSaveOrder (clock w) executing;
                           CallExecuteTrade executing ok] /\
    find (fun r => String.eqb (ID r) orderID) (orders (db w'))
      = Some executing /\
    Status executing = StatusExecuting /\
    (forall env', fst (ProcessOrder env' orderID w') <> None /\
                  snd (ProcessOrder env' orderID w') = w').
Proof.
  intros env w orderID o Hfind Hid Hpending Hget Hs1 executing ok Hs2 w'.
  destruct (find_has_order _ _ _ Hfind) as [Hido Hhas].
  assert (Hne : nonempty (ID o) = true).
  { unfold nonempty. rewrite Hido. apply negb_true_iff, String.eqb_neq, Hid. }
  assert (Hcan : CanTransitionTo o StatusExecuting = true).
  { apply CanTransitionTo_iff. auto. }
  assert (Hrun : fst (ProcessOrder env orderID w) <> None /\
                 trace w' = trace w ++ [DbSaveOrder (clock w) executing;
                                        CallExecuteTrade executing ok] /\
                 orders (db w') = update_rows executing (orders (db w))).
  { unfold w', ProcessOrder, bind.
    rewrite (GetOrder_found env orderID w o Hget Hfind), Hcan.
    cbn [negb].
    rewrite UpdateOrder_ok;
      [| exact Hne | exact Hs1 | cbn [ID set_Status]; rewrite Hido; exact Hhas].
    cbn [negb is_nil]. rewrite ExecuteTrade_eq. fold executing. fold ok.
    unfold ok in Hs2 |- *.
    destruct (exchange_ok env executing); cbn [negb is_nil]; unfold time_Now;
      cbn [clock saved];
      (rewrite UpdateOrder_refused; [| exact Hne | exact Hs2]);
      cbn; rewrite <- app_assoc;
      (split; [discriminate | split; reflexivity]). }
  destruct Hrun as [Herr [Htr Hrows]].
  assert (Hstored : find (fun r => String.eqb (ID r) orderID)
                         (orders (db w')) = Some executing).
  { rewrite Hrows, <- Hido. change (ID o) with (ID executing).
    apply find_update_rows. cbn [ID executing set_UpdatedAt set_Status].
    rewrite Hido. exact Hhas. }
  split; [exact Herr|]. split; [exact Htr|]. split; [exact Hstored|].
  split; [reflexivity|].
  intros env'. apply ProcessOrder_not_allowed.
  intros o' Ho'. rewrite Hstored in Ho'. injection Ho' as <-. reflexivity.
Qed.

Lemma ProcessOrder_stuck_executing_witness :
  fst (ProcessOrder env_store_lost_after_trade "O1" world_O1_pending)
    <> None /\
  find (fun r => String.eqb (ID r) "O1")
       (orders (db (snd (ProcessOrder env_store_lost_after_trade "O1"
                                      world_O1_pending))))
    = Some (set_UpdatedAt (set_Status order_O1 StatusExecuting) 4).
Proof.
  destruct (ProcessOrder_stuck_executing env_store_lost_after_trade
              world_O1_pending "O1"%string order_O1)
    as [He [_ [Hs _]]]; try reflexivity; [discriminate|].
  split; [exact He | exact Hs].
Defined.

(** What a job on a stored PENDING order writes to the log, the store
    answering: nothing, but for the refusal of the completion event by
    the broker. *)
Lemma ProcessOrder_pending_errlog : forall env w orderID o,
    find (fun r => String.eqb (ID r) orderID) (orders (db w)) = Some o ->
    orderID <> ""%string ->
    Status o = StatusPending ->
    (forall op, db_ok env op = true) ->
    let executing := set_UpdatedAt (set_Status o StatusExecuting) (clock w) in
    let completed :=
      set_UpdatedAt (set_Status o StatusCompleted) (clock w + 2) in
    errlog (snd (ProcessOrder env orderID w))
    = errlog w
      ++ (if exchange_ok env executing && negb (publish_order_ok env completed)
          then ["Failed to publish order completion event: failed to publish order event"%string]
          else []).
Proof.
  intros env w orderID o Hfind Hid Hpending Hstore executing completed.
  destruct (find_has_order _ _ _ Hfind) as [Hido Hhas].
  assert (Hne : nonempty (ID o) = true).
  { unfold nonempty. rewrite Hido. apply negb_true_iff, String.eqb_neq, Hid. }
  assert (Hcan : CanTransitionTo o StatusExecuting = true).
  { apply CanTransitionTo_iff. auto. }
  assert (Hhas2 : forall s t,
             has_order (ID (set_UpdatedAt (set_Status executing s) t))
                       (orders (db (saved (set_Status o StatusExecuting) w)))
             = true).
  { intros s t. cbn [ID set_UpdatedAt set_Status db orders saved].
    change (ID o) with (ID executing).
    rewrite has_order_update_rows.
    cbn [ID executing set_UpdatedAt set_Status]. rewrite Hido. exact Hhas. }
  unfold ProcessOrder, bind.
  rewrite (GetOrder_found env orderID w o (Hstore _) Hfind), Hcan.
  cbn [negb].
  rewrite UpdateOrder_ok;
    [| exact Hne | apply Hstore | rewrite <- Hido in Hhas; exact Hhas].
  cbn [negb is_nil]. rewrite ExecuteTrade_eq. fold executing.
  destruct (exchange_ok env executing); cbn [negb is_nil andb];
    unfold time_Now;
    (rewrite UpdateOrder_ok; [| exact Hne | apply Hstore | apply Hhas2]);
    unfold PublishOrderEvent, bind, time_Now, record, ret, logger_Error,
      completed, executing;
    cbn; replace (clock w + 1 + 1) with (clock w + 2) by lia;
    try destruct (publish_order_ok env _);
    cbn; rewrite ?app_nil_r; reflexivity.
Qed.

(** X9. With the store answering and the trade accepted, the job returns
    nil and the order is stored as COMPLETED whatever the broker answers
    to the completion event: the event is offered to the broker once, a
    refusal is only logged, as one line and nothing else, and no row is
    added to [outbox_events] for it. *)
Theorem ProcessOrder_completes_despite_broker : forall env w orderID o,
    find (fun r => String.eqb (ID r) orderID) (orders (db w)) = Some o ->
    orderID <> ""%string ->
    Status o = StatusPending ->
    (forall op, db_ok env op = true) ->
    let executing := set_UpdatedAt (set_Status o StatusExecuting) (clock w) in
    let completed :=
      set_UpdatedAt (set_Status o StatusCompleted) (clock w + 2) in
    let w' := snd (ProcessOrder env orderID w) in
    exchange_ok env executing = true ->
    fst (ProcessOrder env orderID w) = None /\
    find (fun r => String.eqb (ID r) orderID) (orders (db w'))
      = Some completed /\
    trace w' = trace w ++ [DbSaveOrder (clock w) executing;
                           CallExecuteTrade executing true;
                           DbSaveOrder (clock w + 2) completed;
                           CallPublishOrderEvent completed
                             (publish_order_ok env completed)] /\
    outbox_events (db w') = outbox_events (db w) /\
    errlog w'
    = errlog w
      ++ (if publish_order_ok env completed then []
          else ["Failed to publish order completion event: failed to publish order event"%string]).
Proof.
  intros env w orderID o Hfind Hid Hpending Hstore executing completed w' Hex.
  destruct (ProcessOrder_pending env w orderID o Hfind Hid Hpending Hstore)
    as [Hret [Htr [Hrows _]]].
  fold executing in Hret, Htr, Hrows.
  rewrite Hex in Hret, Htr, Hrows. fold completed in Htr, Hrows.
  split; [exact Hret|]. split.
  { unfold w'. rewrite Hrows. apply find_last_write, Hfind. }
  split; [exact Htr|].
  split; [apply ProcessOrder_outbox|].
  unfold w'.
  rewrite (ProcessOrder_pending_errlog env w orderID o Hfind Hid Hpending
             Hstore).
  fold executing. fold completed. rewrite Hex. cbn [andb].
  destruct (publish_order_ok env completed); reflexivity.
Qed.

Lemma ProcessOrder_completes_despite_broker_witness :
  publish_order_ok env_broker_down
    (set_UpdatedAt (set_Status order_O1 StatusCompleted) 6) = false /\
  fst (ProcessOrder env_broker_down "O1" world_O1_pending) = None /\
  find (fun r => String.eqb (ID r) "O1")
       (orders (db (snd (ProcessOrder env_broker_down "O1"
                                      world_O1_pending))))
    = Some (set_UpdatedAt (set_Status order_O1 StatusCompleted) 6) /\
  errlog (snd (ProcessOrder env_broker_down "O1" world_O1_pending))
    = ["Failed to publish order completion event: failed to publish order event"%string].
Proof.
  split; [reflexivity|].
  destruct (ProcessOrder_completes_despite_broker env_broker_down
              world_O1_pending "O1"%string order_O1)
    as [Hr [Hs [_ [_ Hl]]]]; try reflexivity; [discriminate|].
  split; [exact Hr|]. split; [exact Hs | exact Hl].
Defined.

Lemma worker_job_as_ProcessOrder : forall env order w,
    trace (snd (worker_job env order w))
    = trace (snd (ProcessOrder env (ID order) w)) /\
    db (snd (worker_job env order w))
    = db (snd (ProcessOrder env (ID order) w)).
Proof.
  intros env order w. unfold worker_job, bind.
  destruct (ProcessOrder env (ID order) w) as [err w1].
  destruct err; cbn; auto.
Qed.

Lemma job_exchange_calls : forall env id2 w id,
    let w' := snd (ProcessOrder env id2 w) in
    exists new,
      trace w' = trace w ++ new /\
      (length (exchange_calls id new) <= 1)%nat /\
      (exchange_calls id new <> [] -> settled id w') /\
      (settled id w -> settled id w' /\ exchange_calls id new = []).
Proof.
  intros env id2 w id. cbv zeta.
  destruct (ProcessOrder_cases env id2 w)
    as [[_ [Hrows Htr]]|[o [Hfind [Hp [Hid2 H]]]]].
  - exists []. rewrite app_nil_r. split; [exact Htr|].
    split; [cbn; lia|]. split; [cbn; congruence|].
    intros Hs. split; [|reflexivity].
    unfold settled. rewrite Hrows. exact Hs.
  - cbv zeta in H.
    destruct (find_has_order _ _ _ Hfind) as [Hido Hhas].
    set (executing := set_UpdatedAt (set_Status o StatusExecuting) (clock w))
      in *.
    set (ok := exchange_ok env executing) in *.
    set (last := set_UpdatedAt
                   (set_Status o (if ok then StatusCompleted
                                  else StatusFailed)) (clock w + 2)) in *.
    assert (Hcalls : forall tail,
               (forall c, In c tail ->
                          match c with CallExecuteTrade _ _ => False
                                  | _ => True end) ->
               exchange_calls id ([DbSaveOrder (clock w) executing;
                                   CallExecuteTrade executing ok] ++ tail)
               = if String.eqb id2 id then [CallExecuteTrade executing ok]
                 else []).
    { intros tail Htail. unfold exchange_calls. cbn [app filter].
      cbn [ID executing set_UpdatedAt set_Status]. rewrite Hido.
      assert (Ht : filter (fun c => match c with
                                    | CallExecuteTrade o0 _ =>
                                        String.eqb (ID o0) id
                                    | _ => false end) tail = []).
      { clear - Htail. induction tail as [|c tail IH]; [reflexivity|].
        cbn. pose proof (Htail c (or_introl eq_refl)) as Hc.
        destruct c; try contradiction; apply IH;
          intros c' Hc'; apply Htail; right; exact Hc'. }
      rewrite Ht. destruct (String.eqb id2 id); reflexivity. }
    assert (Hsettle : forall x : Order,
               ID x = id2 -> Status x <> StatusPending ->
               forall rows', rows' = update_rows x (orders (db w)) ->
               (String.eqb id2 id = true ->
                exists o', find (fun r => String.eqb (ID r) id) rows'
                           = Some o' /\ Status o' <> StatusPending) /\
               (String.eqb id2 id = false ->
                find (fun r => String.eqb (ID r) id) rows'
                = find (fun r => String.eqb (ID r) id) (orders (db w)))).
    { intros x Hx Hsx rows' ->. split; intros E.
      - apply String.eqb_eq in E. subst id. exists x. split; [|exact Hsx].
        rewrite <- Hx. apply find_update_rows. rewrite Hx. exact Hhas.
      - apply String.eqb_neq in E. apply find_update_rows_other. congruence. }
    assert (Hfinish : forall (x : Order) tail,
               ID x = id2 -> Status x <> StatusPending ->
               (forall c, In c tail ->
                          match c with CallExecuteTrade _ _ => False
                                  | _ => True end) ->
               orders (db (snd (ProcessOrder env id2 w)))
               = update_rows x (orders (db w)) ->
               trace (snd (ProcessOrder env id2 w))
               = trace w ++ [DbSaveOrder (clock w) executing;
                             CallExecuteTrade executing ok] ++ tail ->
               exists new,
                 trace (snd (ProcessOrder env id2 w)) = trace w ++ new /\
                 (length (exchange_calls id new) <= 1)%nat /\
                 (exchange_calls id new <> [] ->
                  settled id (snd (ProcessOrder env id2 w))) /\
                 (settled id w ->
                  settled id (snd (ProcessOrder env id2 w)) /\
                  exchange_calls id new = [])).
    { intros x tail Hx Hsx Htail Hrows Htr.
      destruct (Hsettle x Hx Hsx _ Hrows) as [Hsame Hother].
      eexists. split; [exact Htr|]. rewrite (Hcalls tail Htail).
      destruct (String.eqb id2 id) eqn:E.
      - split; [cbn; lia|]. split; [intros _; apply Hsame; reflexivity|].
        intros [o0 [Ho0 Hs0]]. exfalso.
        apply String.eqb_eq in E. subst id.
        rewrite Hfind in Ho0. injection Ho0 as <-. contradiction.
      - split; [cbn; lia|]. split; [congruence|].
        intros [o0 [Ho0 Hs0]]. split; [|reflexivity].
        exists o0. unfold settled. rewrite (Hother eq_refl).
        split; assumption. }
    destruct H as [[_ [Hrows Htr]]|[_ [Hrows Htr]]].
    + apply (Hfinish executing []); try assumption.
      * discriminate.
      * contradiction.
    + apply (Hfinish last
               ([DbSaveOrder (clock w + 2) last]
                ++ (if ok then [CallPublishOrderEvent last
                                  (publish_order_ok env last)] else [])));
        try assumption.
      * unfold last. destruct ok; discriminate.
      * intros c Hc. apply in_app_or in Hc. destruct Hc as [[<-|[]]|Hc];
          [exact I|]. destruct ok; [destruct Hc as [<-|[]]; exact I|].
        contradiction.
Qed.

Lemma exchange_calls_app : forall id a b,
    exchange_calls id (a ++ b) = exchange_calls id a ++ exchange_calls id b.
Proof. intros id a b. apply filter_app. Qed.

Lemma worker_exchange_calls : forall jobs w id,
    exists new,
      trace (snd (worker jobs w)) = trace w ++ new /\
      (length (exchange_calls id new) <= 1)%nat /\
      (settled id w -> exchange_calls id new = []).
Proof.
  induction jobs as [|[env order] rest IH]; intros w id.
  - exists []. cbn. rewrite app_nil_r. repeat split; auto.
  - cbn [worker]. unfold bind.
    destruct (worker_job env order w) as [u w1] eqn:Hjob.
    destruct (worker_job_as_ProcessOrder env order w) as [Htr Hdb].
    rewrite Hjob in Htr, Hdb. cbn [snd] in Htr, Hdb.
    destruct (job_exchange_calls env (ID order) w id)
      as [new1 [Hn1 [Hlen1 [Hset1 Hkeep1]]]].
    destruct (IH w1 id) as [new2 [Hn2 [Hlen2 Hkeep2]]].
    assert (Hsettled : settled id (snd (ProcessOrder env (ID order) w)) ->
                       settled id w1).
    { unfold settled. rewrite Hdb. tauto. }
    exists (new1 ++ new2).
    split; [rewrite Hn2, Htr, Hn1, app_assoc; reflexivity|].
    rewrite exchange_calls_app, length_app.
    split.
    + destruct (exchange_calls id new1) as [|c l] eqn:E1.
      * cbn. exact Hlen2.
      * rewrite Hkeep2; [cbn in *; lia|].
        apply Hsettled, Hset1. discriminate.
    + intros Hs. destruct (Hkeep1 Hs) as [Hs1 E1].
      rewrite E1, Hkeep2; [reflexivity | apply Hsettled, Hs1].
Qed.

(** X10. A worker that takes its jobs one after another calls the
    exchange at most once for any order id, whatever the queue holds
    (the same order any number of times), whatever the store holds and
    whatever the collaborators answer; for an order that is no longer
    PENDING when the worker starts it does not call it at all. *)
Theorem worker_calls_exchange_once : forall jobs w id,
    exists new,
      trace (snd (worker jobs w)) = trace w ++ new /\
      (length (exchange_calls id new) <= 1)%nat /\
      ((exists o, find (fun r => String.eqb (ID r) id) (orders (db w))
                  = Some o /\ Status o <> StatusPending) ->
       exchange_calls id new = []).
Proof. exact worker_exchange_calls. Qed.

Lemma worker_calls_exchange_once_witness :
  (length (exchange_calls "O1"
             (trace (snd (worker [(env_ok, order_O1); (env_ok, order_O1);
                                  (env_exchange_down, order_O1)]
                                 world_O1_pending)))) <= 1)%nat.
Proof.
  destruct (worker_calls_exchange_once
              [(env_ok, order_O1); (env_ok, order_O1);
               (env_exchange_down, order_O1)] world_O1_pending "O1"%string)
    as [new [Htr [Hlen _]]].
  rewrite Htr. exact Hlen.
Defined.

(* ================================================================== *)
(** * Further properties: submission                                   *)
(* ================================================================== *)

Lemma has_order_false : forall id rows,
    has_order id rows = false -> ~ In id (map ID rows).
Proof.
  intros id rows H Hin. apply in_map_iff in Hin.
  destruct Hin as [r [Hr Hin]].
  assert (Ht : has_order id rows = true).
  { unfold has_order. apply existsb_exists. exists r.
    split; [exact Hin | apply String.eqb_eq, Hr]. }
  congruence.
Qed.

Lemma has_order_true : forall id rows,
    has_order id rows = true -> In id (map ID rows).
Proof.
  intros id rows H. unfold has_order in H. apply existsb_exists in H.
  destruct H as [r [Hin Hr]]. apply String.eqb_eq in Hr.
  apply in_map_iff. exists r. auto.
Qed.

Lemma find_new_row : forall (o : Order) rows,
    has_order (ID o) rows = false ->
    find (fun r => String.eqb (ID r) (ID o)) (rows ++ [o]) = Some o.
Proof.
  intros o rows H. induction rows as [|r rows IH]; cbn.
  - rewrite String.eqb_refl. reflexivity.
  - cbn in H. apply orb_false_iff in H. destruct H as [Hr H].
    rewrite Hr. apply IH, H.
Qed.

Section SubmitOrderCases.

Variable json_Marshal : Order -> option string.

(** All the ways [SubmitOrder] can go, with what each leaves in the
    store. No collaborator but the store is called. *)
Lemma SubmitOrder_cases : forall env order w,
    let r := SubmitOrder json_Marshal env order w in
    let o' := created (clock w) order in
    let rows := orders (db w) in
    let events := outbox_events (db w) in
    trace (snd r) = trace w /\ errlog (snd r) = errlog w /\
    clock w < clock (snd r) <= clock w + 2 /\
    (outbox_seq (db w) <= outbox_seq (db (snd r)))%N /\
    ((exists msg, fst r = Returned (o', Some msg)) /\
     orders (db (snd r)) = rows /\ outbox_events (db (snd r)) = events /\
     outbox_seq (db (snd r)) = outbox_seq (db w) /\
     (db_ok env (OpCreateOrder order) = false \/
      has_order (ID order) rows = true)
     \/
     has_order (ID order) rows = false /\
     db_ok env (OpCreateOrder order) = true /\
     orders (db (snd r)) = rows ++ [o'] /\
     ((exists msg, fst r = Panicked msg) /\ json_Marshal o' = None /\
      outbox_events (db (snd r)) = events
      \/
      (exists msg, fst r = Returned (o', Some msg)) /\
      outbox_events (db (snd r)) = events
      \/
      exists payload,
        json_Marshal o' = Some payload /\
        fst r = Returned (o', None) /\
        clock (snd r) = clock w + 2 /\
        has_event (N.succ (outbox_seq (db w))) events = false /\
        outbox_seq (db (snd r)) = N.succ (outbox_seq (db w)) /\
        outbox_events (db (snd r))
        = events ++ [submitted_event (N.succ (outbox_seq (db w))) o'
                                     payload (clock w + 1)])).
Proof.
  intros env order w. cbv zeta.
  unfold SubmitOrder, CreateOrder, CreateOutboxEvent, gorm_Create_Order,
    gorm_Create_OutboxEvent, bind, time_Now, get_db, put_db, ret.
  cbv beta iota. fold (created (clock w) order).
  cbn [db clock trace errlog ID created set_UpdatedAt set_CreatedAt].
  destruct (db_ok env (OpCreateOrder order)) eqn:Hdb; cbn [negb].
  2:{ cbn. repeat split; try lia. left. repeat split; eauto. }
  destruct (has_order (ID order) (orders (db w))) eqn:Hhas.
  { cbn. repeat split; try lia. left. repeat split; eauto. }
  cbn [is_nil negb fst snd db clock trace errlog orders outbox_events
              outbox_seq].
  destruct (json_Marshal (created (clock w) order)) as [payload|] eqn:Hj.
  2:{ cbn. repeat split; try lia. right. repeat split; auto.
      left. repeat split; eauto. }
  cbn [db clock trace errlog orders outbox_events outbox_seq EventID
          N.eqb].
  match goal with
  | |- context [db_ok env (OpCreateOutboxEvent ?e)] =>
      destruct (db_ok env (OpCreateOutboxEvent e)) eqn:Hdb2
  end; cbn [negb].
  2:{ cbn. repeat split; try lia. right. repeat split; auto.
      right. left. repeat split; eauto. }
  destruct (has_event (N.succ (outbox_seq (db w))) (outbox_events (db w)))
    eqn:Hev.
  { cbn. repeat split; try lia. right. repeat split; auto.
    right. left. repeat split; eauto. }
  cbn. repeat split; try lia. right. repeat split; auto.
  right. right. exists payload. repeat split; auto; lia.
Qed.

End SubmitOrderCases.

Section SubmissionEffects.

Variable json_Marshal : Order -> option string.

(** X11. When [SubmitOrder] returns nil, the order id was new, exactly
    one row was appended to [orders] (the order as returned) and exactly
    one to [outbox_events]: an unprocessed "OrderSubmitted" event of
    aggregate "Order" for that order id, under the next id of the
    sequence, with the marshalled order as payload; no collaborator was
    called. *)
Theorem SubmitOrder_nil_writes_both : forall env order w o,
    fst (SubmitOrder json_Marshal env order w) = Returned (o, None) ->
    let w' := snd (SubmitOrder json_Marshal env order w) in
    o = created (clock w) order /\
    has_order (ID order) (orders (db w)) = false /\
    orders (db w') = orders (db w) ++ [o] /\
    (exists payload,
        json_Marshal o = Some payload /\
        outbox_events (db w')
        = outbox_events (db w)
          ++ [submitted_event (N.succ (outbox_seq (db w))) o payload
                              (clock w + 1)]) /\
    trace w' = trace w.
Proof.
  intros env order w o Hnil. cbv zeta.
  destruct (SubmitOrder_cases json_Marshal env order w)
    as [Htr [_ [_ [_ H]]]].
  rewrite Hnil in H.
  destruct H as [[[msg Hm] _]|[Hhas [_ [Hrows H]]]]; [discriminate|].
  destruct H as [[[msg Hm] _]|[[[msg Hm] _]|[payload [Hj [Hr [_ [_ [_ Hev]]]]]]]];
    try discriminate.
  injection Hr as ->.
  split; [reflexivity|]. split; [exact Hhas|]. split; [exact Hrows|].
  split; [exists payload; split; assumption | exact Htr].
Qed.

(** X12. [SubmitOrder] with the id of a stored order returns an error
    and writes nothing: the stored row is not replaced, no event is
    added and the id sequence is not advanced. *)
Theorem SubmitOrder_duplicate_id : forall env order w,
    has_order (ID order) (orders (db w)) = true ->
    let r := SubmitOrder json_Marshal env order w in
    (exists msg, fst r = Returned (created (clock w) order, Some msg)) /\
    orders (db (snd r)) = orders (db w) /\
    outbox_events (db (snd r)) = outbox_events (db w) /\
    outbox_seq (db (snd r)) = outbox_seq (db w).
Proof.
  intros env order w Hhas. cbv zeta.
  destruct (SubmitOrder_cases json_Marshal env order w) as [_ [_ [_ [_ H]]]].
  destruct H as [[Hm [Hrows [Hev [Hseq _]]]]|[Hno _]]; [auto|congruence].
Qed.

Lemma createOrder_accepted : forall env bound w body,
    fst (createOrder json_Marshal env bound w)
    = mkResponse StatusAccepted body ->
    exists req o,
      bound = Some req /\ body = BodyOrder o /\
      let order := NewOrder (clock w) (req_ID req) (req_Symbol req)
                            (req_Side req) (req_Type req)
                            (req_Quantity req) (req_Price req) in
      let w1 := mkWorld (db w) (clock w + 1) (trace w) (errlog w) in
      IsValid order = true /\
      fst (SubmitOrder json_Marshal env order w1) = Returned (o, None) /\
      snd (createOrder json_Marshal env bound w)
      = snd (SubmitOrder json_Marshal env order w1).
Proof.
  intros env bound w body H. unfold createOrder in *.
  destruct bound as [req|]; [|discriminate].
  unfold bind, time_Now, ret in *. cbv beta iota in *.
  destruct (IsValid (NewOrder (clock w) (req_ID req) (req_Symbol req)
                              (req_Side req) (req_Type req)
                              (req_Quantity req) (req_Price req))) eqn:Hv;
    cbn [negb] in *; [|discriminate].
  destruct (SubmitOrder json_Marshal env _ _) as [[[o err]|msg] w2] eqn:Hs;
    [|discriminate].
  destruct err as [msg|]; cbn in H; [discriminate|].
  injection H as <-. exists req, o. cbn. rewrite Hs. auto.
Qed.

End SubmissionEffects.

Lemma SubmitOrder_nil_writes_both_witness :
  let w' := snd (SubmitOrder sample_Marshal env_ok order_O1 initial_world) in
  orders (db w') = [order_O1] /\
  outbox_events (db w')
  = [submitted_event 1 order_O1 "order O1 BTCUSDT PENDING" 2].
Proof.
  cbv zeta.
  destruct (SubmitOrder_nil_writes_both sample_Marshal env_ok order_O1
              initial_world order_O1 eq_refl)
    as [_ [_ [Hrows [[payload [Hj Hev]] _]]]].
  split; [exact Hrows|].
  rewrite Hev. vm_compute in Hj. injection Hj as <-. reflexivity.
Defined.

Lemma SubmitOrder_duplicate_id_witness :
  orders (db (snd (SubmitOrder sample_Marshal env_ok order_O1
                               world_O1_pending)))
  = orders (db world_O1_pending).
Proof.
  exact (proj1 (proj2 (SubmitOrder_duplicate_id sample_Marshal env_ok
                         order_O1 world_O1_pending eq_refl))).
Defined.

(* ================================================================== *)
(** * Further properties: what the store always holds                  *)
(* ================================================================== *)

Lemma event_ok_mono : forall ids ids' seq seq' now now' e,
    incl ids ids' -> (seq <= seq')%N -> now <= now' ->
    event_ok ids seq now e -> event_ok ids' seq' now' e.
Proof.
  intros ids ids' seq seq' now now' e Hi Hs Hn [A [B [C [D E]]]].
  unfold event_ok. repeat split; auto; try lia.
Qed.

Lemma store_inv_initial : store_inv initial_world.
Proof. unfold store_inv. cbn. repeat split; constructor. Qed.

(** Nothing but time and the sequence moved. *)
Lemma store_inv_same_tables : forall w w',
    store_inv w ->
    orders (db w') = orders (db w) ->
    outbox_events (db w') = outbox_events (db w) ->
    (outbox_seq (db w) <= outbox_seq (db w'))%N ->
    clock w <= clock w' ->
    store_inv w'.
Proof.
  intros w w' [H1 [H2 [H3 H4]]] Ho He Hs Hc.
  unfold store_inv. rewrite Ho, He. repeat split; auto.
  eapply Forall_impl; [|exact H3].
  intros e. apply event_ok_mono; [apply incl_refl | exact Hs | exact Hc].
Qed.

Lemma update_rows_ids : forall x rows,
    map ID (update_rows x rows) = map ID rows.
Proof.
  intros x rows. unfold update_rows. rewrite map_map. apply map_ext_in.
  intros r _. destruct (String.eqb_spec (ID r) (ID x)); congruence.
Qed.

Lemma IsValid_same_order : forall o o',
    same_order_but_status o o' -> IsValid o' = IsValid o.
Proof.
  intros o o' [A [B [_ [_ [C _]]]]]. unfold IsValid. rewrite A, B, C.
  reflexivity.
Qed.

(** A worker job rewrote the rows of one order. *)
Lemma store_inv_update : forall w w' o x,
    store_inv w ->
    In o (orders (db w)) ->
    same_order_but_status o x -> known_status (Status x) ->
    orders (db w') = update_rows x (orders (db w)) ->
    outbox_events (db w') = outbox_events (db w) ->
    outbox_seq (db w') = outbox_seq (db w) ->
    clock w <= clock w' ->
    store_inv w'.
Proof.
  intros w w' o x [H1 [H2 [H3 H4]]] Hin Hsame Hst Ho He Hs Hc.
  unfold store_inv. rewrite Ho, He, Hs, update_rows_ids.
  repeat split; auto.
  - unfold update_rows. rewrite Forall_forall in *. intros r' Hr'.
    apply in_map_iff in Hr'. destruct Hr' as [r [Hr Hrin]].
    destruct (String.eqb (ID r) (ID x)); subst r'; [|apply H2, Hrin].
    split; [|exact Hst].
    rewrite (IsValid_same_order o x Hsame). apply (H2 o Hin).
  - eapply Forall_impl; [|exact H3].
    intros e. apply event_ok_mono; [apply incl_refl | lia | exact Hc].
Qed.

Lemma NoDup_snoc : forall (A : Type) (l : list A) x,
    NoDup l -> ~ In x l -> NoDup (l ++ [x]).
Proof.
  intros A l x Hn Hx.
  apply Permutation_NoDup with (l := x :: l).
  - apply Permutation_cons_append.
  - constructor; assumption.
Qed.

(** A valid PENDING order with a new id was appended, with or without
    its event. *)
Lemma store_inv_append_order : forall w w' o,
    store_inv w ->
    IsValid o = true -> Status o = StatusPending ->
    has_order (ID o) (orders (db w)) = false ->
    orders (db w') = orders (db w) ++ [o] ->
    (outbox_seq (db w) <= outbox_seq (db w'))%N ->
    clock w <= clock w' ->
    (outbox_events (db w') = outbox_events (db w) \/
     exists payload t,
       clock w <= t < clock w' /\
       outbox_seq (db w') = N.succ (outbox_seq (db w)) /\
       outbox_events (db w')
       = outbox_events (db w)
         ++ [submitted_event (N.succ (outbox_seq (db w))) o payload t]) ->
    store_inv w'.
Proof.
  intros w w' o [H1 [H2 [H3 H4]]] Hv Hp Hnew Ho Hs Hc Hev.
  assert (Hfresh : ~ In (ID o) (map ID (orders (db w))))
    by (apply has_order_false, Hnew).
  assert (Hincl : incl (map ID (orders (db w)))
                       (map ID (orders (db w) ++ [o]))).
  { rewrite map_app. apply incl_appl, incl_refl. }
  assert (Hold : Forall (event_ok (map ID (orders (db w) ++ [o]))
                                  (outbox_seq (db w')) (clock w'))
                        (outbox_events (db w))).
  { eapply Forall_impl; [|exact H3].
    intros e. apply event_ok_mono; assumption. }
  assert (Horders : NoDup (map ID (orders (db w) ++ [o])) /\
                    Forall order_ok (orders (db w) ++ [o])).
  { split.
    - rewrite map_app. apply NoDup_snoc; assumption.
    - apply Forall_app. split; [exact H2|].
      constructor; [|constructor]. split; [exact Hv | left; exact Hp]. }
  destruct Horders as [Hn Hf].
  unfold store_inv. rewrite Ho.
  destruct Hev as [Hev|[payload [t [Ht [Hseq Hev]]]]]; rewrite Hev.
  - repeat split; auto.
  - rewrite Forall_forall in H3.
    split; [exact Hn|]. split; [exact Hf|]. split.
    + apply Forall_app. split; [exact Hold|].
      constructor; [|constructor].
      unfold event_ok, submitted_event; cbn.
      repeat split; try lia.
      rewrite map_app. apply in_or_app. right. left. reflexivity.
    + rewrite map_app. apply NoDup_snoc; [exact H4|].
      intros Hin. apply Hfresh. apply in_map_iff in Hin.
      destruct Hin as [e [He Hin]]. cbn in He. rewrite <- He.
      apply (H3 e Hin).
Qed.

Lemma mark_rows_aggregates : forall id now rows,
    map AggregateID (mark_rows id now rows) = map AggregateID rows.
Proof.
  intros id now rows. unfold mark_rows. rewrite map_map.
  apply map_ext. intros r. destruct (N.eqb (EventID r) id); reflexivity.
Qed.

(** The relay marked the rows of one id. *)
Lemma store_inv_mark : forall w w' id now,
    store_inv w ->
    orders (db w') = orders (db w) ->
    outbox_events (db w') = mark_rows id now (outbox_events (db w)) ->
    outbox_seq (db w') = outbox_seq (db w) ->
    clock w <= clock w' ->
    store_inv w'.
Proof.
  intros w w' id now [H1 [H2 [H3 H4]]] Ho He Hs Hc.
  unfold store_inv.
  rewrite Ho, He, Hs, mark_rows_aggregates.
  repeat split; auto.
  unfold mark_rows. rewrite Forall_forall in *. intros r' Hr'.
  apply in_map_iff in Hr'. destruct Hr' as [r [Hr Hrin]].
  assert (Hok : event_ok (map ID (orders (db w))) (outbox_seq (db w))
                         (clock w') r).
  { eapply event_ok_mono; [apply incl_refl | apply N.le_refl | exact Hc |].
    apply H3, Hrin. }
  destruct (N.eqb (EventID r) id); subst r'; [|exact Hok].
  exact Hok.
Qed.

Lemma ProcessOrder_clock : forall env orderID w,
    clock w <= clock (snd (ProcessOrder env orderID w)).
Proof.
  intros env orderID w.
  unfold ProcessOrder, GetOrder, UpdateOrder, gorm_Save_Order,
    gorm_Create_Order, ExecuteTrade, PublishOrderEvent. run_go.
  split_ifs; lia.
Qed.

Lemma worker_job_clock : forall env order w,
    clock (snd (worker_job env order w))
    = clock (snd (ProcessOrder env (ID order) w)).
Proof.
  intros env order w. unfold worker_job, bind.
  destruct (ProcessOrder env (ID order) w) as [err w1].
  destruct err; reflexivity.
Qed.

Lemma relay_event_seq_clock : forall env e w,
    outbox_seq (db (snd (relay_event env e w))) = outbox_seq (db w) /\
    clock w <= clock (snd (relay_event env e w)).
Proof.
  intros env e w. unfold relay_event, PublishGenericEvent,
    MarkOutboxEventProcessed. run_go.
  destruct (publish_event_ok env e); cbn; [|split; [reflexivity | lia]].
  destruct (db_ok env (OpMarkProcessed (EventID e))); cbn;
    split; try reflexivity; lia.
Qed.

Lemma store_inv_ProcessOrder : forall env orderID w,
    store_inv w -> store_inv (snd (ProcessOrder env orderID w)).
Proof.
  intros env orderID w Hinv.
  destruct (ProcessOrder_rows env orderID w)
    as [Hev [Hseq Hrows]].
  pose proof (ProcessOrder_clock env orderID w) as Hc.
  destruct Hrows as [Hrows|[o [x [Hfind [_ [Hsame [Hst [_ [Hrows _]]]]]]]]].
  - eapply store_inv_same_tables; try eassumption. rewrite Hseq. lia.
  - apply find_some in Hfind. destruct Hfind as [Hin _].
    eapply store_inv_update; try eassumption.
    unfold known_status. tauto.
Qed.

Section StoreInvariant.

Variable json_Marshal : Order -> option string.

Lemma store_inv_SubmitOrder : forall env order w,
    store_inv w ->
    IsValid order = true -> Status order = StatusPending ->
    store_inv (snd (SubmitOrder json_Marshal env order w)).
Proof.
  intros env order w Hinv Hv Hp.
  destruct (SubmitOrder_cases json_Marshal env order w)
    as [_ [_ [Hc [Hs H]]]].
  destruct H as [[_ [Hrows [Hev [Hseq _]]]]|[Hnew [_ [Hrows H]]]].
  - eapply store_inv_same_tables; try eassumption. lia.
  - eapply (store_inv_append_order w _ (created (clock w) order));
      try eassumption; try lia; try reflexivity.
    destruct H as [[_ [_ Hev]]|[[_ Hev]|[payload [_ [_ [Hck [_ [Hseq Hev]]]]]]]].
    + left. exact Hev.
    + left. exact Hev.
    + right. exists payload, (clock w + 1). repeat split; try lia; assumption.
Qed.

Lemma store_inv_createOrder : forall env bound w,
    store_inv w -> store_inv (snd (createOrder json_Marshal env bound w)).
Proof.
  intros env bound w Hinv. unfold createOrder.
  destruct bound as [req|]; [|exact Hinv].
  unfold bind, time_Now, ret. cbv beta iota.
  set (w1 := mkWorld (db w) (clock w + 1) (trace w) (errlog w)).
  assert (H1 : store_inv w1).
  { apply (store_inv_same_tables w);
      [exact Hinv | reflexivity | reflexivity | apply N.le_refl | cbn; lia]. }
  destruct (IsValid (NewOrder (clock w) (req_ID req) (req_Symbol req)
                              (req_Side req) (req_Type req)
                              (req_Quantity req) (req_Price req))) eqn:Hv;
    cbn [negb]; [|exact H1].
  pose proof (store_inv_SubmitOrder env _ w1 H1 Hv eq_refl) as H2.
  destruct (SubmitOrder json_Marshal env _ w1) as [[[o err]|msg] w2];
    cbn [snd] in *; [|exact H2].
  destruct err; cbn; [|exact H2].
  apply (store_inv_same_tables w2);
    [exact H2 | reflexivity | reflexivity | apply N.le_refl | cbn; lia].
Qed.

Lemma store_inv_exec : forall a s,
    store_inv (world s) -> store_inv (world (exec json_Marshal a s)).
Proof.
  intros a s Hinv. destruct a as [env bound|env order|env|env]; cbn [exec].
  - apply store_inv_createOrder, Hinv.
  - cbn [world].
    destruct (worker_job_as_ProcessOrder env order (world s)) as [_ Hdb].
    pose proof (store_inv_ProcessOrder env (ID order) (world s) Hinv) as H.
    apply (store_inv_same_tables _ _ H);
      rewrite ?Hdb, ?worker_job_clock;
      [reflexivity | reflexivity | apply N.le_refl | lia].
  - destruct (relay_batch s); [|exact Hinv].
    rewrite GetUnprocessedOutboxEvents_spec.
    destruct (db_ok env (OpGetUnprocessed 100)); cbn -[relay_fetch];
      [exact Hinv|].
    apply (store_inv_same_tables _ _ Hinv);
      [reflexivity | reflexivity | apply N.le_refl | cbn; lia].
  - destruct (relay_batch s) as [|e rest]; [exact Hinv|]. cbn [world].
    destruct (relay_event_seq_clock env e (world s)) as [Hseq Hc].
    pose proof (relay_event_outbox env e (world s)) as Hev.
    pose proof (relay_event_orders env e (world s)) as Ho.
    destruct (publish_event_ok env e
              && db_ok env (OpMarkProcessed (EventID e))).
    + eapply store_inv_mark; eassumption.
    + eapply store_inv_same_tables; try eassumption. rewrite Hseq. lia.
Qed.

Lemma store_inv_reachable : forall s,
    reachable json_Marshal s -> store_inv (world s).
Proof.
  intros s [acts Hs]. subst s.
  assert (H : forall acts s0, store_inv (world s0) ->
                              store_inv (world (run json_Marshal acts s0))).
  { clear. induction acts as [|a acts IH]; intros s0 H0; [exact H0|].
    rewrite run_cons. apply IH, store_inv_exec, H0. }
  apply H. exact store_inv_initial.
Qed.

End StoreInvariant.

Lemma find_unique_id : forall rows o,
    NoDup (map ID rows) -> In o rows ->
    find (fun r => String.eqb (ID r) (ID o)) rows = Some o.
Proof.
  induction rows as [|a rows IH]; intros o Hn Hin; [contradiction|].
  cbn in *. inversion Hn as [|x l Hna Hn']; subst.
  destruct (String.eqb_spec (ID a) (ID o)) as [E|E].
  - destruct Hin as [->|Hin]; [reflexivity|].
    exfalso. apply Hna. rewrite E. apply in_map, Hin.
  - destruct Hin as [->|Hin]; [congruence|]. apply IH; assumption.
Qed.

Lemma sorted_map_created : forall rows,
    StronglySorted Z.lt (map EventCreatedAt rows) ->
    StronglySorted created_lt rows.
Proof.
  induction rows as [|a rows IH]; intros H; [constructor|].
  cbn in H. inversion H as [|x l Hs Hf]; subst.
  constructor; [apply IH, Hs|].
  rewrite Forall_forall in *. intros r Hr. apply Hf, in_map, Hr.
Qed.

Lemma filter_StronglySorted : forall (A : Type) (R : A -> A -> Prop) p l,
    StronglySorted R l -> StronglySorted R (filter p l).
Proof.
  intros A R p l H. induction H as [|a l Hs IH Hf]; cbn; [constructor|].
  destruct (p a); [|exact IH].
  constructor; [exact IH|].
  rewrite Forall_forall in *. intros x Hx. apply filter_In in Hx.
  apply Hf, Hx.
Qed.

(** On rows whose [created_at] strictly increase, ORDER BY created_at ASC
    is the storage order. *)
Lemma order_by_created_at_asc_sorted_id : forall l,
    StronglySorted created_lt l -> order_by_created_at_asc l = l.
Proof.
  intros l H. apply sorted_perm_unique.
  - exact H.
  - apply order_by_created_at_asc_sorted.
  - apply order_by_created_at_asc_perm.
Qed.

Lemma relay_fetch_storage_order : forall limit rows,
    StronglySorted Z.lt (map EventCreatedAt rows) ->
    relay_fetch limit rows = sql_limit limit (filter unprocessed rows).
Proof.
  intros limit rows H. unfold relay_fetch.
  rewrite order_by_created_at_asc_sorted_id; [reflexivity|].
  apply filter_StronglySorted, sorted_map_created, H.
Qed.

Lemma has_order_In : forall id rows,
    In id (map ID rows) -> has_order id rows = true.
Proof.
  intros id rows H. destruct (has_order id rows) eqn:E; [reflexivity|].
  exfalso. exact (has_order_false id rows E H).
Qed.

Section ReachableStore.

Variable json_Marshal : Order -> option string.

(** X13. In every state the system reaches from the empty database, the
    ids of [orders] are pairwise distinct, every stored order passes
    [IsValid] and carries one of the four statuses, and a look-up by its
    id finds that very row. *)
Theorem reachable_orders_well_formed : forall s,
    reachable json_Marshal s ->
    NoDup (map ID (orders (db (world s)))) /\
    forall o, In o (orders (db (world s))) ->
      IsValid o = true /\ known_status (Status o) /\
      find (fun r => String.eqb (ID r) (ID o)) (orders (db (world s)))
      = Some o.
Proof.
  intros s Hr.
  destruct (store_inv_reachable json_Marshal s Hr) as [H1 [H2 _]].
  split; [exact H1|]. intros o Hin.
  rewrite Forall_forall in H2. destruct (H2 o Hin) as [Hv Hk].
  split; [exact Hv|]. split; [exact Hk|].
  apply find_unique_id; assumption.
Qed.

(** X14. In every reachable state each row of [outbox_events] is an
    "OrderSubmitted" event of aggregate "Order" whose aggregate id is
    the id of a stored order, with a positive id not above the sequence
    and a creation time in the past; no two rows share an event id or an
    order, so there are at most as many events as orders. *)
Theorem reachable_events_belong_to_orders : forall s,
    reachable json_Marshal s ->
    let rows := outbox_events (db (world s)) in
    (forall e, In e rows ->
       Aggregate e = "Order"%string /\
       EventType e = "OrderSubmitted"%string /\
       has_order (AggregateID e) (orders (db (world s))) = true /\
       (0 < EventID e <= outbox_seq (db (world s)))%N /\
       EventCreatedAt e < clock (world s)) /\
    NoDup (map AggregateID rows) /\
    NoDup (map EventID rows) /\
    (length rows <= length (orders (db (world s))))%nat.
Proof.
  intros s Hr. cbv zeta.
  destruct (store_inv_reachable json_Marshal s Hr)
    as [H1 [H2 [H3 H4]]].
  rewrite Forall_forall in H3.
  split; [|split; [exact H4 | split]].
  - intros e Hin. destruct (H3 e Hin) as [A [B [C [D E]]]].
    repeat split; try assumption; try apply D.
    apply has_order_In, C.
  - destruct (relay_inv_reachable json_Marshal s Hr) as [Hn _]. exact Hn.
  - rewrite <- (length_map AggregateID), <- (length_map ID).
    apply NoDup_incl_length; [exact H4|].
    intros id Hid. apply in_map_iff in Hid.
    destruct Hid as [e [<- Hin]]. apply (H3 e Hin).
Qed.

End ReachableStore.

Lemma system_two_orders_reachable : reachable sample_Marshal system_two_orders.
Proof. eexists. reflexivity. Qed.

Lemma reachable_orders_well_formed_witness :
  map ID (orders (db (world system_two_orders))) = ["O1"; "O2"]%string /\
  NoDup (map ID (orders (db (world system_two_orders)))).
Proof.
  split; [reflexivity|].
  exact (proj1 (reachable_orders_well_formed sample_Marshal system_two_orders
                  system_two_orders_reachable)).
Defined.

Lemma reachable_events_belong_to_orders_witness :
  map AggregateID (outbox_events (db (world system_two_orders)))
  = ["O1"; "O2"]%string /\
  NoDup (map AggregateID (outbox_events (db (world system_two_orders)))).
Proof.
  split; [reflexivity|].
  exact (proj1 (proj2 (reachable_events_belong_to_orders sample_Marshal
                         system_two_orders system_two_orders_reachable))).
Defined.

(* ================================================================== *)
(** * Further properties: the relay over several cycles             *)
(* ================================================================== *)

Lemma filter_unprocessed_mark_rows : forall p id t rows,
    filter (fun r => unprocessed r && p r) (mark_rows id t rows)
    = filter (fun r => unprocessed r && (negb (N.eqb (EventID r) id) && p r))
             rows.
Proof.
  intros p id t rows. induction rows as [|r rows IH]; [reflexivity|].
  cbn [mark_rows map filter]. fold (mark_rows id t rows). rewrite IH.
  destruct (N.eqb (EventID r) id); cbn [negb andb].
  - unfold unprocessed at 1. cbn [mark_processed Processed negb andb].
    rewrite andb_false_r. reflexivity.
  - reflexivity.
Qed.

Lemma relay_range_cons : forall env e rest w,
    snd (relay_range env (e :: rest) w)
    = snd (relay_range env rest (snd (relay_event env e w))).
Proof.
  intros env e rest w. cbn [relay_range]. unfold bind.
  destruct (relay_event env e w) as [u w1]. reflexivity.
Qed.

Lemma relay_range_unprocessed : forall env events w p,
    filter (fun r => unprocessed r && p r)
           (outbox_events (db (snd (relay_range env events w))))
    = filter (fun r => unprocessed r
                       && (negb (relayed_in env events r) && p r))
             (outbox_events (db w)).
Proof.
  intros env events. induction events as [|e rest IH]; intros w p.
  - reflexivity.
  - rewrite relay_range_cons, IH, relay_event_outbox.
    fold (relayed env e). unfold relayed_in. cbn [existsb].
    destruct (relayed env e) eqn:Hr.
    + rewrite filter_unprocessed_mark_rows. apply filter_ext. intros r.
      rewrite (N.eqb_sym (EventID e) (EventID r)), andb_true_r, negb_orb.
      rewrite !andb_assoc. reflexivity.
    + apply filter_ext. intros r. rewrite andb_false_r. reflexivity.
Qed.

Lemma relay_range_seq_clock : forall env events w,
    outbox_seq (db (snd (relay_range env events w))) = outbox_seq (db w) /\
    clock w <= clock (snd (relay_range env events w)).
Proof.
  intros env events. induction events as [|e rest IH]; intros w.
  - split; [reflexivity | cbn; lia].
  - rewrite relay_range_cons.
    destruct (IH (snd (relay_event env e w))) as [A B].
    destruct (relay_event_seq_clock env e w) as [C D].
    split; [congruence | lia].
Qed.

Lemma filter_andb : forall (A : Type) (p q : A -> bool) l,
    filter (fun x => p x && q x) l = filter q (filter p l).
Proof.
  intros A p q l. induction l as [|a l IH]; [reflexivity|]. cbn.
  destruct (p a); cbn; [destruct (q a)|]; rewrite IH; reflexivity.
Qed.

Lemma filter_all : forall (A : Type) (p : A -> bool) l,
    (forall x, In x l -> p x = true) -> filter p l = l.
Proof.
  intros A p l H. induction l as [|a l IH]; [reflexivity|]. cbn.
  rewrite (H a (or_introl eq_refl)). f_equal. apply IH.
  intros x Hx. apply H. right. exact Hx.
Qed.

Lemma filter_firstn_ids : forall n (l : list OutboxEvent),
    NoDup (map EventID l) ->
    filter (fun r => negb (existsb (fun e => N.eqb (EventID e) (EventID r))
                                   (firstn n l))) l
    = skipn n l.
Proof.
  intros n l. revert n. induction l as [|a l IH]; intros n Hn.
  - destruct n; reflexivity.
  - destruct n as [|n].
    + cbn [firstn existsb negb skipn]. apply filter_all. reflexivity.
    + cbn [firstn skipn filter existsb].
      rewrite N.eqb_refl. cbn [orb negb].
      cbn in Hn. inversion Hn as [|x l' Hna Hn']; subst.
      rewrite <- (IH n Hn'). apply filter_ext_in. intros r Hr.
      destruct (N.eqb_spec (EventID a) (EventID r)) as [E|E]; [|reflexivity].
      exfalso. apply Hna. rewrite E. apply in_map, Hr.
Qed.


Lemma relay_cycle_unprocessed : forall env w,
    db_ok env (OpGetUnprocessed 100) = true ->
    filter unprocessed (outbox_events (db (snd (relay_cycle env w))))
    = filter (fun r => unprocessed r
                       && negb (relayed_in env
                                  (relay_fetch 100 (outbox_events (db w))) r))
             (outbox_events (db w)).
Proof.
  intros env w Hok. rewrite (relay_cycle_fetched env w Hok).
  pose proof (relay_range_unprocessed env
                (relay_fetch 100 (outbox_events (db w))) w
                (fun _ => true)) as H.
  erewrite filter_ext in H; [rewrite H|]; cycle 1.
  { intros r. apply andb_true_r. }
  apply filter_ext. intros r. rewrite andb_true_r. reflexivity.
Qed.

(** X16. The rows left unprocessed by a relay cycle are the rows that
    were unprocessed before it, in the same order, without those whose id
    is the id of a fetched row that was both published and marked. *)
Theorem relay_cycle_leaves_unprocessed : forall env w,
    let batch := fst (fst (GetUnprocessedOutboxEvents env 100 w)) in
    filter unprocessed (outbox_events (db (snd (relay_cycle env w))))
    = filter (fun r => unprocessed r && negb (relayed_in env batch r))
             (outbox_events (db w)).
Proof.
  intros env w. cbv zeta. rewrite GetUnprocessedOutboxEvents_spec.
  destruct (db_ok env (OpGetUnprocessed 100)) eqn:Hok; cbn [fst].
  - apply relay_cycle_unprocessed, Hok.
  - destruct (relay_cycle_fetch_failed env w Hok) as [_ ->].
    apply filter_ext. intros r. cbn. rewrite andb_true_r. reflexivity.
Qed.

Lemma relay_fetch_100 : forall rows,
    StronglySorted Z.lt (map EventCreatedAt rows) ->
    relay_fetch 100 rows = firstn 100 (filter unprocessed rows).
Proof.
  intros rows H. rewrite (relay_fetch_storage_order 100 rows H).
  reflexivity.
Qed.

(** X17. With every collaborator answering, on a table stored in the
    order of creation, one cycle publishes the first 100 unprocessed rows
    and leaves unprocessed exactly the rows behind them; with a backlog
    of at most 100 rows nothing is left, and the next cycle publishes
    nothing and leaves the store as it is. *)
Theorem relay_cycle_drains_backlog : forall env w,
    StronglySorted Z.lt (map EventCreatedAt (outbox_events (db w))) ->
    NoDup (map EventID (outbox_events (db w))) ->
    db_ok env (OpGetUnprocessed 100) = true ->
    (forall e, publish_event_ok env e = true) ->
    (forall id, db_ok env (OpMarkProcessed id) = true) ->
    let backlog := filter unprocessed (outbox_events (db w)) in
    let w' := snd (relay_cycle env w) in
    trace w' = trace w ++ map (publish_call env) (firstn 100 backlog) /\
    filter unprocessed (outbox_events (db w')) = skipn 100 backlog /\
    ((length backlog <= 100)%nat ->
     forall env', trace (snd (relay_cycle env' w')) = trace w' /\
                  db (snd (relay_cycle env' w')) = db w').
Proof.
  intros env w Hs Hn Hok Hp Hm. cbv zeta.
  pose proof (relay_cycle_unprocessed env w Hok) as Hleft.
  rewrite (relay_fetch_100 _ Hs) in Hleft.
  assert (Hskip : filter unprocessed
                         (outbox_events (db (snd (relay_cycle env w))))
                  = skipn 100 (filter unprocessed (outbox_events (db w)))).
  { rewrite Hleft, filter_andb.
    rewrite <- (filter_firstn_ids 100
                  (filter unprocessed (outbox_events (db w))))
      by (apply filter_map_NoDup, Hn).
    apply filter_ext. intros r. f_equal. unfold relayed_in. clear Hleft.
    induction (firstn 100 (filter unprocessed (outbox_events (db w))))
      as [|e l IH]; [reflexivity|].
    cbn [existsb]. rewrite IH. unfold relayed. rewrite Hp, Hm.
    rewrite !andb_true_r. reflexivity. }
  split; [|split; [exact Hskip|]].
  - rewrite (relay_cycle_fetched env w Hok), relay_range_trace.
    rewrite (relay_fetch_100 _ Hs). reflexivity.
  - intros Hlen env'.
    rewrite skipn_all2 in Hskip by exact Hlen.
    destruct (db_ok env' (OpGetUnprocessed 100)) eqn:Hok';
      [|apply relay_cycle_fetch_failed, Hok'].
    rewrite (relay_cycle_fetched env' _ Hok'). unfold relay_fetch.
    rewrite Hskip. cbn. split; reflexivity.
Qed.

Lemma relay_cycle_drains_backlog_witness :
  filter unprocessed
         (outbox_events (db (snd (relay_cycle env_ok
                                    (world system_two_orders)))))
  = [].
Proof.
  assert (Hs : StronglySorted Z.lt
                 (map EventCreatedAt
                      (outbox_events (db (world system_two_orders))))).
  { vm_compute. repeat constructor. }
  assert (Hn : NoDup (map EventID
                          (outbox_events (db (world system_two_orders))))).
  { vm_compute. repeat constructor; cbn; intuition discriminate. }
  exact (proj1 (proj2 (relay_cycle_drains_backlog env_ok
                         (world system_two_orders) Hs Hn eq_refl
                         (fun _ => eq_refl) (fun _ => eq_refl)))).
Defined.






Lemma marked_or_same_refl : forall t l,
    Forall2 (marked_or_same t) l l.
Proof.
  intros t l. induction l; constructor; [left; reflexivity | assumption].
Qed.

Lemma marked_or_same_trans : forall t t' l1 l2 l3,
    t <= t' ->
    Forall2 (marked_or_same t) l1 l2 ->
    Forall2 (marked_or_same t') l2 l3 ->
    Forall2 (marked_or_same t) l1 l3.
Proof.
  intros t t' l1 l2 l3 Ht H12. revert l3.
  induction H12 as [|a b l1 l2 Hab H12 IH]; intros l3 H23.
  - inversion H23. constructor.
  - inversion H23 as [|b' c l2' l3' Hbc H23']; subst.
    constructor; [|apply IH, H23'].
    destruct Hab as [->|[Hpa [ta [Hta ->]]]].
    + destruct Hbc as [->|[Hpb [tb [Htb ->]]]]; [left; reflexivity|].
      right. split; [exact Hpb|]. exists tb. split; [lia | reflexivity].
    + destruct Hbc as [->|[Hpb _]]; [|discriminate].
      right. split; [exact Hpa|]. exists ta. split; [exact Hta | reflexivity].
Qed.

Lemma mark_rows_marked_or_same : forall e t0 t rows,
    NoDup (map EventID rows) -> In e rows -> Processed e = false ->
    t0 < t ->
    Forall2 (marked_or_same t0) rows (mark_rows (EventID e) t rows).
Proof.
  intros e t0 t rows Hn Hin Hp Ht.
  assert (H : forall l, incl l rows ->
                        Forall2 (marked_or_same t0) l
                                (mark_rows (EventID e) t l)).
  { induction l as [|r l IH]; intros Hl; [constructor|].
    cbn [mark_rows map]. constructor.
    - destruct (N.eqb_spec (EventID r) (EventID e)) as [E|E];
        [|left; reflexivity].
      assert (r = e).
      { apply (unique_by_id rows); auto. apply Hl. left. reflexivity. }
      subst r. right. split; [exact Hp|]. exists t. auto.
    - apply IH. intros x Hx. apply Hl. right. exact Hx. }
  apply H, incl_refl.
Qed.

Lemma relay_event_clock : forall env e w,
    clock w < clock (snd (relay_event env e w)).
Proof.
  intros env e w. unfold relay_event, PublishGenericEvent,
    MarkOutboxEventProcessed. run_go.
  destruct (publish_event_ok env e); cbn; [|lia].
  destruct (db_ok env (OpMarkProcessed (EventID e))); cbn; lia.
Qed.

Lemma relay_range_only_marks : forall env events w,
    NoDup (map EventID (outbox_events (db w))) ->
    NoDup (map EventID events) ->
    (forall e, In e events ->
               In e (outbox_events (db w)) /\ Processed e = false) ->
    Forall2 (marked_or_same (clock w)) (outbox_events (db w))
            (outbox_events (db (snd (relay_range env events w)))).
Proof.
  intros env events. induction events as [|e rest IH]; intros w Hn He Hin.
  - apply marked_or_same_refl.
  - rewrite relay_range_cons.
    cbn in He. inversion He as [|x l Hne He']; subst.
    pose proof (relay_event_clock env e w) as Hc.
    pose proof (relay_event_outbox env e w) as Hout.
    destruct (Hin e (or_introl eq_refl)) as [Hie Hpe].
    apply (marked_or_same_trans _ (clock (snd (relay_event env e w)))
             _ (outbox_events (db (snd (relay_event env e w)))));
      [lia | |].
    + rewrite Hout. destruct (_ && _); [|apply marked_or_same_refl].
      apply mark_rows_marked_or_same; auto. lia.
    + apply IH.
      * rewrite Hout. destruct (_ && _); [rewrite mark_rows_ids|]; exact Hn.
      * exact He'.
      * intros e' Hin'. destruct (Hin e' (or_intror Hin')) as [A B].
        split; [|exact B].
        apply relay_event_keeps; [exact A|]. left.
        intros E. apply Hne. rewrite E. apply in_map, Hin'.
Qed.

(** X19. A relay cycle writes nothing but the marks: on a table with
    unique ids it leaves [orders] and the id sequence as they are, adds
    and removes no row of [outbox_events], and leaves each row as it
    was or, for a row that was unprocessed, as its marked copy with a
    [processed_at] taken during the cycle. A processed row is never
    written again. *)
Theorem relay_cycle_only_marks : forall env w,
    NoDup (map EventID (outbox_events (db w))) ->
    let w' := snd (relay_cycle env w) in
    orders (db w') = orders (db w) /\
    outbox_seq (db w') = outbox_seq (db w) /\
    Forall2 (marked_or_same (clock w))
            (outbox_events (db w)) (outbox_events (db w')) /\
    (forall r, In r (outbox_events (db w)) -> Processed r = true ->
               In r (outbox_events (db w'))).
Proof.
  intros env w Hn. cbv zeta.
  assert (H : orders (db (snd (relay_cycle env w))) = orders (db w) /\
              outbox_seq (db (snd (relay_cycle env w))) = outbox_seq (db w) /\
              Forall2 (marked_or_same (clock w)) (outbox_events (db w))
                      (outbox_events (db (snd (relay_cycle env w))))).
  { destruct (db_ok env (OpGetUnprocessed 100)) eqn:Hok.
    - rewrite (relay_cycle_fetched env w Hok).
      split; [apply relay_range_orders|].
      split; [apply relay_range_seq_clock|].
      apply relay_range_only_marks.
      + exact Hn.
      + apply relay_fetch_NoDup, Hn.
      + intros e. apply relay_fetch_In.
    - destruct (relay_cycle_fetch_failed env w Hok) as [_ ->].
      repeat split; try reflexivity. apply marked_or_same_refl. }
  destruct H as [A [B C]]. repeat split; try assumption.
  intros r Hin Hp. clear - C Hin Hp.
  induction C as [|a b l l' Hab C IH]; [contradiction|].
  destruct Hin as [->|Hin]; [|right; apply IH, Hin].
  left. destruct Hab as [->|[Hf _]]; [reflexivity | congruence].
Qed.

Lemma relay_cycle_only_marks_witness :
  In ev_done (outbox_events (db (snd (relay_cycle env_ok world_three_rows)))).
Proof.
  assert (Hn : NoDup (map EventID (outbox_events (db world_three_rows)))).
  { vm_compute. repeat constructor; cbn; intuition discriminate. }
  apply (proj2 (proj2 (proj2 (relay_cycle_only_marks env_ok world_three_rows
                                Hn)))).
  - cbn. tauto.
  - reflexivity.
Defined.


Lemma relay_range_broker_down : forall env events w,
    (forall e, publish_event_ok env e = false) ->
    db (snd (relay_range env events w)) = db w.
Proof.
  intros env events. induction events as [|e rest IH]; intros w Hp.
  - reflexivity.
  - rewrite relay_range_cons, (IH _ Hp).
    unfold relay_event, PublishGenericEvent. run_go. rewrite Hp. reflexivity.
Qed.

Lemma relay_cycle_trace : forall env w,
    exists batch,
      trace (snd (relay_cycle env w))
      = trace w ++ map (publish_call env) batch.
Proof.
  intros env w. destruct (db_ok env (OpGetUnprocessed 100)) eqn:Hok.
  - rewrite (relay_cycle_fetched env w Hok), relay_range_trace.
    eexists. reflexivity.
  - destruct (relay_cycle_fetch_failed env w Hok) as [-> _].
    exists []. cbn. rewrite app_nil_r. reflexivity.
Qed.

Lemma StartOutboxRelay_cons : forall env rest w,
    snd (StartOutboxRelay (env :: rest) w)
    = snd (StartOutboxRelay rest (snd (relay_cycle env w))).
Proof.
  intros env rest w. cbn [StartOutboxRelay]. unfold bind.
  destruct (relay_cycle env w) as [u w1]. reflexivity.
Qed.

(** X20. While the broker refuses every event, the relay changes
    nothing in the store, however many times its ticker fires: every
    call it makes is a failed publish and every row stays as it was. *)
Theorem StartOutboxRelay_broker_down : forall ticks w,
    (forall env e, In env ticks -> publish_event_ok env e = false) ->
    let w' := snd (StartOutboxRelay ticks w) in
    db w' = db w /\
    exists new,
      trace w' = trace w ++ new /\
      forall c, In c new ->
                exists key e, c = CallPublishGenericEvent "nexus.events" key
                                                          e false.
Proof.
  intros ticks. induction ticks as [|env rest IH]; intros w Hp; cbv zeta.
  - split; [reflexivity|]. exists []. cbn. rewrite app_nil_r.
    split; [reflexivity | contradiction].
  - rewrite StartOutboxRelay_cons.
    assert (Hp' : forall env' e, In env' rest ->
                                 publish_event_ok env' e = false)
      by (intros env' e H; apply Hp; right; exact H).
    assert (Hpe : forall e, publish_event_ok env e = false)
      by (intros e; apply Hp; left; reflexivity).
    destruct (IH (snd (relay_cycle env w)) Hp') as [Hdb [new [Htr Hnew]]].
    destruct (relay_cycle_trace env w) as [batch Hb].
    assert (Hdb1 : db (snd (relay_cycle env w)) = db w).
    { destruct (db_ok env (OpGetUnprocessed 100)) eqn:Hok.
      - rewrite (relay_cycle_fetched env w Hok).
        apply relay_range_broker_down, Hpe.
      - apply relay_cycle_fetch_failed, Hok. }
    split; [congruence|].
    exists (map (publish_call env) batch ++ new).
    split; [rewrite Htr, Hb, app_assoc; reflexivity|].
    intros c Hc. apply in_app_or in Hc. destruct Hc as [Hc|Hc].
    + apply in_map_iff in Hc. destruct Hc as [e [<- _]].
      unfold publish_call. rewrite Hpe. eexists. eexists. reflexivity.
    + apply Hnew, Hc.
Qed.

Lemma StartOutboxRelay_broker_down_witness :
  db (snd (StartOutboxRelay [env_broker_down; env_broker_down]
                            (world system_two_orders)))
  = db (world system_two_orders).
Proof.
  apply (StartOutboxRelay_broker_down [env_broker_down; env_broker_down]
           (world system_two_orders)).
  intros env e [<-|[<-|[]]]; reflexivity.
Defined.

(* ================================================================== *)
(** * Further properties: the HTTP handlers and the worker feed     *)
(* ================================================================== *)

Lemma created_nonzero : forall now o,
    CreatedAt o <> zeroTime -> UpdatedAt o <> zeroTime -> created now o = o.
Proof.
  intros now o Hc Hu. unfold created, autoCreateTime.
  apply Z.eqb_neq in Hc. apply Z.eqb_neq in Hu. rewrite Hc, Hu.
  destruct o; reflexivity.
Qed.

Lemma getOrder_eq : forall env id w,
    getOrder env id w
    = (match (if db_ok env (OpGetOrder id)
              then find (fun r => String.eqb (ID r) id) (orders (db w))
              else None) with
       | Some o => mkResponse StatusOK (BodyOrder o)
       | None => mkResponse StatusNotFound (BodyError "Order not found")
       end, w).
Proof.
  intros env id w. unfold getOrder, GetOrder, bind, get_db, ret.
  cbv beta iota.
  destruct (db_ok env (OpGetOrder id)); cbn [negb]; cbv beta iota;
    [|reflexivity].
  destruct (find _ _); reflexivity.
Qed.

Lemma find_none_has_order : forall id rows,
    find (fun r => String.eqb (ID r) id) rows = None ->
    has_order id rows = false.
Proof.
  intros id rows H. unfold has_order.
  induction rows as [|r rows IH]; [reflexivity|]. cbn in *.
  destruct (String.eqb (ID r) id); [discriminate | apply IH, H].
Qed.

(** X21. [getOrder] answers 200 or 404 and changes nothing. It answers
    200 exactly when the store answers and holds a row with the id, and
    the body is then a stored order with that id; when the store fails
    the answer is the 404 "Order not found" of a missing order. *)
Theorem getOrder_answers : forall env orderID w,
    let r := fst (getOrder env orderID w) in
    snd (getOrder env orderID w) = w /\
    (StatusCode r = StatusOK <->
     db_ok env (OpGetOrder orderID) = true /\
     has_order orderID (orders (db w)) = true) /\
    (StatusCode r = StatusOK ->
     exists o, Body r = BodyOrder o /\ In o (orders (db w)) /\
               ID o = orderID) /\
    (StatusCode r <> StatusOK ->
     r = mkResponse StatusNotFound (BodyError "Order not found")).
Proof.
  intros env orderID w. cbv zeta. rewrite getOrder_eq. cbn [fst snd].
  split; [reflexivity|].
  destruct (db_ok env (OpGetOrder orderID)).
  - destruct (find (fun r => String.eqb (ID r) orderID) (orders (db w)))
      as [o|] eqn:Hf.
    + destruct (find_has_order _ _ _ Hf) as [Hid Hhas].
      apply find_some in Hf. cbn.
      repeat split; auto; try (intros; exists o; tauto).
      intros H. exfalso. apply H. reflexivity.
    + apply find_none_has_order in Hf. cbn. rewrite Hf.
      repeat split; try discriminate; try reflexivity.
      intros [_ H]. discriminate.
  - cbn. repeat split; try discriminate; try reflexivity.
    intros [H _]. discriminate.
Qed.

Section HttpRoundTrip.

Variable json_Marshal : Order -> option string.

Lemma SubmitOrder_nil_rows : forall env order w o,
    fst (SubmitOrder json_Marshal env order w) = Returned (o, None) ->
    o = created (clock w) order /\
    has_order (ID order) (orders (db w)) = false /\
    orders (db (snd (SubmitOrder json_Marshal env order w)))
    = orders (db w) ++ [o].
Proof.
  intros env order w o Hnil.
  destruct (SubmitOrder_cases json_Marshal env order w)
    as [_ [_ [_ [_ H]]]].
  rewrite Hnil in H.
  destruct H as [[[msg Hm] _]|[Hhas [_ [Hrows H]]]]; [discriminate|].
  destruct H as [[[msg Hm] _]|[[[msg Hm] _]|[payload [_ [Hr _]]]]];
    try discriminate.
  injection Hr as ->. auto.
Qed.

Lemma SubmitOrder_succeeds : forall env order w payload,
    (forall op, db_ok env op = true) ->
    has_order (ID order) (orders (db w)) = false ->
    json_Marshal (created (clock w) order) = Some payload ->
    has_event (N.succ (outbox_seq (db w))) (outbox_events (db w)) = false ->
    fst (SubmitOrder json_Marshal env order w)
    = Returned (created (clock w) order, None).
Proof.
  intros env order w payload Hdb Hhas Hj Hev.
  unfold SubmitOrder, CreateOrder, CreateOutboxEvent, gorm_Create_Order,
    gorm_Create_OutboxEvent, bind, time_Now, get_db, put_db, ret.
  cbv beta iota. fold (created (clock w) order).
  cbn [db clock trace errlog ID created set_UpdatedAt set_CreatedAt].
  rewrite Hdb, Hhas. cbn [negb].
  cbn [is_nil negb fst snd db clock trace errlog orders outbox_events
              outbox_seq].
  rewrite Hj.
  cbn [db clock trace errlog orders outbox_events outbox_seq EventID
          N.eqb].
  rewrite Hdb, Hev. reflexivity.
Qed.

(** X22. An order answered with 202 can be read back: the body of the
    answer is a valid PENDING order, and GET /api/v1/orders/:id with its
    id, the store answering, returns 200 with the same order. *)
Theorem createOrder_then_getOrder : forall env env' bound w o,
    fst (createOrder json_Marshal env bound w)
    = mkResponse StatusAccepted (BodyOrder o) ->
    db_ok env' (OpGetOrder (ID o)) = true ->
    let w' := snd (createOrder json_Marshal env bound w) in
    Status o = StatusPending /\ IsValid o = true /\
    getOrder env' (ID o) w' = (mkResponse StatusOK (BodyOrder o), w').
Proof.
  intros env env' bound w o Hacc Hget. cbv zeta.
  destruct (createOrder_accepted json_Marshal env bound w _ Hacc)
    as [req [o' [_ [Hbody [Hv [Hs Hw]]]]]].
  injection Hbody as <-. rewrite Hw.
  destruct (SubmitOrder_nil_rows _ _ _ _ Hs) as [Ho [Hnew Hrows]].
  assert (Hid : ID o = req_ID req) by (rewrite Ho; reflexivity).
  split; [rewrite Ho; reflexivity|].
  split.
  { rewrite <- Hv, Ho. reflexivity. }
  rewrite getOrder_eq, Hget, Hrows.
  cbn [ID NewOrder] in Hnew. rewrite <- Hid in Hnew.
  rewrite (find_new_row o _ Hnew). reflexivity.
Qed.

Lemma createOrder_clock : forall env bound w,
    clock w <= clock (snd (createOrder json_Marshal env bound w)).
Proof.
  intros env bound w. unfold createOrder.
  destruct bound as [req|]; [|cbn; lia].
  unfold bind, time_Now, ret. cbv beta iota.
  destruct (IsValid _); cbn [negb]; [|cbn; lia].
  match goal with
  | |- context [SubmitOrder json_Marshal env ?o ?w1] =>
      destruct (SubmitOrder_cases json_Marshal env o w1) as [_ [_ [Hc _]]];
      destruct (SubmitOrder json_Marshal env o w1) as [[[o' err]|msg] w2]
  end; cbn [snd clock] in *; [|lia].
  destruct err; cbn; lia.
Qed.

Lemma exec_clock : forall a s,
    clock (world s) <= clock (world (exec json_Marshal a s)).
Proof.
  intros a s. destruct a as [env bound|env order|env|env]; cbn [exec].
  - apply createOrder_clock.
  - cbn [world]. rewrite worker_job_clock. apply ProcessOrder_clock.
  - destruct (relay_batch s); [|lia].
    rewrite GetUnprocessedOutboxEvents_spec.
    destruct (db_ok env (OpGetUnprocessed 100)); cbn; lia.
  - destruct (relay_batch s) as [|e rest]; [lia|]. cbn [world].
    apply relay_event_seq_clock.
Qed.

Lemma reachable_clock : forall s,
    reachable json_Marshal s -> 1 <= clock (world s).
Proof.
  intros s [acts ->].
  assert (H : forall acts s0, clock (world s0)
                              <= clock (world (run json_Marshal acts s0))).
  { clear. induction acts as [|a acts IH]; intros s0; [cbn; lia|].
    rewrite run_cons. pose proof (exec_clock a s0). specialize (IH (exec json_Marshal a s0)). lia. }
  specialize (H acts initial). cbn in H. exact H.
Qed.

(** X23. In every reachable state, with the store answering, a request
    that binds to a valid order with an id not yet stored, whose floats
    [json.Marshal] accepts, is answered 202 with the order as built by
    [NewOrder]; the order row and its event are then both stored. *)
Theorem createOrder_accepts : forall s env req,
    reachable json_Marshal s ->
    (forall op, db_ok env op = true) ->
    let w := world s in
    let order := NewOrder (clock w) (req_ID req) (req_Symbol req)
                          (req_Side req) (req_Type req)
                          (req_Quantity req) (req_Price req) in
    let w' := snd (createOrder json_Marshal env (Some req) w) in
    IsValid order = true ->
    has_order (req_ID req) (orders (db w)) = false ->
    json_Marshal order <> None ->
    fst (createOrder json_Marshal env (Some req) w)
    = mkResponse StatusAccepted (BodyOrder order) /\
    orders (db w') = orders (db w) ++ [order] /\
    exists payload,
      json_Marshal order = Some payload /\
      outbox_events (db w')
      = outbox_events (db w)
        ++ [submitted_event (N.succ (outbox_seq (db w))) order payload
                            (clock w + 2)].
Proof.
  intros s env req Hr Hdb. cbv zeta. intros Hv Hnew Hj.
  pose proof (reachable_clock s Hr) as Hclock.
  destruct (store_inv_reachable json_Marshal s Hr)
    as [_ [_ [Hev _]]].
  set (w := world s) in *.
  set (order := NewOrder (clock w) (req_ID req) (req_Symbol req)
                         (req_Side req) (req_Type req)
                         (req_Quantity req) (req_Price req)) in *.
  set (w1 := mkWorld (db w) (clock w + 1) (trace w) (errlog w)).
  assert (Hcr : created (clock w1) order = order).
  { apply created_nonzero; unfold zeroTime; cbn; lia. }
  unfold createOrder, bind, time_Now, ret. cbv beta iota.
  fold order. fold w1. rewrite Hv. cbn [negb].
  destruct (SubmitOrder_cases json_Marshal env order w1)
    as [_ [_ [_ [_ H]]]].
  rewrite Hcr in H. cbn [db w1] in H. fold w1 in H.
  destruct H as [[_ [_ [_ [_ [H|H]]]]]|[_ [_ [Hrows H]]]].
  { rewrite Hdb in H. discriminate. }
  { cbn in H. unfold w in *. congruence. }
  destruct H as [[_ [H _]]|[[[msg Hm] Hsame]|[payload [Hp [Hret [_ [_ [_ Hout]]]]]]]].
  - contradiction.
  - exfalso.
    destruct (json_Marshal order) as [payload|] eqn:Hp; [|contradiction].
    assert (Hfresh : has_event (N.succ (outbox_seq (db w1)))
                               (outbox_events (db w1)) = false).
    { unfold has_event. apply not_true_is_false. intros Hex.
      apply existsb_exists in Hex. destruct Hex as [e [Hin He]].
      apply N.eqb_eq in He. rewrite Forall_forall in Hev.
      destruct (Hev e Hin) as [_ [_ [_ [Hid _]]]]. cbn in He. lia. }
    rewrite (SubmitOrder_succeeds env order w1 payload) in Hm;
      [discriminate | exact Hdb | exact Hnew | rewrite Hcr; exact Hp
      | exact Hfresh].
  - destruct (SubmitOrder json_Marshal env order w1) as [r w2].
    cbn [fst snd] in *. subst r. cbn [is_nil negb fst snd].
    split; [reflexivity|]. split; [exact Hrows|].
    exists payload. split; [exact Hp|].
    rewrite Hout. cbn [clock w1].
    replace (clock w + 1 + 1) with (clock w + 2) by lia. reflexivity.
Qed.

End HttpRoundTrip.

Lemma createOrder_then_getOrder_witness :
  getOrder env_ok "O1" world_O1_pending
  = (mkResponse StatusOK (BodyOrder order_O1), world_O1_pending).
Proof.
  exact (proj2 (proj2 (createOrder_then_getOrder sample_Marshal env_ok env_ok
                         (Some req_O1) initial_world order_O1
                         eq_refl eq_refl))).
Defined.

Lemma createOrder_accepts_witness :
  fst (createOrder sample_Marshal env_ok (Some req_O1) initial_world)
  = mkResponse StatusAccepted (BodyOrder order_O1).
Proof.
  assert (Hr : reachable sample_Marshal initial) by (exists []; reflexivity).
  assert (Hj : sample_Marshal order_O1 <> None) by discriminate.
  exact (proj1 (createOrder_accepts sample_Marshal initial env_ok req_O1 Hr
                  (fun _ => eq_refl) eq_refl eq_refl Hj)).
Defined.

(** ** [ListOrders] and [listOrders] *)

Lemma insert_by_created_at_desc_perm : forall o l,
    Permutation (insert_by_created_at_desc o l) (o :: l).
Proof.
  intros o l. induction l as [|x l IH]; cbn; [reflexivity|].
  destruct (CreatedAt x <=? CreatedAt o); [reflexivity|].
  rewrite IH. apply perm_swap.
Qed.

Lemma order_by_created_at_desc_perm : forall l,
    Permutation (order_by_created_at_desc l) l.
Proof.
  induction l as [|o l IH]; cbn; [reflexivity|].
  rewrite insert_by_created_at_desc_perm. constructor. exact IH.
Qed.

Lemma insert_by_created_at_desc_sorted : forall o l,
    StronglySorted newer_first l ->
    StronglySorted newer_first (insert_by_created_at_desc o l).
Proof.
  intros o l H. induction H as [|x l Hs IH Hf]; cbn.
  - repeat constructor.
  - destruct (Z.leb_spec (CreatedAt x) (CreatedAt o)) as [Hle|Hgt].
    + constructor; [constructor; assumption|].
      constructor; [exact Hle|].
      eapply Forall_impl; [|exact Hf]. unfold newer_first. intros; lia.
    + constructor; [exact IH|].
      apply Forall_forall. intros y Hy.
      apply (Permutation_in _ (insert_by_created_at_desc_perm o l)) in Hy.
      destruct Hy as [<-|Hy]; [unfold newer_first; lia|].
      rewrite Forall_forall in Hf. apply Hf, Hy.
Qed.

Lemma order_by_created_at_desc_sorted : forall l,
    StronglySorted newer_first (order_by_created_at_desc l).
Proof.
  induction l as [|o l IH]; cbn; [constructor|].
  apply insert_by_created_at_desc_sorted, IH.
Qed.

Lemma ListOrders_eq : forall ok status limit w,
    ListOrders ok status limit w
    = (if ok
       then ((if 0 <? limit
              then firstn (Z.to_nat limit)
                          (order_by_created_at_desc
                             (with_status status (orders (db w))))
              else order_by_created_at_desc
                     (with_status status (orders (db w)))), None)
       else ([], ErrStorage), w).
Proof.
  intros ok status limit w. unfold ListOrders, with_status, bind, get_db, ret.
  destruct ok; reflexivity.
Qed.

Lemma with_status_In : forall status rows o,
    In o (with_status status rows) ->
    In o rows /\ (status <> ""%string -> Status o = status).
Proof.
  intros status rows o. unfold with_status, nonempty.
  destruct (String.eqb_spec status ""); cbn [negb].
  - intros H. split; [exact H | contradiction].
  - intros H. apply filter_In in H. destruct H as [H E].
    apply String.eqb_eq in E. auto.
Qed.

(** X24. [ListOrders], when the store answers, returns stored orders
    only, all with the requested status when one is given, newest first,
    at most [limit] of them when [limit] is positive; when no limit
    applies or the limit is not reached, it returns every stored order
    with the status. It changes nothing, and a store failure yields no
    rows. *)
Theorem ListOrders_result : forall status limit w,
    let rows := fst (fst (ListOrders true status limit w)) in
    ListOrders false status limit w = (([], ErrStorage), w) /\
    snd (ListOrders true status limit w) = w /\
    snd (fst (ListOrders true status limit w)) = None /\
    (forall o, In o rows ->
               In o (orders (db w)) /\
               (status <> ""%string -> Status o = status)) /\
    StronglySorted newer_first rows /\
    (0 < limit -> (length rows <= Z.to_nat limit)%nat) /\
    (limit <= 0 \/ (length (orders (db w)) <= Z.to_nat limit)%nat ->
     Permutation rows (with_status status (orders (db w)))).
Proof.
  intros status limit w. cbv zeta. rewrite !ListOrders_eq. cbn [fst snd].
  split; [reflexivity|]. split; [reflexivity|]. split; [reflexivity|].
  set (all := order_by_created_at_desc (with_status status (orders (db w)))).
  assert (Hperm : Permutation all (with_status status (orders (db w))))
    by apply order_by_created_at_desc_perm.
  assert (Hsorted : StronglySorted newer_first all)
    by apply order_by_created_at_desc_sorted.
  split; [|split; [|split]].
  - intros o Hin. apply with_status_In.
    apply (Permutation_in _ Hperm).
    destruct (0 <? limit); [apply (firstn_In _ _ _ _ Hin) | exact Hin].
  - destruct (0 <? limit); [apply firstn_StronglySorted|]; exact Hsorted.
  - intros Hl. apply Z.ltb_lt in Hl. rewrite Hl. apply firstn_le_length.
  - intros Hl. destruct (Z.ltb_spec 0 limit) as [Hpos|Hneg]; [|exact Hperm].
    destruct Hl as [Hl|Hl]; [lia|].
    rewrite firstn_all2; [exact Hperm|].
    rewrite (Permutation_length Hperm).
    assert (length (with_status status (orders (db w)))
            <= length (orders (db w)))%nat; [|lia].
    unfold with_status. destruct (nonempty status); [|lia].
    apply filter_length_le.
Qed.

(** X25. [listOrders] answers 200 with at most 50 orders, stored ones
    with the requested status, newest first, or, when the store fails,
    500 with the error logged; it never changes the store. *)
Theorem listOrders_answers : forall ok status w,
    let r := fst (listOrders ok status w) in
    let w' := snd (listOrders ok status w) in
    db w' = db w /\ trace w' = trace w /\
    (ok = true ->
     w' = w /\
     exists rows,
       r = mkListResponse StatusOK (ListOfOrders rows) /\
       (length rows <= 50)%nat /\
       StronglySorted newer_first rows /\
       forall o, In o rows ->
                 In o (orders (db w)) /\
                 (status <> ""%string -> Status o = status)) /\
    (ok = false ->
     r = mkListResponse StatusInternalServerError
                        (ListError "Failed to list orders") /\
     errlog w' = errlog w ++ ["Failed to list orders: storage error"%string]).
Proof.
  intros ok status w. cbv zeta.
  pose proof (ListOrders_eq ok status 50 w) as Heq.
  unfold listOrders, bind. rewrite Heq. destruct ok; cbn [fst snd].
  - cbn [is_nil negb ret fst snd].
    split; [reflexivity|]. split; [reflexivity|].
    split; [|discriminate]. intros _. split; [reflexivity|].
    eexists. split; [reflexivity|].
    set (all := order_by_created_at_desc
                  (with_status status (orders (db w)))).
    split; [apply firstn_le_length|].
    split; [apply firstn_StronglySorted, order_by_created_at_desc_sorted|].
    intros o Hin. apply with_status_In.
    apply (Permutation_in _ (order_by_created_at_desc_perm _)).
    apply (firstn_In _ _ _ _ Hin).
  - cbn. split; [reflexivity|]. split; [reflexivity|].
    split; [discriminate|]. intros _. split; reflexivity.
Qed.

Section WorkerFeed.

Variable json_Marshal : Order -> option string.

Lemma postOrders_eq : forall env bound queue w,
    postOrders json_Marshal env bound queue w
    = (let c := createOrder json_Marshal env bound w in
       match Body (fst c) with
       | BodyOrder o =>
           if (length queue <? orderChan_capacity)%nat
           then (Responded (fst c), queue ++ [o])
           else (BlockedOnSend o, queue)
       | _ => (Responded (fst c), queue)
       end, snd (createOrder json_Marshal env bound w)).
Proof.
  intros env bound queue w. unfold postOrders, createOrder.
  destruct bound as [req|]; [|reflexivity].
  unfold bind, time_Now, ret. cbv beta iota.
  destruct (IsValid _); cbn [negb]; [|reflexivity].
  destruct (SubmitOrder json_Marshal env _ _) as [[[o err]|msg] w2];
    [|reflexivity].
  destruct err as [msg|]; cbn [is_nil negb].
  - unfold logger_Error. reflexivity.
  - cbn [fst snd Body]. destruct (length queue <? orderChan_capacity)%nat;
      reflexivity.
Qed.

Lemma createOrder_body_order : forall env bound w o,
    Body (fst (createOrder json_Marshal env bound w)) = BodyOrder o ->
    fst (createOrder json_Marshal env bound w)
    = mkResponse StatusAccepted (BodyOrder o).
Proof.
  intros env bound w o. unfold createOrder.
  destruct bound as [req|]; [|discriminate].
  unfold bind, time_Now, ret. cbv beta iota.
  destruct (IsValid _); cbn [negb]; [|discriminate].
  destruct (SubmitOrder json_Marshal env _ _) as [[[o' err]|msg] w2];
    [|discriminate].
  destruct err as [msg|]; cbn; [discriminate|].
  intros H. injection H as ->. reflexivity.
Qed.

(** X26. The POST handler of [main] treats the store as [createOrder]
    does and gives the same answer unless it blocks. It sends to the
    worker pool exactly the orders it accepts, after both rows are
    written; a request that is refused leaves the channel as it is; with
    100 orders waiting in the channel the handler blocks on the send, the
    order being stored and no answer given. *)
Theorem postOrders_enqueues_accepted : forall env bound queue w,
    let r := postOrders json_Marshal env bound queue w in
    let c := createOrder json_Marshal env bound w in
    snd r = snd c /\
    (StatusCode (fst c) <> StatusAccepted ->
     fst r = (Responded (fst c), queue)) /\
    (forall o,
        fst c = mkResponse StatusAccepted (BodyOrder o) ->
        find (fun x => String.eqb (ID x) (ID o)) (orders (db (snd r)))
        = Some o /\
        ((length queue < orderChan_capacity)%nat ->
         fst r = (Responded (fst c), queue ++ [o])) /\
        ((orderChan_capacity <= length queue)%nat ->
         fst r = (BlockedOnSend o, queue))).
Proof.
  intros env bound queue w. cbv zeta. rewrite postOrders_eq. cbn [fst snd].
  split; [reflexivity|]. split.
  - intros Hne.
    destruct (Body (fst (createOrder json_Marshal env bound w)))
      as [msg|msg|o] eqn:Hb; try reflexivity.
    apply createOrder_body_order in Hb. rewrite Hb in Hne.
    exfalso. apply Hne. reflexivity.
  - intros o Hacc.
    destruct (createOrder_accepted json_Marshal env bound w _ Hacc)
      as [req [o' [_ [Hbody [_ [Hs Hw]]]]]].
    injection Hbody as <-.
    destruct (SubmitOrder_nil_rows json_Marshal _ _ _ _ Hs)
      as [Ho [Hnew Hrows]].
    split.
    { rewrite Hw, Hrows. apply find_new_row.
      replace (ID o) with (req_ID req) by (rewrite Ho; reflexivity).
      exact Hnew. }
    rewrite Hacc. cbn [Body].
    split; intros Hq.
    + apply Nat.ltb_lt in Hq. rewrite Hq. reflexivity.
    + apply Nat.ltb_ge in Hq. rewrite Hq. reflexivity.
Qed.

(** X27. From the request to the final status: an order that the POST
    handler of [main] accepted and sent to the worker pool, once a worker
    takes it with the store answering, is sent to the exchange once and
    ends COMPLETED when the exchange accepts the trade and FAILED when it
    does not, all its other fields but [UpdatedAt] being those of the
    request. *)
Theorem accepted_order_is_executed : forall env env' bound queue w o queue',
    fst (postOrders json_Marshal env bound queue w)
    = (Responded (mkResponse StatusAccepted (BodyOrder o)), queue') ->
    (forall op, db_ok env' op = true) ->
    let w1 := snd (postOrders json_Marshal env bound queue w) in
    let w2 := snd (worker_job env' o w1) in
    let executing := set_UpdatedAt (set_Status o StatusExecuting) (clock w1) in
    let ok := exchange_ok env' executing in
    let last := set_UpdatedAt
                  (set_Status o (if ok then StatusCompleted else StatusFailed))
                  (clock w1 + 2) in
    queue' = queue ++ [o] /\
    trace w1 = trace w /\
    trace w2 = trace w ++ [DbSaveOrder (clock w1) executing;
                           CallExecuteTrade executing ok;
                           DbSaveOrder (clock w1 + 2) last]
                       ++ (if ok
                           then [CallPublishOrderEvent last
                                   (publish_order_ok env' last)]
                           else []) /\
    find (fun x => String.eqb (ID x) (ID o)) (orders (db w2)) = Some last /\
    same_order_but_status o last /\
    forall env'', trace (snd (worker_job env'' o w2)) = trace w2 /\
                  db (snd (worker_job env'' o w2)) = db w2.
Proof.
  intros env env' bound queue w o queue' Hpost Hstore. cbv zeta.
  rewrite postOrders_eq in Hpost. rewrite postOrders_eq. cbn [fst snd] in *.
  assert (Hacc : fst (createOrder json_Marshal env bound w)
                 = mkResponse StatusAccepted (BodyOrder o)
                 /\ queue' = queue ++ [o]).
  { destruct (Body (fst (createOrder json_Marshal env bound w)))
      as [msg|msg|o0] eqn:Hb.
    - injection Hpost as Hc _. rewrite Hc in Hb. discriminate.
    - injection Hpost as Hc _. rewrite Hc in Hb. discriminate.
    - destruct (length queue <? orderChan_capacity)%nat; [|discriminate].
      injection Hpost as Hc Hq. rewrite Hc in Hb. injection Hb as <-.
      auto. }
  destruct Hacc as [Hacc Hq].
  destruct (createOrder_accepted json_Marshal env bound w _ Hacc)
    as [req [o' [_ [Hbody [Hv [Hs Hw]]]]]].
  injection Hbody as <-.
  destruct (SubmitOrder_nil_rows json_Marshal _ _ _ _ Hs)
    as [Ho [Hnew Hrows]].
  set (w1 := snd (createOrder json_Marshal env bound w)) in *.
  assert (Hido : ID o = req_ID req) by (rewrite Ho; reflexivity).
  assert (Hpend : Status o = StatusPending) by (rewrite Ho; reflexivity).
  assert (Hid : ID o <> ""%string).
  { rewrite Hido. apply IsValid_iff in Hv. apply Hv. }
  assert (Hfind : find (fun x => String.eqb (ID x) (ID o)) (orders (db w1))
                  = Some o).
  { rewrite Hw, Hrows. apply find_new_row. rewrite Hido. exact Hnew. }
  destruct (ProcessOrder_pending env' w1 (ID o) o Hfind Hid Hpend Hstore)
    as [_ [Htr [Hrows2 _]]].
  destruct (worker_job_as_ProcessOrder env' o w1) as [Htw Hdw].
  destruct (createOrder_frame json_Marshal env bound w) as [Htr1 _].
  fold w1 in Htr1.
  assert (Hlast : find (fun x => String.eqb (ID x) (ID o))
                       (orders (db (snd (worker_job env' o w1))))
                  = Some (set_UpdatedAt
                            (set_Status o
                               (if exchange_ok env'
                                     (set_UpdatedAt
                                        (set_Status o StatusExecuting)
                                        (clock w1))
                                then StatusCompleted else StatusFailed))
                            (clock w1 + 2))).
  { rewrite Hdw, Hrows2. apply (find_last_write w1 (ID o) o Hfind). }
  split; [exact Hq|]. split; [exact Htr1|].
  split; [rewrite Htw, Htr, Htr1; reflexivity|].
  split; [exact Hlast|].
  split; [unfold same_order_but_status; cbn; tauto|].
  intros env''.
  destruct (worker_job_as_ProcessOrder env'' o
              (snd (worker_job env' o w1))) as [Ht2 Hd2].
  rewrite Ht2, Hd2.
  destruct (ProcessOrder_not_allowed env'' (ID o)
              (snd (worker_job env' o w1))) as [_ Hsame];
    [|rewrite Hsame; split; reflexivity].
  intros x Hx. rewrite Hlast in Hx. injection Hx as <-.
  apply CanTransitionTo_terminal.
  destruct (exchange_ok env' _); cbn; auto.
Qed.

End WorkerFeed.

Lemma accepted_order_is_executed_witness :
  find (fun x => String.eqb (ID x) (ID order_O1))
       (orders (db (snd (worker_job env_ok order_O1
                           (snd (postOrders sample_Marshal env_ok
                                   (Some req_O1) [] initial_world))))))
  = Some (set_UpdatedAt (set_Status order_O1 StatusCompleted) 6).
Proof.
  exact (proj1 (proj2 (proj2 (proj2
           (accepted_order_is_executed sample_Marshal env_ok env_ok
              (Some req_O1) [] initial_world order_O1 [order_O1]
              eq_refl (fun _ => eq_refl)))))).
Defined.
